(** * 8bp-graphics-converter: CPC pixel codec, palette and geometry heuristics

    Shallow embedding of the three scripts [png2asm.py], [asm2png.py] and
    [asm2pngs.py].  Python integers are [Z]; [>>], [<<], [&] and [|] are
    [Z.shiftr], [Z.shiftl], [Z.land] and [Z.lor] (Python's integers are
    unbounded two's complement, exactly like [Z]'s bit operations).
    Python lists are [list]; a raised exception is the [Raise] branch of
    [result]. *)

From Stdlib Require Import ZArith List Bool Lia String Ascii Sorted.
From stdpp Require Import base option list gmap.
Import ListNotations.

Local Open Scope Z_scope.

(** ** Python prelude *)

(** The exceptions: one constructor per [raise] of the scripts (they are all
    [ValueError], told apart by their message only), then those the
    interpreter raises by itself in the code that is modelled. *)
Inductive exn : Type :=
| ValueError_color (r g b : Z) (best : Z)   (* nearest_ink: colour off palette *)
| ValueError_width (w ppb : Z)              (* convert_png_to_rows: width not divisible *)
| ValueError_inks (used colors : Z)         (* convert_png_to_rows: too many inks *)
| ValueError_no_rows                        (* guess_format: no db/defb rows *)
| ValueError_no_header                      (* decode_block_to_png: fewer than 2 bytes *)
| ValueError_short (needed have : Z)        (* decode_block_to_png: data missing *)
| ValueError_shift                          (* negative shift count *)
| ValueError_int                            (* int(): invalid literal *)
| ValueError_max_empty                      (* max() of an empty iterable *)
| KeyError (k : Z)
| IndexError.

(** [isinstance(e, ValueError)], for [except ValueError]. *)
Definition is_ValueError (e : exn) : bool :=
  match e with
  | KeyError _ | IndexError => false
  | _ => true
  end.

Inductive result (A : Type) : Type :=
| Ok (a : A)
| Raise (e : exn).
Arguments Ok {A} a.
Arguments Raise {A} e.

#[export] Instance exn_eq_dec : EqDecision exn.
Proof. solve_decision. Defined.

#[export] Instance result_eq_dec {A} `{EqDecision A} : EqDecision (result A).
Proof. solve_decision. Defined.

#[export] Instance result_ret : MRet result := fun A a => Ok a.
#[export] Instance result_bind : MBind result := fun A B k m =>
  match m with
  | Ok a => k a
  | Raise e => Raise e
  end.

Declare Scope py_scope.
Delimit Scope py_scope with py.
Notation "a .>> k" := (Z.shiftr a k) (at level 33, left associativity) : py_scope.
Notation "a .<< k" := (Z.shiftl a k) (at level 33, left associativity) : py_scope.
Notation "a .& b" := (Z.land a b) (at level 40, left associativity) : py_scope.
Notation "a .| b" := (Z.lor a b) (at level 50, left associativity) : py_scope.
Local Open Scope py_scope.

(** [len(l)] *)
Definition len {A} (l : list A) : Z := Z.of_nat (length l).

(** [list(enumerate(l))] *)
Definition enumerate {A} (l : list A) : list (Z * A) :=
  combine (map Z.of_nat (seq 0 (length l))) l.

(** [x << k] with Python's check on the shift count. *)
Definition py_shl (x k : Z) : result Z :=
  if k <? 0 then Raise ValueError_shift else Ok (x .<< k).

(** ** What the scripts share: bit codec, palette table, decode driver *)

Module Cpc.

(** *** Bit codec *)

(** [asm2png.py], [asm2pngs.py]: decode_mode0 *)
Definition decode_mode0 (b : Z) : Z * Z :=
  let p0 := 0 in
  let p1 := 0 in
  let p0 := p0 .| (((b .>> 7) .& 1) .<< 0) in
  let p1 := p1 .| (((b .>> 6) .& 1) .<< 0) in
  let p0 := p0 .| (((b .>> 5) .& 1) .<< 2) in
  let p1 := p1 .| (((b .>> 4) .& 1) .<< 2) in
  let p0 := p0 .| (((b .>> 3) .& 1) .<< 1) in
  let p1 := p1 .| (((b .>> 2) .& 1) .<< 1) in
  let p0 := p0 .| (((b .>> 1) .& 1) .<< 3) in
  let p1 := p1 .| (((b .>> 0) .& 1) .<< 3) in
  (p0, p1).

(** decode_mode1 *)
Definition decode_mode1 (b : Z) : Z * Z * Z * Z :=
  let p0 := (((b .>> 7) .& 1) .<< 1) .| (((b .>> 3) .& 1) .<< 0) in
  let p1 := (((b .>> 6) .& 1) .<< 1) .| (((b .>> 2) .& 1) .<< 0) in
  let p2 := (((b .>> 5) .& 1) .<< 1) .| (((b .>> 1) .& 1) .<< 0) in
  let p3 := (((b .>> 4) .& 1) .<< 1) .| (((b .>> 0) .& 1) .<< 0) in
  (p0, p1, p2, p3).

(** decode_mode2: [[ (b >> (7 - i)) & 1 for i in range(8) ]] *)
Definition decode_mode2 (b : Z) : list Z :=
  map (fun i => (b .>> (7 - Z.of_nat i)) .& 1) (seq 0 8).

(** [png2asm.py]: pack_mode0 *)
Definition pack_mode0 (p0 p1 : Z) : Z :=
  let b := 0 in
  let b := b .| (((p0 .>> 0) .& 1) .<< 7) in
  let b := b .| (((p1 .>> 0) .& 1) .<< 6) in
  let b := b .| (((p0 .>> 2) .& 1) .<< 5) in
  let b := b .| (((p1 .>> 2) .& 1) .<< 4) in
  let b := b .| (((p0 .>> 1) .& 1) .<< 3) in
  let b := b .| (((p1 .>> 1) .& 1) .<< 2) in
  let b := b .| (((p0 .>> 3) .& 1) .<< 1) in
  let b := b .| (((p1 .>> 3) .& 1) .<< 0) in
  b.

(** pack_mode1 *)
Definition pack_mode1 (p0 p1 p2 p3 : Z) : Z :=
  let b := 0 in
  let b := b .| (((p0 .>> 1) .& 1) .<< 7) in
  let b := b .| (((p1 .>> 1) .& 1) .<< 6) in
  let b := b .| (((p2 .>> 1) .& 1) .<< 5) in
  let b := b .| (((p3 .>> 1) .& 1) .<< 4) in
  let b := b .| (((p0 .>> 0) .& 1) .<< 3) in
  let b := b .| (((p1 .>> 0) .& 1) .<< 2) in
  let b := b .| (((p2 .>> 0) .& 1) .<< 1) in
  let b := b .| (((p3 .>> 0) .& 1) .<< 0) in
  b.

(** pack_mode2: the loop [for i, p in enumerate(pxs): b |= (p & 1) << (7 - i)].
    A ninth element makes the shift count negative, which Python refuses. *)
Definition pack_mode2 (pxs : list Z) : result Z :=
  fold_left
    (fun (acc : result Z) '(i, p) =>
       b ← acc;
       s ← py_shl (p .& 1) (7 - i);
       Ok (b .| s))
    (enumerate pxs) (Ok 0).

(** The pixels of one byte, as the decode drivers build them:
    [list(decode_mode0(b))], [list(decode_mode1(b))] or [decode_mode2(b)],
    chosen by [if mode == 0 ... elif mode == 1 ... else]. *)
Definition decode_pens (mode b : Z) : list Z :=
  if mode =? 0 then let '(p0, p1) := decode_mode0 b in [p0; p1]
  else if mode =? 1 then let '(p0, p1, p2, p3) := decode_mode1 b in [p0; p1; p2; p3]
  else decode_mode2 b.

(** [px_per_byte, max_pens] of the decode drivers. *)
Definition mode_params (mode : Z) : Z * Z :=
  if mode =? 0 then (2, 16)
  else if mode =? 1 then (4, 4)
  else (8, 2).

Definition px_per_byte (mode : Z) : Z := fst (mode_params mode).
Definition max_pens (mode : Z) : Z := snd (mode_params mode).

(** The guard of the drivers' inner loop:
    [if pen >= max_pens: pen = pen % max_pens]. *)
Definition wrap_pen (max_pens pen : Z) : Z :=
  if max_pens <=? pen then pen mod max_pens else pen.

(** *** Palette table (identical in the three scripts) *)

Definition rgb : Type := Z * Z * Z.
Definition rgba : Type := Z * Z * Z * Z.

(** Firmware ink -> (R%, G%, B%); the dict keeps its insertion order, which
    is the order [INK_RGB.items()] is scanned in. *)
Definition INK_RGB_PCT : list (Z * rgb) :=
  [ (0,  (0,   0,   0));   (1,  (0,   0,  50));   (2,  (0,   0, 100));
    (3,  (50,  0,   0));   (4,  (50,  0,  50));   (5,  (50,  0, 100));
    (6,  (100, 0,   0));   (7,  (100, 0,  50));   (8,  (100, 0, 100));
    (9,  (0,  50,   0));   (10, (0,  50,  50));   (11, (0,  50, 100));
    (12, (50, 50,   0));   (13, (50, 50,  50));   (14, (50, 50, 100));
    (15, (100,50,   0));   (16, (100,50,  50));   (17, (100,50, 100));
    (18, (0, 100,   0));   (19, (0, 100,  50));   (20, (0, 100, 100));
    (21, (50,100,   0));   (22, (50,100,  50));   (23, (50,100, 100));
    (24, (100,100,  0));   (25, (100,100, 50));   (26, (100,100,100)) ].

(** [round(n / d)] for [d > 0]: Python rounds halves to even.  The quotient
    is taken exactly here; [pct_to_8bit] only reaches this branch for
    percentages other than 0, 50 and 100, which the table does not have. *)
Definition py_round_div (n d : Z) : Z :=
  let q := n / d in
  let r := n mod d in
  if 2 * r <? d then q
  else if d <? 2 * r then q + 1
  else if Z.even q then q else q + 1.

Definition pct_to_8bit (p : Z) : Z :=
  if p =? 0 then 0
  else if p =? 50 then 128
  else if p =? 100 then 255
  else py_round_div (p * 255) 100.

(** [{k: tuple(pct_to_8bit(x) for x in v) for k, v in INK_RGB_PCT.items()}] *)
Definition INK_RGB : list (Z * rgb) :=
  map (fun '(k, (r, g, b)) => (k, (pct_to_8bit r, pct_to_8bit g, pct_to_8bit b)))
      INK_RGB_PCT.

(** [d.get(k)] on a dict kept as its item list. *)
Fixpoint dict_find {V} (d : list (Z * V)) (k : Z) : option V :=
  match d with
  | [] => None
  | (k', v) :: d' => if k' =? k then Some v else dict_find d' k
  end.

(** [d[k]] *)
Definition dict_item {V} (d : list (Z * V)) (k : Z) : result V :=
  match dict_find d k with
  | Some v => Ok v
  | None => Raise (KeyError k)
  end.

(** The spec's [ink_to_rgb]: the lookup [INK_RGB[ink]]. *)
Definition ink_to_rgb (ink : Z) : result rgb := dict_item INK_RGB ink.

(** *** Decode driver (the same loop in asm2png.py and asm2pngs.py) *)

(** The closure [pen_to_rgba] of both decode drivers. *)
Definition pen_to_rgba (pen_to_ink : gmap Z Z) (bg_ink : option Z) (pen : Z) : rgba :=
  let ink :=
    match pen_to_ink !! pen with
    | Some ink => ink
    | None => match bg_ink with Some bg => bg | None => pen end
    end in
  let ink := Z.max 0 (Z.min 26 ink) in
  let '(r, g, b) := default (0, 0, 0) (dict_find INK_RGB ink) in
  (r, g, b, 255).

(** [pix[x, y] = v] on the pixels kept as a list of rows. *)
Definition put_pixel (pix : list (list rgba)) (x y : nat) (v : rgba)
  : result (list (list rgba)) :=
  match pix !! y with
  | None => Raise IndexError
  | Some row =>
      if (x <? length row)%nat then Ok (<[y := <[x := v]> row]> pix)
      else Raise IndexError
  end.

(** [for pen in pens: ...], on the pair [(x, pix)]. *)
Definition decode_pen (pen_to_ink : gmap Z Z) (bg_ink : option Z) (max_pens : Z)
    (y : nat) (acc : result (nat * list (list rgba))) (pen : Z)
  : result (nat * list (list rgba)) :=
  '(x, pix) ← acc;
  let pen := wrap_pen max_pens pen in
  pix ← put_pixel pix x y (pen_to_rgba pen_to_ink bg_ink pen);
  Ok (S x, pix).

(** [for _ in range(width_bytes): ...], on the triple [(i, x, pix)]. *)
Definition decode_byte (mode : Z) (data : list Z) (pen_to_ink : gmap Z Z)
    (bg_ink : option Z) (y : nat) (acc : result (nat * nat * list (list rgba)))
    (_ : nat) : result (nat * nat * list (list rgba)) :=
  '(i, x, pix) ← acc;
  match data !! i with
  | None => Raise IndexError
  | Some d =>
      let b := d .& 0xFF in
      '(x, pix) ← fold_left (decode_pen pen_to_ink bg_ink (max_pens mode) y)
                            (decode_pens mode b) (Ok (x, pix));
      Ok (S i, x, pix)
  end.

(** [for y in range(height): x = 0; ...], on the pair [(i, pix)]. *)
Definition decode_line (mode : Z) (width_bytes : Z) (data : list Z)
    (pen_to_ink : gmap Z Z) (bg_ink : option Z)
    (acc : result (nat * list (list rgba))) (y : nat)
  : result (nat * list (list rgba)) :=
  '(i, pix) ← acc;
  '(i, _, pix) ← fold_left (decode_byte mode data pen_to_ink bg_ink y)
                           (seq 0 (Z.to_nat width_bytes)) (Ok (i, 0%nat, pix));
  Ok (i, pix).

(** [Image.new("RGBA", (w, h)).load()]: [h] rows of [w] pixels, all zero. *)
Definition new_image (w h : nat) : list (list rgba) :=
  replicate h (replicate w (0, 0, 0, 0)).

(** From [Image.new("RGBA", (width_px, height))] to the end of the pixel
    loop: the pixels handed to [img.save]. *)
Definition decode_pixels (mode : Z) (width_bytes height : Z) (data : list Z)
    (pen_to_ink : gmap Z Z) (bg_ink : option Z) : result (list (list rgba)) :=
  let width_px := width_bytes * px_per_byte mode in
  let pix := new_image (Z.to_nat width_px) (Z.to_nat height) in
  '(_, pix) ← fold_left (decode_line mode width_bytes data pen_to_ink bg_ink)
                        (seq 0 (Z.to_nat height)) (Ok (0%nat, pix));
  Ok pix.

(** A pixel buffer of [h] rows of [w] pixels. *)
Definition shaped (h w : nat) (pix : list (list rgba)) : Prop :=
  length pix = h /\ Forall (fun row => length row = w) pix.

End Cpc.
Import Cpc.

(** ** png2asm.py: image -> assembly text *)

Module Png2asm.

Record ModeSpec : Type := {
  mode : Z;
  colors : nat;
  px_per_byte : nat;
  bits_per_px : nat
}.

Definition MODE_SPECS : list (Z * ModeSpec) :=
  [ (0, Build_ModeSpec 0 16 2 4);
    (1, Build_ModeSpec 1 4 4 2);
    (2, Build_ModeSpec 2 2 8 1) ].

(** Squared distance of the loop body of [nearest_ink]. *)
Definition sqdist (c i : rgb) : Z :=
  let '(r, g, b) := c in
  let '(ir, ig, ib) := i in
  let dr := r - ir in
  let dg := g - ig in
  let db := b - ib in
  dr * dr + dg * dg + db * db.

(** One iteration of [for ink, (ir, ig, ib) in INK_RGB.items()], on the pair
    [(best, best_d)]. *)
Definition nearest_step (c : rgb) (acc : Z * Z) (item : Z * rgb) : Z * Z :=
  let '(best, best_d) := acc in
  let '(ink, i) := item in
  let d := sqdist c i in
  if d <? best_d then (ink, d) else (best, best_d).

(** The loop of [nearest_ink], from [best = 0], [best_d = 10**18]. *)
Definition nearest_scan (c : rgb) : Z * Z :=
  fold_left (nearest_step c) INK_RGB (0, 10 ^ 18).

(** [max(abs(r-ir), abs(g-ig), abs(b-ib))] *)
Definition channel_gap (c i : rgb) : Z :=
  let '(r, g, b) := c in
  let '(ir, ig, ib) := i in
  Z.max (Z.max (Z.abs (r - ir)) (Z.abs (g - ig))) (Z.abs (b - ib)).

Definition nearest_ink (c : rgb) (tol : Z) : result Z :=
  let best := fst (nearest_scan c) in
  if 0 <=? tol then
    i ← dict_item INK_RGB best;
    if tol <? channel_gap c i
    then let '(r, g, b) := c in Raise (ValueError_color r g b best)
    else Ok best
  else Ok best.

(** An RGBA image as PIL hands it over: [img.size] and the pixel access
    object [px[x, y]] of [img.load()]. *)
Record image : Type := {
  img_w : nat;
  img_h : nat;
  px : nat -> nat -> rgba
}.

(** What lines 187-198 do for one pixel.  [pr_calls] is the list of
    tolerances [nearest_ink] was called with for this pixel, in call order;
    [pr_fallback] tells whether the [except ValueError] branch ran. *)
Record pixel_result : Type := {
  pr_ink : Z;
  pr_fallback : bool;
  pr_calls : list Z
}.

Definition pixel_ink (tol : Z) (transparent_ink : option Z) (p : rgba)
  : result pixel_result :=
  let '(r, g, b, a) := p in
  if (a =? 0) && bool_decide (transparent_ink <> None) then
    Ok (Build_pixel_result (default 0 transparent_ink) false [])
  else
    match nearest_ink (r, g, b) tol with
    | Ok ink => Ok (Build_pixel_result ink false [tol])
    | Raise e =>
        if is_ValueError e then
          (* except ValueError: *)
          ink ← nearest_ink (r, g, b) (-1);
          Ok (Build_pixel_result ink true [tol; -1])
        else Raise e
    end.

(** The variables the pixel loop updates. *)
Record scan_state : Type := {
  ink_grid : list (list Z);
  used_inks : list Z;
  auto_tol_used : bool;
  warned : bool
}.

(** [register_ink] *)
Definition register_ink (used : list Z) (i : Z) : list Z :=
  if bool_decide (i ∈ used) then used else used ++ [i].

(** The body of [for x in range(w)] at row [y]. *)
Definition scan_pixel (im : image) (tol : Z) (transparent_ink : option Z)
    (y : nat) (acc : result scan_state) (x : nat) : result scan_state :=
  st ← acc;
  r ← pixel_ink tol transparent_ink (px im x y);
  Ok {| ink_grid := alter (fun row => <[x := pr_ink r]> row) y (ink_grid st);
        used_inks := register_ink (used_inks st) (pr_ink r);
        auto_tol_used := auto_tol_used st || pr_fallback r;
        warned := warned st || pr_fallback r |}.

Definition scan_row (im : image) (tol : Z) (transparent_ink : option Z)
    (acc : result scan_state) (y : nat) : result scan_state :=
  fold_left (scan_pixel im tol transparent_ink y) (seq 0 (img_w im)) acc.

(** Lines 175-201: the grid of zeros, then the two nested loops. *)
Definition scan_image (im : image) (tol : Z) (transparent_ink : option Z)
  : result scan_state :=
  fold_left (scan_row im tol transparent_ink) (seq 0 (img_h im))
    (Ok {| ink_grid := replicate (img_h im) (replicate (img_w im) 0);
           used_inks := [];
           auto_tol_used := false;
           warned := false |}).

(** Notions for the statements about the pixel loop. *)

(** The pixels in the order the loop visits them: row by row. *)
Definition scan_order (im : image) : list rgba :=
  flat_map (fun y => map (fun x => px im x y) (seq 0 (img_w im))) (seq 0 (img_h im)).

(** The pixel takes the [transparent_ink] branch, without colour matching. *)
Definition overridden (transparent_ink : option Z) (p : rgba) : bool :=
  let '(_, _, _, a) := p in
  (a =? 0) && bool_decide (transparent_ink <> None).

(** The ink a pixel resolves to. *)
Definition resolved_ink (transparent_ink : option Z) (p : rgba) : Z :=
  let '(r, g, b, _) := p in
  if overridden transparent_ink p then default 0 transparent_ink
  else fst (nearest_scan (r, g, b)).

(** The pixel is colour matched and [nearest_ink] raises for it. *)
Definition falls_back (tol : Z) (transparent_ink : option Z) (p : rgba) : bool :=
  let '(r, g, b, _) := p in
  negb (overridden transparent_ink p)
  && match nearest_ink (r, g, b) tol with
     | Raise _ => true
     | Ok _ => false
     end.

(** The number of distinct inks the pixels of an image resolve to. *)
Definition distinct_inks (transparent_ink : option Z) (im : image) : nat :=
  length (remove_dups (map (resolved_ink transparent_ink) (scan_order im))).

(** [{ink: pen for pen, ink in enumerate(used_inks)}] *)
Definition make_ink_to_pen (used : list Z) : gmap Z Z :=
  fold_left (fun m '(pen, ink) => <[ink := pen]> m) (enumerate used) ∅.

(** [ink_to_pen[ink_grid[y][x]]] *)
Definition pen_at (grid : list (list Z)) (ink_to_pen : gmap Z Z) (y x : nat)
  : result Z :=
  match grid !! y with
  | None => Raise IndexError
  | Some row =>
      match row !! x with
      | None => Raise IndexError
      | Some ink =>
          match ink_to_pen !! ink with
          | None => Raise (KeyError ink)
          | Some pen => Ok pen
          end
      end
  end.

(** [range(0, w, step)] *)
Definition range_step (w step : nat) : list nat :=
  map (fun k => (k * step)%nat) (seq 0 ((w + step - 1) / step)).

(** [[f(i) for i in l]] when [f] can raise. *)
Fixpoint mapR {A B} (f : A -> result B) (l : list A) : result (list B) :=
  match l with
  | [] => Ok []
  | a :: l' => b ← f a; bs ← mapR f l'; Ok (b :: bs)
  end.

(** One pass of [for y in range(h)] of the packing loop: the row's bytes. *)
Definition pack_row (spec : ModeSpec) (w : nat) (grid : list (list Z))
    (ink_to_pen : gmap Z Z) (y : nat) : result (list Z) :=
  let pen := pen_at grid ink_to_pen y in
  if mode spec =? 0 then
    mapR (fun x =>
            p0 ← pen x;
            p1 ← pen (x + 1)%nat;
            Ok (pack_mode0 p0 p1)) (range_step w 2)
  else if mode spec =? 1 then
    mapR (fun x =>
            p0 ← pen x;
            p1 ← pen (x + 1)%nat;
            p2 ← pen (x + 2)%nat;
            p3 ← pen (x + 3)%nat;
            Ok (pack_mode1 p0 p1 p2 p3)) (range_step w 4)
  else
    mapR (fun x =>
            ps ← mapR (fun i => pen (x + i)%nat) (seq 0 8);
            pack_mode2 ps) (range_step w 8).

(** convert_png_to_rows, on the image [to_rgba(Image.open(png_path))].
    Returns [(width_bytes, height, rows, used_inks, auto_tol_used)]. *)
Definition convert_png_to_rows (im : image) (spec : ModeSpec) (tol : Z)
    (transparent_ink : option Z)
  : result (nat * nat * list (list Z) * list Z * bool) :=
  let w := img_w im in
  let h := img_h im in
  if negb (w mod px_per_byte spec =? 0)%nat then
    Raise (ValueError_width (Z.of_nat w) (Z.of_nat (px_per_byte spec)))
  else
    let width_bytes := (w / px_per_byte spec)%nat in
    st ← scan_image im tol transparent_ink;
    if (colors spec <? length (used_inks st))%nat then
      Raise (ValueError_inks (len (used_inks st)) (Z.of_nat (colors spec)))
    else
      let ink_to_pen := make_ink_to_pen (used_inks st) in
      rows ← mapR (pack_row spec w (ink_grid st) ink_to_pen) (seq 0 h);
      Ok (width_bytes, h, rows, used_inks st, auto_tol_used st).

(** One [f.write(...)] call of [main], with the values it formats. *)
Inductive write : Type :=
| W_mode (m : Z)                 (* "; MODE m" and a blank line *)
| W_note                         (* the fallback-tolerance note *)
| W_label (l : string)           (* label.upper() *)
| W_begin                        (* ";------ BEGIN IMAGE --------" *)
| W_width (width_bytes : nat)    (* "  db width_bytes ; ancho en bytes" *)
| W_height (height : nat)        (* "  db height ; alto" *)
| W_row (row : list Z)           (* "  db b0, b1, ..." *)
| W_end                          (* ";------ END IMAGE --------" *)
| W_palette                      (* the palette comment *)
| W_ink (pen ink : Z)            (* "  ; INK pen,ink" *)
| W_blank
| W_index_header
| W_index (l rel : string).      (* "; label = rel" *)

Inductive status : Type :=
| OK
| ERROR (e : exn).

(** A row of the summary table. *)
Record summary_row : Type := {
  s_png : string;
  s_label : string;
  s_size : option (nat * nat);
  s_bytes_line : option nat;
  s_colors : option nat;
  s_fallback : option bool;
  s_status : status
}.

(** One PNG of the batch: its relative path, its label ([safe_label]) and
    its pixels. *)
Record png : Type := {
  rel : string;
  label : string;
  img : image
}.

(** What the batch loop of [main] updates: the writes made to the output
    file so far, the summary and the two counters. *)
Record batch : Type := {
  out : list write;
  summary : list summary_row;
  converted_ok : nat;
  converted_fail : nat
}.

(** The writes of the [try] block for one converted image. *)
Definition image_block (l : string) (width_bytes height : nat)
    (rows : list (list Z)) (used : list Z) (auto : bool) : list write :=
  (if auto then [W_note] else [])
  ++ [W_label l; W_begin; W_width width_bytes; W_height height]
  ++ map W_row rows
  ++ [W_end; W_palette]
  ++ map (fun '(pen, ink) => W_ink pen ink) (enumerate used)
  ++ [W_blank].

(** The row the [except] block adds to the summary. *)
Definition error_row (p : png) (e : exn) : summary_row :=
  {| s_png := rel p; s_label := label p;
     s_size := None; s_bytes_line := None;
     s_colors := None; s_fallback := None;
     s_status := ERROR e |}.

(** The body of [for path in pngs]: the [try] block, or the
    [except Exception] block when the conversion raised. *)
Definition main_step (spec : ModeSpec) (tol : Z) (transparent_ink : option Z)
    (st : batch) (p : png) : batch :=
  match convert_png_to_rows (img p) spec tol transparent_ink with
  | Ok (width_bytes, height, rows, used, auto) =>
      let width_px := (width_bytes * px_per_byte spec)%nat in
      {| out := out st ++ image_block (label p) width_bytes height rows used auto;
         summary := summary st ++
           [ {| s_png := rel p; s_label := label p;
                s_size := Some (width_px, height);
                s_bytes_line := Some width_bytes;
                s_colors := Some (length used);
                s_fallback := Some auto;
                s_status := OK |} ];
         converted_ok := S (converted_ok st);
         converted_fail := converted_fail st |}
  | Raise e =>
      {| out := out st;
         summary := summary st ++ [error_row p e];
         converted_ok := converted_ok st;
         converted_fail := S (converted_fail st) |}
  end.

(** The batch loop, from the state after the first write. *)
Definition main_loop (spec : ModeSpec) (tol : Z) (transparent_ink : option Z)
    (st : batch) (pngs : list png) : batch :=
  fold_left (main_step spec tol transparent_ink) pngs st.

(** The state of the batch loop when it starts: the first write is made. *)
Definition batch_start (spec : ModeSpec) : batch :=
  {| out := [W_mode (mode spec)]; summary := [];
     converted_ok := 0%nat; converted_fail := 0%nat |}.

(** [main] from the [with open(...)] on: header line, batch loop, label
    index.  The directory checks before it are not modelled. *)
Definition main (spec : ModeSpec) (tol : Z) (transparent_ink : option Z)
    (pngs : list png) : batch :=
  let st := main_loop spec tol transparent_ink (batch_start spec) pngs in
  {| out := out st ++ [W_index_header] ++ map (fun p => W_index (label p) (rel p)) pngs;
     summary := summary st;
     converted_ok := converted_ok st;
     converted_fail := converted_fail st |}.

(** The writes the batch loop makes for one image: its block, or nothing
    when the conversion raised. *)
Definition image_writes (spec : ModeSpec) (tol : Z) (transparent_ink : option Z)
    (p : png) : list write :=
  match convert_png_to_rows (img p) spec tol transparent_ink with
  | Ok (width_bytes, height, rows, used, auto) =>
      image_block (label p) width_bytes height rows used auto
  | Raise _ => []
  end.

(** The conversion of the image returns. *)
Definition converts (spec : ModeSpec) (tol : Z) (transparent_ink : option Z)
    (p : png) : bool :=
  match convert_png_to_rows (img p) spec tol transparent_ink with
  | Ok _ => true
  | Raise _ => false
  end.

(** Sample images. *)

(** Five pixels in a row, of the inks 0, 1, 2, 3 and 26, all opaque. *)
Definition five_inks_5x1 : image :=
  {| img_w := 5; img_h := 1;
     px := fun x _ =>
             match x with
             | 0%nat => (0, 0, 0, 255)
             | 1%nat => (0, 0, 128, 255)
             | 2%nat => (0, 0, 255, 255)
             | 3%nat => (128, 0, 0, 255)
             | _ => (255, 255, 255, 255)
             end |}.

(** The same five inks in eight pixels. *)
Definition five_inks_8x1 : image :=
  {| img_w := 8; img_h := 1; px := px five_inks_5x1 |}.

(** Two black and six white pixels. *)
Definition two_inks_8x1 : image :=
  {| img_w := 8; img_h := 1;
     px := fun x _ => if (x <? 2)%nat then (0, 0, 0, 255) else (255, 255, 255, 255) |}.

(** Two fully transparent pixels of a colour that is not on the palette. *)
Definition transparent_2x1 : image :=
  {| img_w := 2; img_h := 1; px := fun _ _ => (10, 20, 30, 0) |}.

(** Two opaque pixels of that colour. *)
Definition off_palette_2x1 : image :=
  {| img_w := 2; img_h := 1; px := fun _ _ => (10, 20, 30, 255) |}.

(** A batch of three files; the second has too many inks for mode 2. *)
Definition png_a : png := {| rel := "a.png"; label := "a"; img := two_inks_8x1 |}.
Definition png_b : png := {| rel := "b.png"; label := "b"; img := five_inks_8x1 |}.
Definition png_c : png := {| rel := "c.png"; label := "c"; img := two_inks_8x1 |}.

End Png2asm.

(** ** asm2png.py: assembly text -> one image *)

(** Text is a list of characters.  The model covers ASCII text: Python's
    [\d], [\w], [\s] and [str.strip] also accept non-ASCII digits, letters
    and blanks, which [ascii] cannot hold. *)
Definition text : Type := list ascii.

Definition code (c : ascii) : nat := nat_of_ascii c.

Definition in_range (lo hi : nat) (c : ascii) : bool :=
  ((lo <=? code c) && (code c <=? hi))%nat.

(** [\d] *)
Definition is_digit (c : ascii) : bool := in_range 48 57 c.
(** [[0-9A-Fa-f]] *)
Definition is_hex (c : ascii) : bool :=
  is_digit c || in_range 65 70 c || in_range 97 102 c.
(** [\w] *)
Definition is_word (c : ascii) : bool :=
  is_digit c || in_range 65 90 c || in_range 97 122 c || (code c =? 95)%nat.
(** the characters [str.strip()] removes *)
Definition is_space (c : ascii) : bool := in_range 9 13 c || in_range 28 32 c.
(** [c.lower()] *)
Definition lower (c : ascii) : ascii :=
  if in_range 65 90 c then ascii_of_nat (code c + 32) else c.

Fixpoint take_while {A} (p : A -> bool) (l : list A) : list A :=
  match l with
  | [] => []
  | a :: l' => if p a then a :: take_while p l' else []
  end.

Fixpoint drop_while {A} (p : A -> bool) (l : list A) : list A :=
  match l with
  | [] => []
  | a :: l' => if p a then drop_while p l' else l
  end.

(** [s.startswith(prefix)] *)
Fixpoint startswith (prefix s : text) : bool :=
  match prefix, s with
  | [], _ => true
  | _ :: _, [] => false
  | a :: p', c :: s' => Ascii.eqb c a && startswith p' s'
  end.

(** [s.strip()] *)
Definition strip (s : text) : text :=
  rev (drop_while is_space (rev (drop_while is_space s))).

(** [s.rstrip(",")] *)
Definition rstrip_commas (s : text) : text :=
  rev (drop_while (fun c => Ascii.eqb c ",") (rev s)).

(** The value of a digit of [int(s, base)]: 0-9, then a-z or A-Z from 10. *)
Definition digit_value (c : ascii) : option Z :=
  if is_digit c then Some (Z.of_nat (code c - 48))
  else if in_range 97 122 c then Some (Z.of_nat (code c - 87))
  else if in_range 65 90 c then Some (Z.of_nat (code c - 55))
  else None.

(** The digits of [int(s, base)]: at least one, single underscores allowed
    between digits only. [after_us] tells that the last character read was
    an underscore. *)
Fixpoint int_digits (base acc : Z) (ndigits : nat) (after_us : bool) (s : text)
  : option Z :=
  match s with
  | [] => if after_us || (ndigits =? 0)%nat then None else Some acc
  | c :: s' =>
      if Ascii.eqb c "_" then
        if after_us then None else int_digits base acc ndigits true s'
      else
        match digit_value c with
        | Some v =>
            if v <? base then int_digits base (acc * base + v) (S ndigits) false s'
            else None
        | None => None
        end
  end.

(** The sign of [int(s, base)]: whether it is negative, and the text after it. *)
Definition int_sign (s : text) : bool * text :=
  match s with
  | c :: t =>
      if Ascii.eqb c "+" then (false, t)
      else if Ascii.eqb c "-" then (true, t)
      else (false, s)
  | [] => (false, s)
  end.

(** The optional [0x]/[0X] of base 16 (one underscore may follow it): the
    text after it. *)
Definition int_prefix (base : Z) (s : text) : text :=
  match s with
  | z :: x :: t =>
      if (base =? 16) && Ascii.eqb z "0" && Ascii.eqb (lower x) "x"
      then match t with
           | u :: t' => if Ascii.eqb u "_" then t' else t
           | [] => t
           end
      else s
  | _ => s
  end.

(** [int(s, base)] for base 10 or 16: blanks around, a sign, the prefix of
    base 16, then the digits, which may not start with an underscore.
    CPython's limit on the length of a decimal string (more than 4300
    digits raise ValueError) is not modelled: the statements about
    arbitrary lines take lines of at most 4300 characters. *)
Definition py_int (base : Z) (s : text) : result Z :=
  let '(neg, s) := int_sign (strip s) in
  let s := int_prefix base s in
  match s with
  | [] => Raise ValueError_int
  | u :: _ =>
      if Ascii.eqb u "_" then Raise ValueError_int
      else
        match int_digits base 0 0 false s with
        | Some n => Ok (if neg then - n else n)
        | None => Raise ValueError_int
        end
  end.

(** [re.fullmatch(r"-?\d+", token)] *)
Definition fullmatch_decimal (token : text) : bool :=
  let ds :=
    match token with
    | c :: t => if Ascii.eqb c "-" then t else token
    | [] => token
    end in
  negb (bool_decide (ds = [])) && forallb is_digit ds.

Module Asm2png.

(** parse_num (the same function is in asm2pngs.py). [Ok None] is the
    [return None]; [int] can raise. *)
Definition parse_num (token : text) : result (option Z) :=
  let token := rstrip_commas (strip token) in
  if bool_decide (token = []) then Ok None
  else if startswith ["&"%char] token then
    n ← py_int 16 (drop 1 token); Ok (Some n)
  else if startswith ["0"%char; "x"%char] (map lower token) then
    n ← py_int 16 token; Ok (Some n)
  else if startswith ["$"%char] token then
    n ← py_int 16 (drop 1 token); Ok (Some n)
  else if fullmatch_decimal token then
    n ← py_int 10 token; Ok (Some n)
  else Ok None.

(** The alternatives of the token pattern
    [(&[0-9A-Fa-f]+|0x[0-9A-Fa-f]+|\$[0-9A-Fa-f]+|-?\d+)], each tried at the
    head of [s]; the result is the matched text. *)
Definition alt_prefixed (prefix : text) (s : text) : option text :=
  if startswith prefix s then
    match take_while is_hex (drop (length prefix) s) with
    | [] => None
    | h => Some (prefix ++ h)
    end
  else None.

Definition alt_decimal (s : text) : option text :=
  let digits_at (t : text) :=
    match take_while is_digit t with
    | [] => None
    | d => Some d
    end in
  match s with
  | c :: t =>
      if Ascii.eqb c "-" then
        match digits_at t with
        | Some d => Some (c :: d)
        | None => digits_at s
        end
      else digits_at s
  | [] => digits_at s
  end.

Definition match_token (s : text) : option text :=
  match alt_prefixed ["&"%char] s with
  | Some t => Some t
  | None =>
      match alt_prefixed ["0"%char; "x"%char] s with
      | Some t => Some t
      | None =>
          match alt_prefixed ["$"%char] s with
          | Some t => Some t
          | None => alt_decimal s
          end
      end
  end.

(** [re.findall(pattern, s)]: scan left to right; a match is kept and the
    scan goes on after it, otherwise it moves one character on. [skip] is
    the number of characters of the last match still to pass. *)
Fixpoint findall_from (skip : nat) (s : text) : list text :=
  match s with
  | [] => []
  | _ :: rest =>
      match skip with
      | S k => findall_from k rest
      | O =>
          match match_token s with
          | Some tok => tok :: findall_from (length tok - 1) rest
          | None => findall_from 0 rest
          end
      end
  end.

Definition findall_tokens (s : text) : list text := findall_from 0 s.

(** [line.split(";", 1)[0]] *)
Definition before_comment (line : text) : text :=
  take_while (fun c => negb (Ascii.eqb c ";")) line.

(** A keyword of [data_re] at the head of [s], any case, followed by [\b]:
    the text after it, which is group 2. *)
Definition keyword_here (kw s : text) : option text :=
  if startswith kw (map lower (take (length kw) s)) then
    match drop (length kw) s with
    | [] => Some []
    | c :: t => if is_word c then None else Some (c :: t)
    end
  else None.

(** [data_re.search(core)]: the pattern is [db] or [defb] between two [\b],
    ignoring case, then the rest of the line as group 2.  The search finds
    the leftmost keyword with a word boundary on both sides; the result is
    [m.group(2)]. [prev_word] tells whether the character before [s] is a
    word character. *)
Fixpoint data_search (prev_word : bool) (s : text) : option text :=
  match s with
  | [] => None
  | c :: t =>
      let here :=
        if prev_word then None
        else match keyword_here ["d"%char; "b"%char] s with
             | Some tail => Some tail
             | None => keyword_here ["d"%char; "e"%char; "f"%char; "b"%char] s
             end in
      match here with
      | Some tail => Some tail
      | None => data_search (is_word c) t
      end
  end.

(** Lines 95-99: [for t in tokens: n = parse_num(t); if n is not None:
    vals.append(n & 0xFF)]. *)
Definition token_vals (tokens : list text) : result (list Z) :=
  fold_left
    (fun (acc : result (list Z)) t =>
       vals ← acc;
       n ← parse_num t;
       match n with
       | Some n => Ok (vals ++ [n .& 0xFF])
       | None => Ok vals
       end)
    tokens (Ok []).

(** The body of the second [for line in lines] loop up to [vals]:
    [None] is the [continue] of a line without a data directive. *)
Definition line_vals (line : text) : result (option (list Z)) :=
  let core := before_comment line in
  match data_search false core with
  | None => Ok None
  | Some tail =>
      vals ← token_vals (findall_tokens tail);
      Ok (Some vals)
  end.

(** parse_asm_flexible on the lines read from the file: [(rows, flat)].
    The [pen_to_ink] part (the INK hints) is left out. *)
Definition parse_asm_flexible (lines : list text)
  : result (list (list Z) * list Z) :=
  fold_left
    (fun (acc : result (list (list Z) * list Z)) line =>
       '(rows, flat) ← acc;
       v ← line_vals line;
       match v with
       | Some (b :: vals) => Ok (rows ++ [b :: vals], flat ++ b :: vals)
       | _ => Ok (rows, flat)
       end)
    lines (Ok ([], [])).

(** Numeric literals in the four surface forms, for the statements about
    the token scan: a decimal with an optional minus sign, and hexadecimal
    digits after [&], [0x] or [$]. *)
Inductive literal : Type :=
| Decimal (negative : bool) (digits : text)
| AmpHex (digits : text)
| ZeroXHex (digits : text)
| DollarHex (digits : text).

(** The digits are of the right kind and there is at least one. *)
Definition literal_ok (t : literal) : bool :=
  match t with
  | Decimal _ ds => negb (bool_decide (ds = [])) && forallb is_digit ds
  | AmpHex hs | ZeroXHex hs | DollarHex hs =>
      negb (bool_decide (hs = [])) && forallb is_hex hs
  end.

(** The literal as it is written in the source text. *)
Definition spell (t : literal) : text :=
  match t with
  | Decimal true ds => "-"%char :: ds
  | Decimal false ds => ds
  | AmpHex hs => "&"%char :: hs
  | ZeroXHex hs => "0"%char :: "x"%char :: hs
  | DollarHex hs => "$"%char :: hs
  end.

(** The number a string of digits denotes in a base. *)
Definition digits_value (base : Z) (ds : text) : Z :=
  fold_left (fun acc c => acc * base + default 0 (digit_value c)) ds 0.

(** The number the literal denotes. *)
Definition literal_value (t : literal) : Z :=
  match t with
  | Decimal true ds => - digits_value 10 ds
  | Decimal false ds => digits_value 10 ds
  | AmpHex hs | ZeroXHex hs | DollarHex hs => digits_value 16 hs
  end.

(** What stands between two literals on a data line: blanks, tabs, commas. *)
Definition is_separator (c : ascii) : bool :=
  Ascii.eqb c " " || Ascii.eqb c "," || Ascii.eqb c "009".

(** The text after the directive: literals, each after a separator, then
    what is left of the line. *)
Definition spell_tail (items : list (text * literal)) (final : text) : text :=
  concat (map (fun '(sep, t) => sep ++ spell t) items) ++ final.

(** Each literal is well formed and comes after at least one separator. *)
Definition items_ok (items : list (text * literal)) : bool :=
  forallb (fun '(sep, t) =>
             negb (bool_decide (sep = [])) && forallb is_separator sep
             && literal_ok t) items.

(** Text of a string constant. *)
Definition T (s : string) : text := list_ascii_of_string s.

(** The order in which Python iterates over [set(l)].  The language leaves
    it open; all that is known is that every element of [l] comes once. *)
Class SetOrder : Type := {
  set_iter : list nat -> list nat;
  set_iter_NoDup : forall l, NoDup (set_iter l);
  set_iter_elem : forall l x, x ∈ set_iter l <-> x ∈ l
}.

(** One such order, to run the definitions on examples. *)
Definition some_set_order : SetOrder :=
  {| set_iter := remove_dups;
     set_iter_NoDup := NoDup_remove_dups;
     set_iter_elem := fun l x => elem_of_remove_dups l x |}.

(** [l.count(x)] *)
Definition count (l : list nat) (x : nat) : nat := count_occ Nat.eq_dec l x.

(** [max(xs, key=key)]: the first element whose key is the largest. *)
Definition max_by_key (key : nat -> nat) (xs : list nat) : result nat :=
  match xs with
  | [] => Raise ValueError_max_empty
  | x :: t => Ok (fold_left (fun best y => if (key best <? key y)%nat then y else best) t x)
  end.

(** [max(set(l), key=l.count)] *)
Definition most_common `{SetOrder} (l : list nat) : result nat :=
  max_by_key (count l) (set_iter l).

Inductive fmt : Type := header | lines.

(** [len(rows) >= 2 and len(rows[0]) == 2 and len(rows[1]) >= 4] *)
Definition short_first_row (rows : list (list Z)) : bool :=
  match rows with
  | r0 :: r1 :: _ => (len r0 =? 2) && (4 <=? len r1)
  | _ => false
  end.

(** Heuristic A of guess_format: [Some] is its [return]. *)
Definition guess_header (rows : list (list Z)) (flat : list Z)
  : option (fmt * Z * Z * list Z) :=
  match flat with
  | w :: h :: _ =>
      if (1 <=? w) && (w <=? 255) && (1 <=? h) && (h <=? 255) then
        let needed := w * h in
        if 2 + needed <=? len flat then
          if short_first_row rows then None
          else Some (header, w, h, take (Z.to_nat needed) (drop 2 flat))
        else None
      else None
  | _ => None
  end.

(** The rows heuristic B keeps: all of them, or all but a short first one. *)
Definition image_rows `{SetOrder} (rows : list (list Z)) : result (list (list Z)) :=
  if (3 <=? length rows)%nat then
    let lengths := map length rows in
    let from_second := drop 1 lengths in
    common_w ← most_common from_second;
    if (hd 0%nat lengths <? common_w)%nat
       && (Nat.max 2 (length from_second / 2) <=? count from_second common_w)%nat
    then Ok (drop 1 rows)
    else Ok rows
  else Ok rows.

(** Heuristic B of guess_format. *)
Definition guess_lines `{SetOrder} (rows : list (list Z))
  : result (fmt * Z * Z * list Z) :=
  if bool_decide (rows = []) then Raise ValueError_no_rows
  else
    img_rows ← image_rows rows;
    width_bytes ← most_common (map length img_rows);
    let fixed :=
      map (fun r => take width_bytes (r ++ replicate width_bytes 0))
          (filter (fun r => (0 < length r)%nat) img_rows) in
    let height := length fixed in
    Ok (lines, Z.of_nat width_bytes, Z.of_nat height, concat fixed).

(** guess_format: [(fmt, width_bytes, height, data_bytes)] *)
Definition guess_format `{SetOrder} (rows : list (list Z)) (flat : list Z)
  : result (fmt * Z * Z * list Z) :=
  match guess_header rows flat with
  | Some r => Ok r
  | None => guess_lines rows
  end.

(** [main] from the parsed lines to the pixels given to [img.save]:
    [(width_px, height, pixels)]. *)
Definition main `{SetOrder} (mode : Z) (bg_ink : option Z) (rows : list (list Z))
    (flat : list Z) (pen_to_ink : gmap Z Z)
  : result (Z * Z * list (list rgba)) :=
  '(_, width_bytes, height, data) ← guess_format rows flat;
  let width_px := width_bytes * px_per_byte mode in
  pix ← decode_pixels mode width_bytes height data pen_to_ink bg_ink;
  Ok (width_px, height, pix).

(** Sample inputs. *)

(** A two-byte row followed by three rows of four bytes. *)
Definition rows_short_first : list (list Z) :=
  [[9; 9]; [1; 2; 3; 4]; [1; 2; 3; 4]; [1; 2; 3; 4]].

(** Rows of 1, 3, 3, 4, 5 and 6 bytes; the first byte is 0, so the two
    first bytes are no header for heuristic A. *)
Definition rows_two_of_five : list (list Z) :=
  [[0]; [1; 2; 3]; [1; 2; 3]; [1; 2; 3; 4]; [1; 2; 3; 4; 5]; [1; 2; 3; 4; 5; 6]].

(** The bytes [2, 3, 1, 2, 3, 4, 5, 6] as [db] lines of one value, one
    value and three times two values, and as lines of two and six values. *)
Definition rows_header_style : list (list Z) := [[2]; [3]; [1; 2]; [3; 4]; [5; 6]].
Definition rows_two_then_six : list (list Z) := [[2; 3]; [1; 2; 3; 4; 5; 6]].

End Asm2png.

(** ** asm2pngs.py: assembly text -> one image per labelled block *)

Module Asm2pngs.

(** A block as parse_blocks_from_asm builds it. *)
Record block : Type := {
  label : string;
  db_bytes : list Z;
  pen_to_ink : gmap Z Z
}.

(** decode_block_to_png up to [img.save]: [(width_px, height)], which it
    returns, and the pixels it saves.  [img.save] itself, which refuses an
    image of width or height 0, is not part of it. *)
Definition decode_block_to_png (b : block) (mode : Z) (bg_ink : option Z)
  : result (Z * Z * list (list rgba)) :=
  if len (db_bytes b) <? 2 then Raise ValueError_no_header
  else
    match db_bytes b with
    | width_bytes :: height :: data =>
        let needed := width_bytes * height in
        if len data <? needed then Raise (ValueError_short needed (len data))
        else
          let data := take (Z.to_nat needed) data in
          let width_px := width_bytes * px_per_byte mode in
          pix ← decode_pixels mode width_bytes height data (pen_to_ink b) bg_ink;
          Ok (width_px, height, pix)
    | _ => Raise IndexError
    end.

(** Sample blocks: a 1 by 2 block with one byte too many, one with a byte
    missing, and one without any byte. *)
Definition block_excess : block :=
  {| label := "S"; db_bytes := [1; 2; 0xC3; 0x3C; 99]; pen_to_ink := ∅ |}.
Definition block_short : block :=
  {| label := "S"; db_bytes := [1; 2; 0xC3]; pen_to_ink := ∅ |}.
Definition block_empty : block :=
  {| label := "S"; db_bytes := []; pen_to_ink := ∅ |}.

End Asm2pngs.

(** ** Notions for the statements about whole images *)

Module Pixels.
Import Png2asm.

(** What is asked of the byte written for the pixels [x .. x + n - 1] of
    row [y]: it is a byte, and the pen its decoder gives at each position
    is the position, in [used], of the ink of the pixel there. *)
Definition packs (im : image) (transparent_ink : option Z) (used : list Z)
    (m : Z) (n y x : nat) (byte : Z) : Prop :=
  0 <= byte <= 255
  /\ forall i, (i < n)%nat ->
       exists pen : nat,
         decode_pens m byte !! i = Some (Z.of_nat pen)
         /\ used !! pen = Some (resolved_ink transparent_ink (px im (x + i) y)).

(** [pix[x, y]] read from the pixels kept as a list of rows. *)
Definition pixel_at (pix : list (list rgba)) (x y : nat) : option rgba :=
  row ← pix !! y; row !! x.

End Pixels.
Export Pixels.

(** ** png2asm.py: labels and the text of the file *)

Module Png2asmText.
Import Asm2png Png2asm.

(** [c.upper()] *)
Definition upper (c : ascii) : ascii :=
  if in_range 97 122 c then ascii_of_nat (code c - 32) else c.

(** safe_label, from [rel_no_ext] on: the two [os.path] calls before it
    belong to the file system.  [os.sep] is ["/"].  The class
    [[^A-Za-z0-9_]] is the complement of [is_word] on ASCII. *)
Definition safe_label (rel_no_ext : text) : text :=
  let s := map (fun c => if Ascii.eqb c "/" then "_"%char else c) rel_no_ext in
  let s := map (fun c => if is_word c then c else "_"%char) s in
  match s with
  | c :: _ => if is_digit c then T "img_" ++ s else s
  | [] => s
  end.

(** The decimal digit of a number below ten. *)
Definition digit_char (k : nat) : ascii := ascii_of_nat (48 + k).

(** The decimal digits of [n], put before [acc]; [fuel] bounds the number
    of digits. *)
Fixpoint str_nat_aux (fuel n : nat) (acc : text) : text :=
  match fuel with
  | O => acc
  | S fuel' =>
      let acc' := digit_char (n mod 10) :: acc in
      if (n <? 10)%nat then acc' else str_nat_aux fuel' (n / 10) acc'
  end.

Definition str_nat (n : nat) : text := str_nat_aux (S n) n [].

(** [str(n)] for an integer. *)
Definition str_int (n : Z) : text :=
  if n <? 0 then "-"%char :: str_nat (Z.to_nat (- n)) else str_nat (Z.to_nat n).

(** The literal that [str(n)] spells. *)
Definition decimal_of (n : Z) : literal :=
  if n <? 0 then Decimal true (str_nat (Z.to_nat (- n)))
  else Decimal false (str_nat (Z.to_nat n)).

(** [sep.join(l)] *)
Fixpoint join (sep : text) (l : list text) : text :=
  match l with
  | [] => []
  | [a] => a
  | a :: l' => a ++ sep ++ join sep l'
  end.

(** The lines one [f.write] of [main] adds to the file, without their
    ends of line.  [None] stands for the two writes whose text is not
    ASCII (the note on the fallback and the header of the index), which
    [text] cannot hold. *)
Definition render_lines (w : write) : option (list text) :=
  match w with
  | W_mode m => Some [T "; MODE " ++ str_int m; []]
  | W_note => None
  | W_label l => Some [map upper (T l)]
  | W_begin => Some [T ";------ BEGIN IMAGE --------"]
  | W_width width_bytes =>
      Some [T "  db " ++ str_int (Z.of_nat width_bytes) ++ T " ; ancho en bytes"]
  | W_height height =>
      Some [T "  db " ++ str_int (Z.of_nat height) ++ T " ; alto"]
  | W_row row => Some [T "  db " ++ join (T ", ") (map str_int row)]
  | W_end => Some [T ";------ END IMAGE --------"]
  | W_palette => Some [T "  ; Paleta (PEN -> INK) detectada en el PNG"]
  | W_ink pen ink => Some [T "  ; INK " ++ str_int pen ++ T "," ++ str_int ink]
  | W_blank => Some [[]]
  | W_index_header => None
  | W_index l rel => Some [T "; " ++ T l ++ T " = " ++ T rel]
  end.

(** The lines of a list of writes, when all of them are ASCII. *)
Fixpoint render_all (ws : list write) : option (list text) :=
  match ws with
  | [] => Some []
  | w :: ws' =>
      match render_lines w, render_all ws' with
      | Some l, Some ls => Some (l ++ ls)
      | _, _ => None
      end
  end.

(** What [main] has in hand for an image that converted without the
    fallback: its label and what convert_png_to_rows returned. *)
Record converted : Type := {
  c_label : string;
  c_width_bytes : nat;
  c_height : nat;
  c_rows : list (list Z);
  c_used : list Z
}.

(** The writes of [main] for it. *)
Definition converted_writes (c : converted) : list write :=
  image_block (c_label c) (c_width_bytes c) (c_height c) (c_rows c) (c_used c) false.

End Png2asmText.

(** ** asm2pngs.py: names, INK hints and blocks *)

Module Asm2pngsBlocks.
Import Asm2png Asm2pngs Png2asmText.

(** [re.sub(r"_+", "_", s)] *)
Fixpoint collapse_underscores (s : text) : text :=
  match s with
  | a :: t =>
      match t with
      | b :: _ =>
          if Ascii.eqb a "_" && Ascii.eqb b "_" then collapse_underscores t
          else a :: collapse_underscores t
      | [] => [a]
      end
  | [] => []
  end.

(** [s.strip("_")] *)
Definition strip_underscores (s : text) : text :=
  rev (drop_while (fun c => Ascii.eqb c "_")
         (rev (drop_while (fun c => Ascii.eqb c "_") s))).

(** sanitize_name *)
Definition sanitize_name (s : text) : text :=
  let s := strip s in
  let s := map (fun c => if is_word c then c else "_"%char) s in
  let s := strip_underscores (collapse_underscores s) in
  let s := if bool_decide (s = []) then T "IMG" else s in
  match s with
  | c :: _ => if is_digit c then T "IMG_" ++ s else s
  | [] => s
  end.

(** An identifier [[A-Za-z_][A-Za-z0-9_]*] at the head of [s], as long as
    it goes: the identifier and what follows it. *)
Definition ident_at (s : text) : option (text * text) :=
  match s with
  | c :: _ =>
      if is_word c && negb (is_digit c)
      then Some (take_while is_word s, drop_while is_word s)
      else None
  | [] => None
  end.

(** [label_colon_re.match(line)]: blanks, an identifier, blanks, a colon,
    blanks, the end; the result is group 1. *)
Definition label_colon_match (line : text) : option text :=
  match ident_at (drop_while is_space line) with
  | Some (name, rest) =>
      match drop_while is_space rest with
      | c :: rest' =>
          if Ascii.eqb c ":" && bool_decide (drop_while is_space rest' = [])
          then Some name else None
      | [] => None
      end
  | None => None
  end.

(** [label_solo_re.match(line)]: blanks, an identifier, blanks, the end. *)
Definition label_solo_match (line : text) : option text :=
  match ident_at (drop_while is_space line) with
  | Some (name, rest) =>
      if bool_decide (drop_while is_space rest = []) then Some name else None
  | None => None
  end.

(** The pattern of [ink_re] after its first [\b], tried at the head of
    [s]: [INK] in any case, blanks, digits, blanks, a comma, blanks, digits
    and a word boundary.  The result is groups 1 and 2. *)
Definition ink_here (s : text) : option (text * text) :=
  if startswith (T "ink") (map lower (take 3 s)) then
    let s1 := drop 3 s in
    if bool_decide (take_while is_space s1 = []) then None
    else
      let s2 := drop_while is_space s1 in
      let d1 := take_while is_digit s2 in
      if bool_decide (d1 = []) then None
      else
        match drop_while is_space (drop_while is_digit s2) with
        | c :: s4 =>
            if Ascii.eqb c "," then
              let s5 := drop_while is_space s4 in
              let d2 := take_while is_digit s5 in
              if bool_decide (d2 = []) then None
              else
                match drop_while is_digit s5 with
                | [] => Some (d1, d2)
                | c' :: _ => if is_word c' then None else Some (d1, d2)
                end
            else None
        | [] => None
        end
  else None.

(** [ink_re.search(line)]: the leftmost place where the pattern matches.
    [prev_word] tells whether the character before [s] is a word
    character. *)
Fixpoint ink_search (prev_word : bool) (s : text) : option (text * text) :=
  match s with
  | [] => None
  | c :: t =>
      match (if prev_word then None else ink_here s) with
      | Some m => Some m
      | None => ink_search (is_word c) t
      end
  end.

(** [if m_ink: pen_to_ink[int(m.group(1))] = int(m.group(2))] *)
Definition ink_hint (line : text) (pen_to_ink : gmap Z Z) : result (gmap Z Z) :=
  match ink_search false line with
  | Some (d1, d2) =>
      pen ← py_int 10 d1;
      ink ← py_int 10 d2;
      Ok (<[pen := ink]> pen_to_ink)
  | None => Ok pen_to_ink
  end.

(** asm2png.py, lines 76-81: the first loop of parse_asm_flexible, which
    collects the INK hints of all the lines. *)
Definition parse_ink_hints (lines : list text) : result (gmap Z Z) :=
  fold_left (fun (acc : result (gmap Z Z)) line => pti ← acc; ink_hint line pti)
            lines (Ok ∅).

(** The bytes a line adds to a block: those of its data directive, if it
    has one. *)
Definition line_bytes (line : text) : result (list Z) :=
  v ← line_vals line;
  Ok (default [] v).

(** [needle in hay] *)
Fixpoint contains (needle hay : text) : bool :=
  startswith needle hay
  || match hay with
     | [] => false
     | _ :: hay' => contains needle hay'
     end.

(** [next_relevant_line(idx)], on the lines after [idx]. *)
Fixpoint next_relevant_line (rest : list text) : text :=
  match rest with
  | [] => []
  | l :: rest' =>
      let s := strip l in
      if bool_decide (s = []) then next_relevant_line rest' else s
  end.

(** The words a label may not be. *)
Definition directives : list text :=
  [T "db"; T "defb"; T "dw"; T "defw"; T "equ"; T "org"; T "include";
   T "section"; T "macro"; T "endm"].

(** The test of the lookahead: the next line opens an image. *)
Definition opens_block (nxt : text) : bool :=
  (startswith (T ";------") nxt && contains (T "BEGIN") (map upper nxt))
  || bool_decide (data_search false nxt <> None).

(** What the main loop updates: the blocks closed so far, the block being
    filled and [saw_any_label]. *)
Record parse_state : Type := {
  blocks : list block;
  current : option block;
  saw_any_label : bool
}.

(** The states the loop can be in: bytes everywhere, and a block being
    filled as soon as a label was seen. *)
Definition parse_state_ok (st : parse_state) : Prop :=
  Forall (fun b => Forall (fun v => 0 <= v <= 255) (db_bytes b)) (blocks st)
  /\ match current st with
     | Some b => Forall (fun v => 0 <= v <= 255) (db_bytes b)
     | None => saw_any_label st = false /\ blocks st = []
     end.

(** start_block *)
Definition start_block (lbl : text) (st : parse_state) : parse_state :=
  {| blocks := blocks st ++ match current st with Some b => [b] | None => [] end;
     current := Some {| label := string_of_list_ascii lbl;
                        db_bytes := [];
                        pen_to_ink := ∅ |};
     saw_any_label := true |}.

(** The end of the loop body: the line goes to the block being filled. *)
Definition fill_block (line : text) (st : parse_state) : result parse_state :=
  match current st with
  | None => Ok st
  | Some b =>
      pti ← ink_hint line (pen_to_ink b);
      bytes ← line_bytes line;
      Ok {| blocks := blocks st;
            current := Some {| label := label b;
                               db_bytes := db_bytes b ++ bytes;
                               pen_to_ink := pti |};
            saw_any_label := saw_any_label st |}
  end.

(** One pass of the [while] loop, on the line at [i] and the lines after it. *)
Definition parse_step (line : text) (rest : list text) (st : parse_state)
  : result parse_state :=
  match label_colon_match line with
  | Some name => Ok (start_block name st)
  | None =>
      match label_solo_match line with
      | Some candidate =>
          if negb (bool_decide (map lower candidate ∈ directives))
             && opens_block (next_relevant_line rest)
          then Ok (start_block candidate st)
          else fill_block line st
      | None => fill_block line st
      end
  end.

Fixpoint parse_loop (lines : list text) (st : parse_state) : result parse_state :=
  match lines with
  | [] => Ok st
  | line :: rest =>
      st' ← parse_step line rest st;
      parse_loop rest st'
  end.

(** The block made of the whole file, when no label was seen. *)
Definition whole_file_block (lines : list text) : result block :=
  fold_left
    (fun (acc : result block) line =>
       b ← acc;
       pti ← ink_hint line (pen_to_ink b);
       bytes ← line_bytes line;
       Ok {| label := label b; db_bytes := db_bytes b ++ bytes; pen_to_ink := pti |})
    lines (Ok {| label := "IMG"; db_bytes := []; pen_to_ink := ∅ |}).

(** parse_blocks_from_asm, on [text.splitlines()]. *)
Definition parse_blocks_from_asm (lines : list text) : result (list block) :=
  st ← parse_loop lines {| blocks := []; current := None; saw_any_label := false |};
  let blocks := blocks st ++ match current st with Some b => [b] | None => [] end in
  if negb (saw_any_label st) then
    b ← whole_file_block lines;
    Ok [b]
  else Ok blocks.

(** The block asm2pngs.py is to find for a converted image: the label in
    upper case, the header and the rows as bytes, a hint for each pen. *)
Definition read_back (c : converted) : block :=
  {| label := string_of_list_ascii (map upper (T (c_label c)));
     db_bytes := map (fun v => v mod 256)
                     (Z.of_nat (c_width_bytes c) :: Z.of_nat (c_height c)
                      :: concat (c_rows c));
     pen_to_ink := fold_left (fun (m : gmap Z Z) '(pen, ink) => <[pen := ink]> m)
                             (enumerate (c_used c)) ∅ |}.

End Asm2pngsBlocks.

(** ** asm2pngs.py: the batch *)

Module Asm2pngsMain.
Import Asm2png Asm2pngs Png2asmText Asm2pngsBlocks.

(** One [.asm] file of the batch: its path relative to the folder, its
    name without extension and its lines. *)
Record asm : Type := {
  a_rel : string;
  a_name : text;
  a_lines : list text
}.

(** How a block ends in [main]: with its PNG, with an error of the
    decoding, or with the error of [img.save], the last line of
    decode_block_to_png, on an image without pixels. *)
Inductive block_status : Type :=
| B_OK
| B_ERROR (e : exn)
| B_SAVE_ERROR.

(** A row of the summary table. *)
Record png_row : Type := {
  r_asm : string;
  r_label : text;
  r_png : text;
  r_size : option (Z * Z);
  r_status : block_status
}.

(** What the loops of [main] update: the PNGs saved so far (name and
    pixels), the summary and the three counters. *)
Record run : Type := {
  saved : list (text * list (list rgba));
  summary : list png_row;
  ok : nat;
  fail : nat;
  total_blocks : nat
}.

(** The name of the PNG of a block, in the output folder. *)
Definition png_name (prefix_file : bool) (asm_name lbl : text) : text :=
  if prefix_file
  then map upper (sanitize_name asm_name) ++ T "__" ++ lbl ++ T ".png"
  else lbl ++ T ".png".

(** [img.save(out_path)] writes the image if it has a pixel; Pillow
    refuses an image of width or height 0. *)
Definition saves (width_px height : Z) : bool := (0 <? width_px) && (0 <? height).


(** The body of [for b in blocks]: the [try] block, or the
    [except Exception] block when the decoding or the saving raised. *)
Definition block_step (mode : Z) (bg_ink : option Z) (prefix_file : bool)
    (a : asm) (st : run) (b : block) : run :=
  let lbl := map upper (sanitize_name (T (label b))) in
  let name := png_name prefix_file (a_name a) lbl in
  let failed (e : block_status) :=
    {| saved := saved st;
       summary := summary st ++
         [ {| r_asm := a_rel a; r_label := lbl; r_png := name;
              r_size := None; r_status := e |} ];
       ok := ok st;
       fail := S (fail st);
       total_blocks := total_blocks st |} in
  match decode_block_to_png b mode bg_ink with
  | Ok (wpx, hpx, pix) =>
      if saves wpx hpx then
        {| saved := saved st ++ [(name, pix)];
           summary := summary st ++
             [ {| r_asm := a_rel a; r_label := lbl; r_png := name;
                  r_size := Some (wpx, hpx); r_status := B_OK |} ];
           ok := S (ok st);
           fail := fail st;
           total_blocks := total_blocks st |}
      else failed B_SAVE_ERROR
  | Raise e => failed (B_ERROR e)
  end.

(** The body of [for asm_path in asms]; the parsing is outside the [try]. *)
Definition asm_step (mode : Z) (bg_ink : option Z) (prefix_file : bool)
    (st : run) (a : asm) : result run :=
  bs ← parse_blocks_from_asm (a_lines a);
  Ok (fold_left (block_step mode bg_ink prefix_file a) bs
        {| saved := saved st; summary := summary st; ok := ok st; fail := fail st;
           total_blocks := (total_blocks st + length bs)%nat |}).

(** [main] from the loop over the files on. *)
Definition main (mode : Z) (bg_ink : option Z) (prefix_file : bool)
    (asms : list asm) : result run :=
  fold_left (fun (acc : result run) a =>
               st ← acc; asm_step mode bg_ink prefix_file st a)
            asms
            (Ok {| saved := []; summary := []; ok := 0%nat; fail := 0%nat;
                   total_blocks := 0%nat |}).

End Asm2pngsMain.

(** * Properties *)

(** ** Bit codec *)

Example decode_mode0_ex : decode_mode0 0xC3 = (9, 9).
Proof. reflexivity. Qed.

Example pack_mode2_ex : pack_mode2 [1; 0; 1; 0; 0; 0; 0; 1] = Ok 0xA1.
Proof. reflexivity. Qed.

Example pack_mode2_nine : pack_mode2 [0; 0; 0; 0; 0; 0; 0; 0; 0] = Raise ValueError_shift.
Proof. reflexivity. Qed.

(** A check that holds on [0 .. n-1] holds on every integer of that range. *)
Lemma below_cases (P : Z -> bool) (n : nat) :
  forallb P (map Z.of_nat (seq 0 n)) = true ->
  forall z, 0 <= z < Z.of_nat n -> P z = true.
Proof.
  intros Hall z Hz.
  rewrite forallb_forall in Hall. apply Hall.
  apply in_map_iff. exists (Z.to_nat z). split; [lia |].
  apply in_seq. lia.
Qed.

(** The bit [k] of an integer, as the codec reads it, is 0 or 1. *)
Lemma bit_cases (b k : Z) : (b .>> k) .& 1 = 0 \/ (b .>> k) .& 1 = 1.
Proof.
  assert (Hland : forall x, x .& 1 = x mod 2).
  { intros x. apply (Z.land_ones x 1). lia. }
  rewrite Hland.
  pose proof (Z.mod_pos_bound (b .>> k) 2). lia.
Qed.

Lemma pack_decode_mode0 (b : Z) :
  0 <= b <= 255 -> (let '(p0, p1) := decode_mode0 b in pack_mode0 p0 p1) = b.
Proof.
  intros Hb.
  apply Z.eqb_eq.
  apply (below_cases
           (fun b => (let '(p0, p1) := decode_mode0 b in pack_mode0 p0 p1) =? b) 256);
    [vm_compute; reflexivity | lia].
Qed.

Lemma pack_decode_mode1 (b : Z) :
  0 <= b <= 255 ->
  (let '(p0, p1, p2, p3) := decode_mode1 b in pack_mode1 p0 p1 p2 p3) = b.
Proof.
  intros Hb.
  apply Z.eqb_eq.
  apply (below_cases
           (fun b => (let '(p0, p1, p2, p3) := decode_mode1 b in
                      pack_mode1 p0 p1 p2 p3) =? b) 256);
    [vm_compute; reflexivity | lia].
Qed.

Lemma pack_decode_mode2 (b : Z) :
  0 <= b <= 255 -> pack_mode2 (decode_mode2 b) = Ok b.
Proof.
  intros Hb.
  pose (P := fun b => match pack_mode2 (decode_mode2 b) with
                      | Ok b' => b' =? b
                      | Raise _ => false
                      end).
  assert (HP : P b = true).
  { apply (below_cases P 256); [vm_compute; reflexivity | lia]. }
  unfold P in HP. destruct (pack_mode2 (decode_mode2 b)); [| discriminate].
  apply Z.eqb_eq in HP. congruence.
Qed.

Lemma decode_pack_mode0 (p0 p1 : Z) :
  0 <= p0 < 16 -> 0 <= p1 < 16 -> decode_mode0 (pack_mode0 p0 p1) = (p0, p1).
Proof.
  intros H0 H1.
  pose (P := fun p0 => forallb (fun p1 =>
                let '(q0, q1) := decode_mode0 (pack_mode0 p0 p1) in
                (q0 =? p0) && (q1 =? p1)) (map Z.of_nat (seq 0 16))).
  assert (HP : P p0 = true).
  { apply (below_cases P 16); [vm_compute; reflexivity | lia]. }
  unfold P in HP.
  assert (Hq := below_cases _ 16 HP p1). cbv beta in Hq.
  specialize (Hq ltac:(lia)).
  destruct (decode_mode0 (pack_mode0 p0 p1)) as [q0 q1].
  apply andb_true_iff in Hq as [Ha Hb].
  apply Z.eqb_eq in Ha, Hb. congruence.
Qed.

(** Splitting a pen of mode 1 into its four possible values. *)
Lemma pen2_cases (p : Z) : 0 <= p < 4 -> p = 0 \/ p = 1 \/ p = 2 \/ p = 3.
Proof. lia. Qed.

Lemma decode_pack_mode1 (p0 p1 p2 p3 : Z) :
  0 <= p0 < 4 -> 0 <= p1 < 4 -> 0 <= p2 < 4 -> 0 <= p3 < 4 ->
  decode_mode1 (pack_mode1 p0 p1 p2 p3) = (p0, p1, p2, p3).
Proof.
  intros H0 H1 H2 H3.
  destruct (pen2_cases p0 H0) as [-> | [-> | [-> | ->]]];
  destruct (pen2_cases p1 H1) as [-> | [-> | [-> | ->]]];
  destruct (pen2_cases p2 H2) as [-> | [-> | [-> | ->]]];
  destruct (pen2_cases p3 H3) as [-> | [-> | [-> | ->]]];
  reflexivity.
Qed.

Lemma decode_pack_mode2 (t : list Z) :
  length t = 8%nat -> Forall (fun p => 0 <= p < 2) t ->
  exists b, pack_mode2 t = Ok b /\ decode_mode2 b = t.
Proof.
  intros Hlen Hall.
  do 8 (destruct t as [| ? t]; [discriminate |]).
  destruct t; [| discriminate].
  repeat match goal with
         | H : Forall _ (_ :: _) |- _ => apply Forall_cons_1 in H as [? H]
         end.
  repeat match goal with
         | H : 0 <= ?p < 2 |- _ =>
             assert (p = 0 \/ p = 1) as [-> | ->] by lia; clear H
         end;
  eexists; split; reflexivity.
Qed.

(** C1. Bit codec round trip: for every byte [b], packing the pens that
    each mode's decoder unpacks from [b] gives [b] back; and for pens in
    range ([0 .. max_pens-1]: two for mode 0, four for mode 1, a list of
    eight for mode 2), unpacking the packed byte gives the pens back. *)
Theorem codec_roundtrip (b p0 p1 q0 q1 q2 q3 : Z) (t : list Z) :
  0 <= b <= 255 ->
  0 <= p0 < max_pens 0 -> 0 <= p1 < max_pens 0 ->
  0 <= q0 < max_pens 1 -> 0 <= q1 < max_pens 1 ->
  0 <= q2 < max_pens 1 -> 0 <= q3 < max_pens 1 ->
  length t = 8%nat -> Forall (fun p => 0 <= p < max_pens 2) t ->
  ((let '(a0, a1) := decode_mode0 b in pack_mode0 a0 a1) = b
   /\ (let '(a0, a1, a2, a3) := decode_mode1 b in pack_mode1 a0 a1 a2 a3) = b
   /\ pack_mode2 (decode_mode2 b) = Ok b)
  /\ decode_mode0 (pack_mode0 p0 p1) = (p0, p1)
  /\ decode_mode1 (pack_mode1 q0 q1 q2 q3) = (q0, q1, q2, q3)
  /\ (exists b', pack_mode2 t = Ok b' /\ decode_mode2 b' = t).
Proof.
  change (max_pens 0) with 16. change (max_pens 1) with 4.
  change (max_pens 2) with 2.
  intros Hb Hp0 Hp1 Hq0 Hq1 Hq2 Hq3 Hlen Ht.
  repeat split.
  - by apply pack_decode_mode0.
  - by apply pack_decode_mode1.
  - by apply pack_decode_mode2.
  - by apply decode_pack_mode0.
  - by apply decode_pack_mode1.
  - by apply decode_pack_mode2.
Qed.

Lemma codec_roundtrip_witness :
  ((let '(a0, a1) := decode_mode0 0xC3 in pack_mode0 a0 a1) = 0xC3
   /\ (let '(a0, a1, a2, a3) := decode_mode1 0xC3 in pack_mode1 a0 a1 a2 a3) = 0xC3
   /\ pack_mode2 (decode_mode2 0xC3) = Ok 0xC3)
  /\ decode_mode0 (pack_mode0 9 14) = (9, 14)
  /\ decode_mode1 (pack_mode1 0 3 2 1) = (0, 3, 2, 1)
  /\ (exists b', pack_mode2 [1; 0; 1; 0; 0; 0; 0; 1] = Ok b'
                 /\ decode_mode2 b' = [1; 0; 1; 0; 0; 0; 0; 1]).
Proof.
  apply (codec_roundtrip 0xC3 9 14 0 3 2 1 [1; 0; 1; 0; 0; 0; 0; 1]);
    try (vm_compute; split; congruence); try reflexivity.
  repeat constructor; vm_compute; congruence.
Defined.

(** A bounded pen passes the drivers' guard unchanged. *)
Lemma wrap_pen_id (m pen : Z) :
  0 <= pen < m -> (m <=? pen) = false /\ wrap_pen m pen = pen.
Proof.
  intros H. unfold wrap_pen.
  destruct (m <=? pen) eqn:E; [apply Z.leb_le in E; lia | done].
Qed.

Ltac split_bits b :=
  destruct (bit_cases b 7) as [-> | ->]; destruct (bit_cases b 6) as [-> | ->];
  destruct (bit_cases b 5) as [-> | ->]; destruct (bit_cases b 4) as [-> | ->];
  destruct (bit_cases b 3) as [-> | ->]; destruct (bit_cases b 2) as [-> | ->];
  destruct (bit_cases b 1) as [-> | ->]; destruct (bit_cases b 0) as [-> | ->].

Lemma decode_mode2_bits (b : Z) :
  decode_mode2 b =
  [ (b .>> 7) .& 1; (b .>> 6) .& 1; (b .>> 5) .& 1; (b .>> 4) .& 1;
    (b .>> 3) .& 1; (b .>> 2) .& 1; (b .>> 1) .& 1; (b .>> 0) .& 1 ].
Proof. reflexivity. Qed.

Lemma decode_pens_bound (mode b : Z) :
  Forall (fun pen => 0 <= pen < max_pens mode) (decode_pens mode b).
Proof.
  unfold decode_pens, max_pens, mode_params.
  destruct (mode =? 0); [| destruct (mode =? 1)]; cbn [snd].
  - unfold decode_mode0. split_bits b; repeat constructor; vm_compute; congruence.
  - unfold decode_mode1. split_bits b; repeat constructor; vm_compute; congruence.
  - rewrite decode_mode2_bits.
    split_bits b; repeat constructor; vm_compute; congruence.
Qed.

(** The number of pens a decoded byte yields is the mode's pixels per byte. *)
Lemma decode_pens_length (mode b : Z) :
  Z.of_nat (length (decode_pens mode b)) = px_per_byte mode.
Proof.
  unfold decode_pens, px_per_byte, mode_params.
  destruct (mode =? 0); [| destruct (mode =? 1)]; cbn [fst].
  - unfold decode_mode0. reflexivity.
  - unfold decode_mode1. reflexivity.
  - reflexivity.
Qed.

(** C10. Every pen a mode's decoder unpacks from a byte lies in
    [0 .. max_pens-1], so the drivers' test [pen >= max_pens] is false for
    it and the pen is used as it is.  It holds for any integer [b] and for
    the fall-through of the mode test, hence for modes 0, 1, 2 and bytes
    0..255. *)
Theorem unpacked_pens_never_wrap (mode b : Z) :
  Forall (fun pen => 0 <= pen <= max_pens mode - 1
                     /\ (max_pens mode <=? pen) = false
                     /\ wrap_pen (max_pens mode) pen = pen)
         (decode_pens mode b).
Proof.
  eapply Forall_impl; [apply decode_pens_bound |].
  intros pen Hpen. cbv beta in *.
  destruct (wrap_pen_id (max_pens mode) pen Hpen). split; [lia | done].
Qed.

(** ** Palette and nearest ink *)

Import Png2asm.

Example pct_to_8bit_table :
  pct_to_8bit 0 = 0 /\ pct_to_8bit 50 = 128 /\ pct_to_8bit 100 = 255.
Proof. done. Qed.

Example nearest_ink_tie : nearest_ink (64, 64, 64) (-1) = Ok 0.
Proof. reflexivity. Qed.

Lemma dict_find_In {V} (d : list (Z * V)) (k : Z) (v : V) :
  dict_find d k = Some v -> In (k, v) d.
Proof.
  induction d as [| [k' v'] d IH]; cbn; [done |].
  destruct (k' =? k) eqn:E.
  - apply Z.eqb_eq in E. intros [= ->]. left. congruence.
  - auto.
Qed.

(** Every item of the palette is what a lookup of its key finds. *)
Lemma INK_RGB_find (k : Z) (c : rgb) :
  In (k, c) INK_RGB -> dict_find INK_RGB k = Some c.
Proof.
  intros Hin.
  assert (Hall : forallb (fun '(k, c) =>
             bool_decide (dict_find INK_RGB k = Some c)) INK_RGB = true)
    by (vm_compute; reflexivity).
  rewrite forallb_forall in Hall. specialize (Hall _ Hin).
  cbv beta iota in Hall. by apply bool_decide_eq_true in Hall.
Qed.

(** The palette is listed by increasing ink. *)
Lemma INK_RGB_sorted : StronglySorted Z.lt (map fst INK_RGB).
Proof. repeat constructor. Qed.

Lemma sorted_after (l1 l2 : list (Z * rgb)) (k j : Z) (c cj : rgb) :
  StronglySorted Z.lt (map fst (l1 ++ (k, c) :: l2)) ->
  In (j, cj) l2 -> k < j.
Proof.
  rewrite map_app. cbn [map fst]. intros Hs Hin.
  induction l1 as [| a l1 IH]; cbn in Hs.
  - apply StronglySorted_inv in Hs as [_ Hall].
    rewrite List.Forall_forall in Hall. apply Hall.
    apply in_map_iff. by exists (j, cj).
  - apply StronglySorted_inv in Hs as [Hs _]. auto.
Qed.

(** The channels of the palette are 8-bit values. *)
Lemma INK_RGB_channels (k : Z) (c : rgb) :
  In (k, c) INK_RGB ->
  let '(r, g, b) := c in 0 <= r <= 255 /\ 0 <= g <= 255 /\ 0 <= b <= 255.
Proof.
  intros Hin.
  assert (Hall : forallb (fun '(_, (r, g, b)) =>
             bool_decide (0 <= r <= 255 /\ 0 <= g <= 255 /\ 0 <= b <= 255))
             INK_RGB = true) by (vm_compute; reflexivity).
  rewrite forallb_forall in Hall. specialize (Hall _ Hin).
  destruct c as [[r g] b]. cbv beta iota in Hall.
  by apply bool_decide_eq_true in Hall.
Qed.

(** What the scan loop computes from any starting pair: a bound below every
    distance seen, and either the starting pair untouched or the first item
    that reaches the least distance. *)
Lemma nearest_fold_spec (c : rgb) (l : list (Z * rgb)) (best bd k kd : Z) :
  fold_left (nearest_step c) l (best, bd) = (k, kd) ->
  kd <= bd
  /\ (forall j i, In (j, i) l -> kd <= sqdist c i)
  /\ ((k, kd) = (best, bd)
      \/ exists l1 i l2,
           l = l1 ++ (k, i) :: l2
           /\ kd = sqdist c i /\ kd < bd
           /\ forall j' i', In (j', i') l1 -> kd < sqdist c i').
Proof.
  revert best bd.
  induction l as [| [ink i] l IH]; intros best bd; cbn [fold_left].
  - intros [= -> ->]. split; [lia |]. split; [intros ? ? [] | by left].
  - change (nearest_step c (best, bd) (ink, i))
      with (if sqdist c i <? bd then (ink, sqdist c i) else (best, bd)).
    destruct (sqdist c i <? bd) eqn:E; intros Hfold;
      apply IH in Hfold as (Hle & Hall & Hfirst).
    + apply Z.ltb_lt in E.
      split; [lia |]. split.
      * intros j i' [[= -> ->] | Hin]; [lia | eauto].
      * right. destruct Hfirst as [[= -> ->] | (l1 & i0 & l2 & Hl & Hd & Hlt & Hbefore)].
        -- exists [], i, l. repeat split; try lia. intros ? ? [].
        -- exists ((ink, i) :: l1), i0, l2. rewrite Hl.
           repeat split; try lia.
           intros j' i' [[= -> ->] | Hin]; [lia | eauto].
    + apply Z.ltb_ge in E.
      split; [lia |]. split.
      * intros j i' [[= -> ->] | Hin]; [lia | eauto].
      * destruct Hfirst as [Heq | (l1 & i0 & l2 & Hl & Hd & Hlt & Hbefore)];
          [by left | right].
        exists ((ink, i) :: l1), i0, l2. rewrite Hl.
        repeat split; try lia.
        intros j' i' [[= -> ->] | Hin]; [lia | eauto].
Qed.

(** For 8-bit channels the sentinel [10**18] is above every distance. *)
Lemma sqdist_bound (r g b : Z) (k : Z) (i : rgb) :
  0 <= r <= 255 -> 0 <= g <= 255 -> 0 <= b <= 255 ->
  In (k, i) INK_RGB -> 0 <= sqdist (r, g, b) i < 10 ^ 18.
Proof.
  intros Hr Hg Hb Hin. apply INK_RGB_channels in Hin.
  destruct i as [[ir ig] ib]. unfold sqdist.
  assert (Hsq : forall x, -255 <= x <= 255 -> 0 <= x * x <= 65025) by (intros; nia).
  pose proof (Hsq (r - ir) ltac:(lia)).
  pose proof (Hsq (g - ig) ltac:(lia)).
  pose proof (Hsq (b - ib) ltac:(lia)).
  change (10 ^ 18) with 1000000000000000000. lia.
Qed.

(** The ink the scan ends on, for 8-bit channels: a palette entry at the
    least distance, and the lowest ink among those at that distance. *)
Lemma nearest_scan_spec (r g b : Z) :
  0 <= r <= 255 -> 0 <= g <= 255 -> 0 <= b <= 255 ->
  exists c,
    dict_find INK_RGB (nearest_scan (r, g, b)).1 = Some c
    /\ forall j cj, In (j, cj) INK_RGB ->
         sqdist (r, g, b) c <= sqdist (r, g, b) cj
         /\ (sqdist (r, g, b) cj = sqdist (r, g, b) c ->
             (nearest_scan (r, g, b)).1 <= j).
Proof.
  intros Hr Hg Hb.
  destruct (nearest_scan (r, g, b)) as [k kd] eqn:Hscan. cbn [fst].
  apply nearest_fold_spec in Hscan as (_ & Hall & Hfirst).
  destruct Hfirst as [[= -> ->] | (l1 & c & l2 & Hsplit & Hd & _ & Hbefore)].
  - exfalso.
    assert (Hin : In (0, (0, 0, 0)) INK_RGB) by (left; reflexivity).
    pose proof (Hall _ _ Hin) as H1.
    pose proof (sqdist_bound r g b _ _ Hr Hg Hb Hin) as H2. lia.
  - exists c. split.
    + apply INK_RGB_find. rewrite Hsplit. apply in_elt.
    + intros j cj Hin. split; [rewrite <- Hd; eauto |].
      intros Htie. rewrite Hsplit in Hin.
      apply in_app_or in Hin as [Hin | [[= -> ->] | Hin]].
      * specialize (Hbefore _ _ Hin). lia.
      * lia.
      * pose proof INK_RGB_sorted as Hs. rewrite Hsplit in Hs.
        pose proof (sorted_after _ _ _ _ _ _ Hs Hin). lia.
Qed.

(** The scan never leaves the palette: its ink is a key of [INK_RGB]. *)
Lemma nearest_scan_key (c : rgb) :
  exists i, dict_find INK_RGB (nearest_scan c).1 = Some i.
Proof.
  destruct (nearest_scan c) as [k kd] eqn:Hscan. cbn [fst].
  apply nearest_fold_spec in Hscan as (_ & _ & Hfirst).
  destruct Hfirst as [[= -> ->] | (l1 & i & l2 & Hsplit & _)].
  - by exists (0, 0, 0).
  - exists i. apply INK_RGB_find. rewrite Hsplit. apply in_elt.
Qed.

(** From here on the scan is used through the two lemmas above only. *)
Opaque nearest_scan.

(** [nearest_ink] as a function of the scan's result: it raises exactly
    when the tolerance is not negative and a channel of the chosen entry is
    further than the tolerance, and returns the chosen ink otherwise. *)
Lemma nearest_ink_cases (r g b tol : Z) :
  exists i,
    dict_find INK_RGB (nearest_scan (r, g, b)).1 = Some i
    /\ nearest_ink (r, g, b) tol =
       if (0 <=? tol) && (tol <? channel_gap (r, g, b) i)
       then Raise (ValueError_color r g b (nearest_scan (r, g, b)).1)
       else Ok (nearest_scan (r, g, b)).1.
Proof.
  destruct (nearest_scan_key (r, g, b)) as [i Hi]. exists i. split; [done |].
  unfold nearest_ink, dict_item. rewrite Hi.
  destruct (0 <=? tol); [| done]. cbn.
  by destruct (tol <? channel_gap (r, g, b) i).
Qed.

Lemma nearest_ink_negative (c : rgb) (tol : Z) :
  tol < 0 -> nearest_ink c tol = Ok (nearest_scan c).1.
Proof.
  intros Htol. unfold nearest_ink.
  destruct (0 <=? tol) eqn:E; [apply Z.leb_le in E; lia | done].
Qed.

(** C5. Exact self-match: for every ink [i] of [0 .. 26], the palette has
    a colour for [i], built from its percentage triple by [pct_to_8bit]
    (0, 50, 100 to 0, 128, 255), and [nearest_ink] with tolerance 0 on that
    colour returns [i]. *)
Theorem nearest_ink_self_match (i : Z) :
  0 <= i <= 26 ->
  exists pr pg pb,
    dict_find INK_RGB_PCT i = Some (pr, pg, pb)
    /\ ink_to_rgb i = Ok (pct_to_8bit pr, pct_to_8bit pg, pct_to_8bit pb)
    /\ nearest_ink (pct_to_8bit pr, pct_to_8bit pg, pct_to_8bit pb) 0 = Ok i.
Proof.
  intros Hi.
  pose (P := fun i =>
    match dict_find INK_RGB_PCT i with
    | Some (pr, pg, pb) =>
        let c := (pct_to_8bit pr, pct_to_8bit pg, pct_to_8bit pb) in
        bool_decide (ink_to_rgb i = Ok c) && bool_decide (nearest_ink c 0 = Ok i)
    | None => false
    end).
  assert (HP : P i = true).
  { apply (below_cases P 27); [vm_compute; reflexivity | lia]. }
  unfold P in HP.
  destruct (dict_find INK_RGB_PCT i) as [[[pr pg] pb] |]; [| discriminate].
  apply andb_true_iff in HP as [H1 H2].
  apply bool_decide_eq_true in H1, H2. by exists pr, pg, pb.
Qed.

Lemma nearest_ink_self_match_witness :
  exists pr pg pb,
    dict_find INK_RGB_PCT 13 = Some (pr, pg, pb)
    /\ ink_to_rgb 13 = Ok (pct_to_8bit pr, pct_to_8bit pg, pct_to_8bit pb)
    /\ nearest_ink (pct_to_8bit pr, pct_to_8bit pg, pct_to_8bit pb) 0 = Ok 13.
Proof. apply (nearest_ink_self_match 13). lia. Defined.

(** The distance of the loop body and the test of the tolerance, written out. *)
Lemma sqdist_squares (r g b ir ig ib : Z) :
  sqdist (r, g, b) (ir, ig, ib) = (r - ir) ^ 2 + (g - ig) ^ 2 + (b - ib) ^ 2.
Proof. unfold sqdist. rewrite !Z.pow_2_r. reflexivity. Qed.

Lemma channel_gap_test (r g b ir ig ib tol : Z) :
  (tol <? channel_gap (r, g, b) (ir, ig, ib))
  = (tol <? Z.abs (r - ir)) || (tol <? Z.abs (g - ig)) || (tol <? Z.abs (b - ib)).
Proof.
  unfold channel_gap.
  destruct (tol <? Z.abs (r - ir)) eqn:E1; destruct (tol <? Z.abs (g - ig)) eqn:E2;
    destruct (tol <? Z.abs (b - ib)) eqn:E3; cbn [orb];
    repeat match goal with
           | H : (_ <? _) = true |- _ => apply Z.ltb_lt in H
           | H : (_ <? _) = false |- _ => apply Z.ltb_ge in H
           end;
    first [apply Z.ltb_lt; lia | apply Z.ltb_ge; lia].
Qed.

(** C6. For an RGB input (8-bit channels), [nearest_ink] settles on the
    ink [ink] whose palette colour [(ir, ig, ib)] is at the least squared
    Euclidean distance [(r-ir)^2 + (g-ig)^2 + (b-ib)^2], and among the
    inks at that distance on the lowest one; it returns [ink], unless the
    tolerance is not negative and the colour of [ink] is off by more than
    the tolerance on a channel, in which case it raises. *)
Theorem nearest_ink_least_distance (r g b tol : Z) :
  0 <= r <= 255 -> 0 <= g <= 255 -> 0 <= b <= 255 ->
  exists ink ir ig ib,
    ink_to_rgb ink = Ok (ir, ig, ib)
    /\ (forall j jr jg jb, ink_to_rgb j = Ok (jr, jg, jb) ->
          (r - ir) ^ 2 + (g - ig) ^ 2 + (b - ib) ^ 2
          <= (r - jr) ^ 2 + (g - jg) ^ 2 + (b - jb) ^ 2)
    /\ (forall j jr jg jb, ink_to_rgb j = Ok (jr, jg, jb) ->
          (r - jr) ^ 2 + (g - jg) ^ 2 + (b - jb) ^ 2
          = (r - ir) ^ 2 + (g - ig) ^ 2 + (b - ib) ^ 2 ->
          ink <= j)
    /\ nearest_ink (r, g, b) tol =
       if (0 <=? tol)
          && ((tol <? Z.abs (r - ir)) || (tol <? Z.abs (g - ig))
              || (tol <? Z.abs (b - ib)))
       then Raise (ValueError_color r g b ink)
       else Ok ink.
Proof.
  intros Hr Hg Hb.
  destruct (nearest_scan_spec r g b Hr Hg Hb) as (c & Hc & Hmin).
  destruct (nearest_ink_cases r g b tol) as (c' & Hc' & Hret).
  assert (c' = c) as -> by congruence.
  assert (Hitem : forall j cj, ink_to_rgb j = Ok cj -> In (j, cj) INK_RGB).
  { intros j cj. unfold ink_to_rgb, dict_item.
    destruct (dict_find INK_RGB j) eqn:E; [| done].
    intros [= ->]. by apply dict_find_In. }
  destruct c as [[ir ig] ib].
  exists (nearest_scan (r, g, b)).1, ir, ig, ib. repeat split.
  - unfold ink_to_rgb, dict_item. by rewrite Hc.
  - intros j jr jg jb Hj. rewrite <- !sqdist_squares.
    by apply (Hmin j (jr, jg, jb)), Hitem.
  - intros j jr jg jb Hj. rewrite <- !sqdist_squares.
    by apply (Hmin j (jr, jg, jb)), Hitem.
  - by rewrite <- channel_gap_test.
Qed.

Lemma nearest_ink_least_distance_witness :
  exists ink ir ig ib,
    ink_to_rgb ink = Ok (ir, ig, ib)
    /\ (forall j jr jg jb, ink_to_rgb j = Ok (jr, jg, jb) ->
          (64 - ir) ^ 2 + (64 - ig) ^ 2 + (64 - ib) ^ 2
          <= (64 - jr) ^ 2 + (64 - jg) ^ 2 + (64 - jb) ^ 2)
    /\ (forall j jr jg jb, ink_to_rgb j = Ok (jr, jg, jb) ->
          (64 - jr) ^ 2 + (64 - jg) ^ 2 + (64 - jb) ^ 2
          = (64 - ir) ^ 2 + (64 - ig) ^ 2 + (64 - ib) ^ 2 ->
          ink <= j)
    /\ nearest_ink (64, 64, 64) (-1) =
       if (0 <=? -1)
          && ((-1 <? Z.abs (64 - ir)) || (-1 <? Z.abs (64 - ig))
              || (-1 <? Z.abs (64 - ib)))
       then Raise (ValueError_color 64 64 64 ink)
       else Ok ink.
Proof. apply (nearest_ink_least_distance 64 64 64 (-1)); lia. Defined.

(** ** The encoder's pixel loop *)

(** A loop whose body never raises is a plain fold. *)
Lemma fold_left_Ok {S X} (f : result S -> X -> result S) (g : S -> X -> S) :
  (forall s x, f (Ok s) x = Ok (g s x)) ->
  forall l s, fold_left f l (Ok s) = Ok (fold_left g l s).
Proof.
  intros Hf l. induction l as [| x l IH]; intros s; cbn; [done |].
  by rewrite Hf, IH.
Qed.

(** What the loop body does for one pixel: never an exception. *)
Lemma pixel_ink_spec (tol : Z) (tink : option Z) (p : rgba) :
  pixel_ink tol tink p =
  Ok {| pr_ink := resolved_ink tink p;
        pr_fallback := falls_back tol tink p;
        pr_calls := if overridden tink p then []
                    else if falls_back tol tink p then [tol; -1] else [tol] |}.
Proof.
  destruct p as [[[r g] b] a].
  unfold pixel_ink, resolved_ink, falls_back, overridden.
  destruct ((a =? 0) && bool_decide (tink <> None)); [done |].
  cbn [negb andb].
  destruct (nearest_ink_cases r g b tol) as (i & _ & ->).
  destruct ((0 <=? tol) && (tol <? channel_gap (r, g, b) i)); [| done].
  cbn [is_ValueError]. by rewrite nearest_ink_negative by lia.
Qed.

(** The inks registered and the flag after the pixels [xs] of row [y]. *)
Lemma scan_pixels_spec (im : image) (tol : Z) (tink : option Z) (y : nat)
    (xs : list nat) (st : scan_state) :
  exists st',
    fold_left (scan_pixel im tol tink y) xs (Ok st) = Ok st'
    /\ used_inks st' =
       fold_left register_ink
         (map (resolved_ink tink) (map (fun x => px im x y) xs)) (used_inks st)
    /\ auto_tol_used st' =
       auto_tol_used st
       || existsb (falls_back tol tink) (map (fun x => px im x y) xs).
Proof.
  revert st. induction xs as [| x xs IH]; intros st; cbn [fold_left map existsb].
  - exists st. by rewrite orb_false_r.
  - unfold scan_pixel at 2. cbn [mbind result_bind].
    rewrite pixel_ink_spec. cbn [mbind result_bind pr_ink pr_fallback pr_calls].
    match goal with
    | |- context [fold_left _ xs (Ok ?s)] => destruct (IH s) as (st' & -> & Hu & Ha)
    end.
    exists st'. cbn [used_inks auto_tol_used] in Hu, Ha.
    by rewrite Hu, Ha, orb_assoc.
Qed.

Lemma scan_rows_spec (im : image) (tol : Z) (tink : option Z)
    (ys : list nat) (st : scan_state) :
  let pixels := flat_map (fun y => map (fun x => px im x y) (seq 0 (img_w im))) ys in
  exists st',
    fold_left (scan_row im tol tink) ys (Ok st) = Ok st'
    /\ used_inks st' =
       fold_left register_ink (map (resolved_ink tink) pixels) (used_inks st)
    /\ auto_tol_used st' =
       auto_tol_used st || existsb (falls_back tol tink) pixels.
Proof.
  revert st. induction ys as [| y ys IH]; intros st; cbn [fold_left flat_map].
  - exists st. cbn. by rewrite orb_false_r.
  - unfold scan_row at 2.
    destruct (scan_pixels_spec im tol tink y (seq 0 (img_w im)) st)
      as (st1 & -> & Hu1 & Ha1).
    destruct (IH st1) as (st' & -> & Hu & Ha).
    exists st'. split; [done |].
    rewrite map_app, fold_left_app, existsb_app, <- Hu1, orb_assoc, <- Ha1.
    done.
Qed.

(** The pixel loop always ends; it registers the resolved inks in the order
    of the pixels, and its flag tells whether some pixel fell back. *)
Lemma scan_image_spec (im : image) (tol : Z) (tink : option Z) :
  exists st,
    scan_image im tol tink = Ok st
    /\ used_inks st =
       fold_left register_ink (map (resolved_ink tink) (scan_order im)) []
    /\ auto_tol_used st = existsb (falls_back tol tink) (scan_order im).
Proof.
  unfold scan_image, scan_order.
  match goal with
  | |- context [fold_left _ _ (Ok ?s)] =>
      destruct (scan_rows_spec im tol tink (seq 0 (img_h im)) s)
        as (st & Hst & Hu & Ha)
  end.
  exists st. done.
Qed.

(** [register_ink] keeps a list without repetition and adds what is new. *)
Lemma register_inks_spec (inks acc : list Z) :
  NoDup acc ->
  NoDup (fold_left register_ink inks acc)
  /\ forall x, x ∈ fold_left register_ink inks acc <-> x ∈ acc \/ x ∈ inks.
Proof.
  revert acc. induction inks as [| i inks IH]; intros acc Hnd; cbn [fold_left].
  - split; [done |]. intros x. rewrite elem_of_nil. tauto.
  - unfold register_ink at 2 4. case_bool_decide as Hin.
    + destruct (IH acc Hnd) as [Hnd' Hel]. split; [done |].
      intros x. rewrite Hel, elem_of_cons.
      split; [tauto |]. intros [? | [-> | ?]]; auto.
    + assert (Hnd1 : NoDup (acc ++ [i])).
      { apply NoDup_app. split; [done |]. split; [| apply NoDup_singleton].
        intros x Hx ->%list_elem_of_singleton. done. }
      destruct (IH _ Hnd1) as [Hnd' Hel]. split; [done |].
      intros x. rewrite Hel, elem_of_app, list_elem_of_singleton, elem_of_cons.
      tauto.
Qed.

(** The length of [used_inks] after the loop is the number of distinct
    resolved inks. *)
Lemma used_inks_distinct (im : image) (tol : Z) (tink : option Z) (st : scan_state) :
  scan_image im tol tink = Ok st ->
  length (used_inks st) = distinct_inks tink im.
Proof.
  intros Hst.
  destruct (scan_image_spec im tol tink) as (st' & Hst' & Hu & _).
  assert (st' = st) as -> by congruence.
  rewrite Hu. unfold distinct_inks.
  destruct (register_inks_spec (map (resolved_ink tink) (scan_order im)) [])
    as [Hnd Hel]; [constructor |].
  apply Permutation_length, NoDup_Permutation;
    [done | apply NoDup_remove_dups |].
  intros x. rewrite Hel, elem_of_remove_dups, elem_of_nil. tauto.
Qed.

Example convert_two_inks :
  convert_png_to_rows two_inks_8x1 (Build_ModeSpec 2 2 8 1) 8 None
  = Ok (1%nat, 1%nat, [[0x3F]], [0; 26], false).
Proof. vm_compute. reflexivity. Qed.

Example convert_off_palette :
  convert_png_to_rows off_palette_2x1 (Build_ModeSpec 0 16 2 4) 0 None
  = Ok (1%nat, 1%nat, [[0]], [0], true).
Proof. vm_compute. reflexivity. Qed.

(** When [nearest_ink] raises, it is the colour error, the tolerance is not
    negative and the chosen entry is further than it on some channel. *)
Lemma nearest_ink_raises (r g b tol : Z) (e : exn) :
  nearest_ink (r, g, b) tol = Raise e ->
  e = ValueError_color r g b (nearest_scan (r, g, b)).1
  /\ 0 <= tol
  /\ exists c, ink_to_rgb (nearest_scan (r, g, b)).1 = Ok c
               /\ tol < channel_gap (r, g, b) c.
Proof.
  destruct (nearest_ink_cases r g b tol) as (c & Hc & ->).
  destruct (0 <=? tol) eqn:E1; [| done].
  destruct (tol <? channel_gap (r, g, b) c) eqn:E2; [| done].
  cbn [andb]. intros [= <-].
  apply Z.leb_le in E1. apply Z.ltb_lt in E2.
  split; [reflexivity |]. split; [exact E1 |].
  exists c. split; [| exact E2].
  unfold ink_to_rgb, dict_item. rewrite Hc. reflexivity.
Qed.

(** The flag the conversion returns is the flag of the pixel loop. *)
Lemma convert_flag (im : image) (spec : ModeSpec) (tol : Z) (tink : option Z)
    (wb h : nat) (rows : list (list Z)) (used : list Z) (auto : bool) :
  convert_png_to_rows im spec tol tink = Ok (wb, h, rows, used, auto) ->
  exists st, scan_image im tol tink = Ok st
             /\ used = used_inks st /\ auto = auto_tol_used st.
Proof.
  unfold convert_png_to_rows.
  destruct (negb _); [done |].
  destruct (scan_image im tol tink) as [st |]; [| done]. cbn [mbind result_bind].
  destruct (_ <? _)%nat; [done |].
  destruct (mapR _ _); [| done]. cbn [mbind result_bind].
  intros [= <- <- <- <- <-]. by exists st.
Qed.

(** C4 (amended). A pixel that goes through colour matching (its alpha is
    not 0, or no transparent ink is set) and for which [nearest_ink] raises
    at the given tolerance: the raise means that the tolerance is not
    negative and the nearest entry is off by more than it on a channel; the
    encoder then calls [nearest_ink] once more, with tolerance -1, takes
    the ink that call returns and sets the fallback flag; the pixel loop of
    an image holding such a pixel ends with the flag set, and so does every
    conversion of it that returns.  With a negative tolerance [nearest_ink]
    returns for every colour. *)
Theorem fallback_retry (im : image) (spec : ModeSpec) (tol : Z) (tink : option Z)
    (x y : nat) (r g b a : Z) (e : exn) :
  (x < img_w im)%nat -> (y < img_h im)%nat -> px im x y = (r, g, b, a) ->
  overridden tink (r, g, b, a) = false ->
  nearest_ink (r, g, b) tol = Raise e ->
  (0 <= tol /\ exists c, ink_to_rgb (nearest_scan (r, g, b)).1 = Ok c
                         /\ tol < channel_gap (r, g, b) c)
  /\ nearest_ink (r, g, b) (-1) = Ok (nearest_scan (r, g, b)).1
  /\ pixel_ink tol tink (r, g, b, a)
     = Ok {| pr_ink := (nearest_scan (r, g, b)).1;
             pr_fallback := true;
             pr_calls := [tol; -1] |}
  /\ (exists st, scan_image im tol tink = Ok st /\ auto_tol_used st = true)
  /\ (forall wb h rows used auto,
        convert_png_to_rows im spec tol tink = Ok (wb, h, rows, used, auto) ->
        auto = true)
  /\ (forall c t, t < 0 -> exists ink, nearest_ink c t = Ok ink).
Proof.
  intros Hx Hy Hpx Hov Hraise.
  assert (Hfb : falls_back tol tink (r, g, b, a) = true).
  { unfold falls_back. by rewrite Hov, Hraise. }
  assert (Hflag : exists st, scan_image im tol tink = Ok st
                             /\ auto_tol_used st = true).
  { destruct (scan_image_spec im tol tink) as (st & Hst & _ & Ha).
    exists st. split; [done |]. rewrite Ha.
    apply existsb_exists. exists (r, g, b, a). split; [| done].
    unfold scan_order. apply in_flat_map. exists y. split; [apply in_seq; lia |].
    rewrite <- Hpx. apply (in_map (fun x => px im x y)), in_seq. lia. }
  destruct (nearest_ink_raises _ _ _ _ _ Hraise) as (_ & Htol & Hgap).
  split; [done |].
  split; [by apply nearest_ink_negative |].
  split.
  { rewrite pixel_ink_spec, Hfb. unfold resolved_ink. by rewrite Hov. }
  split; [done |].
  split.
  - intros wb h rows used auto Hconv.
    apply convert_flag in Hconv as (st & Hst & _ & ->).
    destruct Hflag as (st' & Hst' & Ha). congruence.
  - intros c t Ht. eexists. by apply nearest_ink_negative.
Qed.

Lemma fallback_retry_witness :
  (0 <= 0 /\ exists c, ink_to_rgb (nearest_scan (10, 20, 30)).1 = Ok c
                       /\ 0 < channel_gap (10, 20, 30) c)
  /\ nearest_ink (10, 20, 30) (-1) = Ok (nearest_scan (10, 20, 30)).1
  /\ pixel_ink 0 None (10, 20, 30, 255)
     = Ok {| pr_ink := (nearest_scan (10, 20, 30)).1;
             pr_fallback := true;
             pr_calls := [0; -1] |}
  /\ (exists st, scan_image off_palette_2x1 0 None = Ok st
                 /\ auto_tol_used st = true)
  /\ (forall wb h rows used auto,
        convert_png_to_rows off_palette_2x1 (Build_ModeSpec 0 16 2 4) 0 None
        = Ok (wb, h, rows, used, auto) ->
        auto = true)
  /\ (forall c t, t < 0 -> exists ink, nearest_ink c t = Ok ink).
Proof.
  apply (fallback_retry off_palette_2x1 (Build_ModeSpec 0 16 2 4) 0 None
           1 0 10 20 30 255 (ValueError_color 10 20 30 0)).
  - cbn. lia.
  - cbn. lia.
  - reflexivity.
  - reflexivity.
  - vm_compute. reflexivity.
Defined.

(** C4, as first stated, fails on a transparent pixel when a transparent
    ink is set: [nearest_ink] would raise for its colour at tolerance 0,
    yet the encoder does not call it, takes the transparent ink and leaves
    the flag unset. *)
Lemma fallback_not_for_transparent :
  nearest_ink (10, 20, 30) 0 = Raise (ValueError_color 10 20 30 0)
  /\ pixel_ink 0 (Some 5) (px transparent_2x1 0 0)
     = Ok {| pr_ink := 5; pr_fallback := false; pr_calls := [] |}
  /\ convert_png_to_rows transparent_2x1 (Build_ModeSpec 0 16 2 4) 0 (Some 5)
     = Ok (1%nat, 1%nat, [[0]], [5], false).
Proof. split; [| split]; vm_compute; reflexivity. Qed.

(** The palette is a full grid: a channel of one entry can be put into
    another entry and the colour is still on the palette. *)
Lemma INK_RGB_grid (k1 k2 : Z) (c1 c2 : rgb) :
  In (k1, c1) INK_RGB -> In (k2, c2) INK_RGB ->
  let '(r1, g1, b1) := c1 in
  let '(r2, g2, b2) := c2 in
  (exists k, In (k, (r2, g1, b1)) INK_RGB)
  /\ (exists k, In (k, (r1, g2, b1)) INK_RGB)
  /\ (exists k, In (k, (r1, g1, b2)) INK_RGB).
Proof.
  intros H1 H2.
  pose (on_palette := fun c : rgb =>
          existsb (fun '(_, c') => bool_decide (c' = c)) INK_RGB).
  assert (Hon : forall c, on_palette c = true -> exists k, In (k, c) INK_RGB).
  { intros c [[k c'] [Hin Hc]]%existsb_exists.
    apply bool_decide_eq_true in Hc as ->. by exists k. }
  assert (Hall : forallb (fun '(_, (r1, g1, b1)) =>
            forallb (fun '(_, (r2, g2, b2)) =>
              on_palette (r2, g1, b1) && on_palette (r1, g2, b1)
              && on_palette (r1, g1, b2)) INK_RGB) INK_RGB = true)
    by (vm_compute; reflexivity).
  rewrite forallb_forall in Hall. specialize (Hall _ H1).
  destruct c1 as [[r1 g1] b1]. cbv beta iota in Hall.
  rewrite forallb_forall in Hall. specialize (Hall _ H2).
  destruct c2 as [[r2 g2] b2]. cbv beta iota in Hall.
  apply andb_true_iff in Hall as [[Ha Hb]%andb_true_iff Hc].
  auto.
Qed.

Lemma abs_le_of_square (x y : Z) : x * x <= y * y -> Z.abs x <= Z.abs y.
Proof. intros Hsq. nia. Qed.

(** For 8-bit channels, [nearest_ink] raises at a tolerance that is not
    negative exactly when no palette entry is within the tolerance on all
    three channels: the entry it chooses is the nearest one on each
    channel. *)
Lemma nearest_ink_raises_iff (r g b tol : Z) :
  0 <= r <= 255 -> 0 <= g <= 255 -> 0 <= b <= 255 -> 0 <= tol ->
  (exists e, nearest_ink (r, g, b) tol = Raise e)
  <-> (forall j cj, ink_to_rgb j = Ok cj -> tol < channel_gap (r, g, b) cj).
Proof.
  intros Hr Hg Hb Htol.
  destruct (nearest_scan_spec r g b Hr Hg Hb) as (c & Hc & Hmin).
  destruct (nearest_ink_cases r g b tol) as (c' & Hc' & Hret).
  assert (c' = c) as -> by congruence.
  assert ((0 <=? tol) = true) as Ht by (apply Z.leb_le; lia).
  rewrite Ht in Hret. cbn [andb] in Hret.
  pose proof (dict_find_In _ _ _ Hc) as Hbest.
  split.
  - intros [e He]. rewrite Hret in He.
    destruct (tol <? channel_gap (r, g, b) c) eqn:E; [| done].
    apply Z.ltb_lt in E.
    intros j cj Hj.
    assert (Hin : In (j, cj) INK_RGB).
    { unfold ink_to_rgb, dict_item in Hj.
      destruct (dict_find INK_RGB j) eqn:Ef; [| done].
      injection Hj as ->. by apply dict_find_In. }
    pose proof (INK_RGB_grid _ _ _ _ Hbest Hin) as Hgrid.
    destruct c as [[cr cg] cb], cj as [[jr jg] jb].
    destruct Hgrid as ((ka & Ha) & (kb & Hb') & (kc & Hc'')).
    destruct (Hmin _ _ Ha) as [Hda _].
    destruct (Hmin _ _ Hb') as [Hdb _].
    destruct (Hmin _ _ Hc'') as [Hdc _].
    unfold sqdist in Hda, Hdb, Hdc. unfold channel_gap in *.
    assert (Z.abs (r - cr) <= Z.abs (r - jr)) by (apply abs_le_of_square; lia).
    assert (Z.abs (g - cg) <= Z.abs (g - jg)) by (apply abs_le_of_square; lia).
    assert (Z.abs (b - cb) <= Z.abs (b - jb)) by (apply abs_le_of_square; lia).
    lia.
  - intros Hnone.
    assert (tol < channel_gap (r, g, b) c) as Hgap.
    { apply (Hnone (nearest_scan (r, g, b)).1).
      unfold ink_to_rgb, dict_item. by rewrite Hc. }
    apply Z.ltb_lt in Hgap. rewrite Hgap in Hret. eauto.
Qed.

(** ** The batch loop of png2asm.py *)

(** The loop only ever appends to the file, one block per converted image. *)
Lemma main_loop_out (spec : ModeSpec) (tol : Z) (tink : option Z)
    (pngs : list png) (st : batch) :
  out (main_loop spec tol tink st pngs)
  = out st ++ flat_map (image_writes spec tol tink) pngs.
Proof.
  revert st. induction pngs as [| p pngs IH]; intros st; cbn [flat_map].
  - cbn. by rewrite app_nil_r.
  - unfold main_loop in *. cbn [fold_left]. rewrite IH.
    rewrite app_assoc. f_equal.
    unfold main_step, image_writes.
    destruct (convert_png_to_rows (img p) spec tol tink)
      as [[[[[wb h] rows] used] auto] | e]; cbn [out]; [done |].
    by rewrite app_nil_r.
Qed.

(** The counters count the conversions that returned and those that raised. *)
Lemma main_loop_counts (spec : ModeSpec) (tol : Z) (tink : option Z)
    (pngs : list png) (st : batch) :
  converted_ok (main_loop spec tol tink st pngs)
  = (converted_ok st + length (filter (fun p => converts spec tol tink p) pngs))%nat
  /\ converted_fail (main_loop spec tol tink st pngs)
     = (converted_fail st
        + length (filter (fun p => negb (converts spec tol tink p)) pngs))%nat.
Proof.
  revert st. induction pngs as [| p pngs IH]; intros st.
  - cbn. lia.
  - unfold main_loop in *. cbn [fold_left].
    destruct (IH (main_step spec tol tink st p)) as [-> ->].
    rewrite !filter_cons. unfold main_step, converts.
    destruct (convert_png_to_rows (img p) spec tol tink)
      as [[[[[wb h] rows] used] auto] | e];
      cbn [converted_ok converted_fail negb];
      repeat case_decide; try done; cbn [length]; lia.
Qed.

(** The conversion of an image that passes the width test and resolves to
    more inks than the mode has pens raises the ink-count error. *)
Lemma convert_overflow (im : image) (spec : ModeSpec) (tol : Z) (tink : option Z) :
  (img_w im mod px_per_byte spec)%nat = 0%nat ->
  (colors spec < distinct_inks tink im)%nat ->
  convert_png_to_rows im spec tol tink
  = Raise (ValueError_inks (Z.of_nat (distinct_inks tink im))
                           (Z.of_nat (colors spec))).
Proof.
  intros Hw Hover. unfold convert_png_to_rows.
  rewrite Hw. cbn [Nat.eqb negb].
  destruct (scan_image_spec im tol tink) as (st & Hst & _).
  rewrite Hst. cbn [mbind result_bind].
  pose proof (used_inks_distinct im tol tink st Hst) as Hlen.
  unfold len. rewrite Hlen.
  destruct (colors spec <? distinct_inks tink im)%nat eqn:E; [done |].
  apply Nat.ltb_ge in E. lia.
Qed.

(** C3 (amended). Under a mode of [MODE_SPECS], an image whose width is a
    multiple of the mode's pixels per byte and whose pixels resolve to more
    distinct inks than the mode has pens: its conversion raises the
    ink-count error; the batch loop
    then writes nothing for it, adds an ERROR row to the summary, counts
    one more failure and goes on with the images after it; the writes of
    the loop and the count of converted images are those of the batch
    without it.  In the file [main] leaves, only the label index written
    after the loop, which lists every file found, mentions the image. *)
Theorem palette_overflow_skips_image (m : Z) (spec : ModeSpec) (tol : Z)
    (tink : option Z) (st : batch) (before after : list png) (p : png) :
  dict_find MODE_SPECS m = Some spec ->
  (img_w (img p) mod px_per_byte spec)%nat = 0%nat ->
  (colors spec < distinct_inks tink (img p))%nat ->
  let e := ValueError_inks (Z.of_nat (distinct_inks tink (img p)))
                           (Z.of_nat (colors spec)) in
  convert_png_to_rows (img p) spec tol tink = Raise e
  /\ main_step spec tol tink st p
     = {| out := out st;
          summary := summary st ++ [error_row p e];
          converted_ok := converted_ok st;
          converted_fail := S (converted_fail st) |}
  /\ main_loop spec tol tink st (before ++ p :: after)
     = main_loop spec tol tink
         (main_step spec tol tink (main_loop spec tol tink st before) p) after
  /\ out (main_loop spec tol tink st (before ++ p :: after))
     = out (main_loop spec tol tink st (before ++ after))
  /\ converted_ok (main_loop spec tol tink st (before ++ p :: after))
     = converted_ok (main_loop spec tol tink st (before ++ after))
  /\ converted_fail (main_loop spec tol tink st (before ++ p :: after))
     = S (converted_fail (main_loop spec tol tink st (before ++ after)))
  /\ out (main spec tol tink (before ++ p :: after))
     = out (main_loop spec tol tink (batch_start spec) (before ++ after))
       ++ [W_index_header]
       ++ map (fun q => W_index (label q) (rel q)) (before ++ p :: after).
Proof.
  intros _ Hw Hover e.
  pose proof (convert_overflow (img p) spec tol tink Hw Hover) as Hconv.
  fold e in Hconv.
  split; [done |].
  split; [unfold main_step; by rewrite Hconv |].
  split; [unfold main_loop; by rewrite fold_left_app |].
  assert (Hwr : image_writes spec tol tink p = []).
  { unfold image_writes. by rewrite Hconv. }
  assert (Hcv : converts spec tol tink p = false).
  { unfold converts. by rewrite Hconv. }
  assert (Hout : forall st0,
            out (main_loop spec tol tink st0 (before ++ p :: after))
            = out (main_loop spec tol tink st0 (before ++ after))).
  { intros st0. rewrite !main_loop_out, !flat_map_app. cbn [flat_map].
    by rewrite Hwr. }
  split; [apply Hout |].
  split; [| split; [| unfold main; cbn [out]; by rewrite Hout]].
  - destruct (main_loop_counts spec tol tink (before ++ p :: after) st) as [-> _].
    destruct (main_loop_counts spec tol tink (before ++ after) st) as [-> _].
    rewrite !filter_app, filter_cons, Hcv. by case_decide.
  - destruct (main_loop_counts spec tol tink (before ++ p :: after) st) as [_ ->].
    destruct (main_loop_counts spec tol tink (before ++ after) st) as [_ ->].
    rewrite !filter_app, filter_cons, Hcv. cbn [negb].
    case_decide; [| done]. rewrite !length_app. cbn [length]. lia.
Qed.

Lemma palette_overflow_skips_image_witness :
  let spec := Build_ModeSpec 2 2 8 1 in
  let e := ValueError_inks (Z.of_nat (distinct_inks None (img png_b)))
                           (Z.of_nat (colors spec)) in
  convert_png_to_rows (img png_b) spec 8 None = Raise e
  /\ main_step spec 8 None (batch_start spec) png_b
     = {| out := out (batch_start spec);
          summary := summary (batch_start spec) ++ [error_row png_b e];
          converted_ok := converted_ok (batch_start spec);
          converted_fail := S (converted_fail (batch_start spec)) |}
  /\ main_loop spec 8 None (batch_start spec) ([png_a] ++ png_b :: [png_c])
     = main_loop spec 8 None
         (main_step spec 8 None (main_loop spec 8 None (batch_start spec) [png_a]) png_b)
         [png_c]
  /\ out (main_loop spec 8 None (batch_start spec) ([png_a] ++ png_b :: [png_c]))
     = out (main_loop spec 8 None (batch_start spec) ([png_a] ++ [png_c]))
  /\ converted_ok (main_loop spec 8 None (batch_start spec) ([png_a] ++ png_b :: [png_c]))
     = converted_ok (main_loop spec 8 None (batch_start spec) ([png_a] ++ [png_c]))
  /\ converted_fail (main_loop spec 8 None (batch_start spec) ([png_a] ++ png_b :: [png_c]))
     = S (converted_fail (main_loop spec 8 None (batch_start spec) ([png_a] ++ [png_c])))
  /\ out (main spec 8 None ([png_a] ++ png_b :: [png_c]))
     = out (main_loop spec 8 None (batch_start spec) ([png_a] ++ [png_c]))
       ++ [W_index_header]
       ++ map (fun q => W_index (label q) (rel q)) ([png_a] ++ png_b :: [png_c]).
Proof.
  intros spec.
  apply (palette_overflow_skips_image 2 spec 8 None (batch_start spec)
           [png_a] [png_c] png_b).
  - reflexivity.
  - reflexivity.
  - vm_compute. lia.
Defined.

(** The whole run on the three files: the block of [a], no write for [b],
    the block of [c], then the index, which lists the three labels. *)
Example main_three_files :
  let r := main (Build_ModeSpec 2 2 8 1) 8 None [png_a; png_b; png_c] in
  out r = [ W_mode 2;
            W_label "a"; W_begin; W_width 1; W_height 1; W_row [0x3F];
            W_end; W_palette; W_ink 0 0; W_ink 1 26; W_blank;
            W_label "c"; W_begin; W_width 1; W_height 1; W_row [0x3F];
            W_end; W_palette; W_ink 0 0; W_ink 1 26; W_blank;
            W_index_header;
            W_index "a" "a.png"; W_index "b" "b.png"; W_index "c" "c.png" ]
  /\ map s_status (summary r) = [OK; ERROR (ValueError_inks 5 2); OK]
  /\ converted_ok r = 2%nat /\ converted_fail r = 1%nat.
Proof. vm_compute. done. Qed.

(** C3, as first stated, fails on an image that has too many inks and a
    width that is not a multiple of the pixels per byte: five inks, five
    pixels wide, mode 2.  The width test comes first and the error is the
    width error, not the ink-count error.  And the file of a batch with an
    image of too many inks still has a line for that image, in the label
    index. *)
Lemma palette_overflow_after_width_test :
  ((colors (Build_ModeSpec 2 2 8 1) < distinct_inks None five_inks_5x1)%nat
   /\ convert_png_to_rows five_inks_5x1 (Build_ModeSpec 2 2 8 1) 8 None
      = Raise (ValueError_width 5 8))
  /\ (convert_png_to_rows (img png_b) (Build_ModeSpec 2 2 8 1) 8 None
      = Raise (ValueError_inks 5 2)
      /\ In (W_index "b" "b.png")
            (out (main (Build_ModeSpec 2 2 8 1) 8 None [png_a; png_b; png_c]))).
Proof.
  split; split.
  - vm_compute. lia.
  - vm_compute. reflexivity.
  - vm_compute. reflexivity.
  - vm_compute. tauto.
Qed.

(** ** Geometry heuristics of asm2png.py *)

Import Asm2png.

Section Geometry.
Context `{SetOrder}.

(** [max(xs, key=key)] on a list that is not empty: an element of the list
    whose key is the largest. *)
Lemma max_by_key_spec (key : nat -> nat) (xs : list nat) :
  xs <> [] ->
  exists m, max_by_key key xs = Ok m
            /\ m ∈ xs /\ forall x, x ∈ xs -> (key x <= key m)%nat.
Proof.
  destruct xs as [| x0 xs]; [done |]. intros _. cbn [max_by_key].
  eexists. split; [reflexivity |].
  revert x0. induction xs as [| y xs IH]; intros x0; cbn [fold_left].
  - split; [by left |]. intros x ->%list_elem_of_singleton. done.
  - destruct (IH (if (key x0 <? key y)%nat then y else x0)) as [Hin Hmax].
    split.
    + apply elem_of_cons in Hin as [-> | Hin].
      * destruct (key x0 <? key y)%nat; [right; left | left].
      * by do 2 right.
    + intros x Hx.
      assert (key (if (key x0 <? key y)%nat then y else x0)
              <= key (fold_left (fun best y0 =>
                        if (key best <? key y0)%nat then y0 else best) xs
                        (if (key x0 <? key y)%nat then y else x0)))%nat
        as Hfirst by (apply Hmax; left).
      apply elem_of_cons in Hx as [-> | Hx];
        [| apply elem_of_cons in Hx as [-> | Hx]].
      * destruct (key x0 <? key y)%nat eqn:E; [apply Nat.ltb_lt in E |]; lia.
      * destruct (key x0 <? key y)%nat eqn:E; [| apply Nat.ltb_ge in E]; lia.
      * apply Hmax. by right.
Qed.

Lemma count_not_elem (l : list nat) (x : nat) : x ∉ l -> count l x = 0%nat.
Proof.
  intros Hx. apply count_occ_not_In. by rewrite <- list_elem_of_In.
Qed.

(** [max(set(l), key=l.count)]: a most frequent element of [l], whatever the
    order of the set. *)
Lemma most_common_spec (l : list nat) :
  l <> [] ->
  exists m, most_common l = Ok m
            /\ m ∈ l /\ forall x, (count l x <= count l m)%nat.
Proof.
  intros Hl. unfold most_common.
  destruct (max_by_key_spec (count l) (set_iter l)) as (m & Hm & Hin & Hmax).
  - destruct l as [| a l]; [done |]. intros Hnil.
    assert (a ∈ set_iter (a :: l)) as Ha by (apply set_iter_elem; left).
    rewrite Hnil in Ha. by apply elem_of_nil in Ha.
  - exists m. split; [done |]. split; [by apply set_iter_elem |].
    intros x. destruct (decide (x ∈ l)) as [Hx | Hx].
    + apply Hmax. by apply set_iter_elem.
    + rewrite (count_not_elem l x Hx). lia.
Qed.

(** The rule of heuristic B for the first row, with three rows or more. *)
Lemma image_rows_spec (r0 : list Z) (others : list (list Z)) :
  (2 <= length others)%nat ->
  exists common_w,
    most_common (map length others) = Ok common_w
    /\ common_w ∈ map length others
    /\ (forall x, (count (map length others) x
                   <= count (map length others) common_w)%nat)
    /\ image_rows (r0 :: others)
       = Ok (if (length r0 <? common_w)%nat
                && (Nat.max 2 (length others / 2)
                    <=? count (map length others) common_w)%nat
             then others else r0 :: others).
Proof.
  intros Hlen.
  destruct (most_common_spec (map length others)) as (m & Hm & Hin & Hmax).
  { destruct others; [cbn in Hlen; lia | done]. }
  exists m. repeat split; try done.
  unfold image_rows.
  assert ((3 <=? length (r0 :: others))%nat = true) as ->
    by (apply Nat.leb_le; cbn; lia).
  change (drop 1 (map length (r0 :: others))) with (map length others).
  change (hd 0%nat (map length (r0 :: others))) with (length r0).
  change (drop 1 (r0 :: others)) with others.
  rewrite Hm. cbn [mbind result_bind].
  rewrite length_map.
  by destruct ((length r0 <? m)%nat
               && (Nat.max 2 (length others / 2)
                   <=? count (map length others) m)%nat).
Qed.

Lemma image_rows_few (rows : list (list Z)) :
  (length rows < 3)%nat -> image_rows rows = Ok rows.
Proof.
  intros Hlen. unfold image_rows.
  by assert ((3 <=? length rows)%nat = false) as -> by (apply Nat.leb_gt; lia).
Qed.

(** Heuristic B returns whenever there is a row. *)
Lemma guess_lines_returns (rows : list (list Z)) :
  rows <> [] -> exists wb ht data, guess_lines rows = Ok (lines, wb, ht, data).
Proof.
  intros Hrows. unfold guess_lines.
  case_bool_decide; [done |].
  assert (exists img_rows, image_rows rows = Ok img_rows /\ img_rows <> [])
    as (img_rows & -> & Hne).
  { destruct (decide (length rows < 3)%nat) as [Hfew | Hmany].
    - exists rows. split; [by apply image_rows_few | done].
    - destruct rows as [| r0 others]; [done |].
      destruct (image_rows_spec r0 others) as (m & _ & _ & _ & ->);
        [cbn in Hmany; lia |].
      destruct (_ && _); eexists; split; try reflexivity; [| done].
      destruct others; [cbn in Hmany; lia | done]. }
  cbn [mbind result_bind].
  destruct (most_common_spec (map length img_rows)) as (wb & -> & _).
  { by destruct img_rows. }
  cbn [mbind result_bind]. by eexists _, _, _.
Qed.

End Geometry.

(** The test that sends heuristic A to the rows, spelled out. *)
Lemma short_first_row_true (rows : list (list Z)) :
  short_first_row rows = true <->
  exists r0 r1 more,
    rows = r0 :: r1 :: more /\ length r0 = 2%nat /\ (4 <= length r1)%nat.
Proof.
  unfold short_first_row, len. split.
  - destruct rows as [| r0 [| r1 more]]; try done.
    intros [H0 H1]%andb_true_iff.
    apply Z.eqb_eq in H0. apply Z.leb_le in H1.
    exists r0, r1, more. repeat split; lia.
  - intros (r0 & r1 & more & -> & H0 & H1).
    apply andb_true_iff. split; [apply Z.eqb_eq | apply Z.leb_le]; lia.
Qed.

(** Heuristic A on a byte sequence with a fitting header. *)
Lemma guess_header_fits (rows : list (list Z)) (w h : Z) (rest : list Z) :
  1 <= w <= 255 -> 1 <= h <= 255 -> w * h <= len rest ->
  guess_header rows (w :: h :: rest)
  = if short_first_row rows then None
    else Some (header, w, h, take (Z.to_nat (w * h)) rest).
Proof.
  intros Hw Hh Hfit. unfold guess_header.
  assert ((1 <=? w) && (w <=? 255) && (1 <=? h) && (h <=? 255) = true) as ->.
  { rewrite !andb_true_iff, !Z.leb_le. lia. }
  assert ((2 + w * h <=? len (w :: h :: rest)) = true) as ->.
  { apply Z.leb_le. unfold len in *. cbn [length]. lia. }
  done.
Qed.

(** C2. A byte sequence that starts with [w], [h], both in [1 .. 255], and
    has [w * h] bytes after them: guess_format returns the header reading,
    ["header"], [w], [h] and the next [w * h] bytes, unless there are two
    rows or more, the first of exactly 2 bytes and the second of at least
    4, in which case it returns what the rows heuristic returns, a
    ["lines"] reading.  So the bytes 2, 3, 1, 2, 3, 4, 5, 6 are read as a
    header, 2 by 3 with the data 1 .. 6, whenever their rows are not of
    that shape. *)
Theorem header_preferred `{SetOrder} (rows : list (list Z)) (w h : Z) (rest : list Z) :
  1 <= w <= 255 -> 1 <= h <= 255 -> w * h <= len rest ->
  let short_first :=
    exists r0 r1 more,
      rows = r0 :: r1 :: more /\ length r0 = 2%nat /\ (4 <= length r1)%nat in
  (~ short_first ->
     guess_format rows (w :: h :: rest)
     = Ok (header, w, h, take (Z.to_nat (w * h)) rest))
  /\ (short_first ->
        guess_format rows (w :: h :: rest) = guess_lines rows
        /\ exists wb ht data, guess_lines rows = Ok (lines, wb, ht, data))
  /\ (~ short_first ->
        guess_format rows [2; 3; 1; 2; 3; 4; 5; 6]
        = Ok (header, 2, 3, [1; 2; 3; 4; 5; 6])).
Proof.
  intros Hw Hh Hfit short_first. subst short_first.
  rewrite <- short_first_row_true.
  unfold guess_format. rewrite guess_header_fits by done.
  rewrite (guess_header_fits rows 2 3 [1; 2; 3; 4; 5; 6])
    by (unfold len; cbn; lia).
  destruct (short_first_row rows) eqn:E.
  - split; [done |]. split; [| done]. intros _. split; [done |].
    apply guess_lines_returns.
    apply short_first_row_true in E as (? & ? & ? & -> & _). done.
  - split; [done |]. split; done.
Qed.

Lemma header_preferred_witness :
  let rows := rows_header_style in
  let short_first :=
    exists r0 r1 more,
      rows = r0 :: r1 :: more /\ length r0 = 2%nat /\ (4 <= length r1)%nat in
  (~ short_first ->
     @guess_format some_set_order rows (2 :: 3 :: [1; 2; 3; 4; 5; 6])
     = Ok (header, 2, 3, take (Z.to_nat (2 * 3)) [1; 2; 3; 4; 5; 6]))
  /\ (short_first ->
        @guess_format some_set_order rows (2 :: 3 :: [1; 2; 3; 4; 5; 6])
        = @guess_lines some_set_order rows
        /\ exists wb ht data,
             @guess_lines some_set_order rows = Ok (lines, wb, ht, data))
  /\ (~ short_first ->
        @guess_format some_set_order rows [2; 3; 1; 2; 3; 4; 5; 6]
        = Ok (header, 2, 3, [1; 2; 3; 4; 5; 6])).
Proof.
  apply (@header_preferred some_set_order rows_header_style 2 3 [1; 2; 3; 4; 5; 6]);
    unfold len; cbn; lia.
Defined.

Example guess_header_style :
  @guess_format some_set_order rows_header_style (concat rows_header_style)
  = Ok (header, 2, 3, [1; 2; 3; 4; 5; 6]).
Proof. vm_compute. reflexivity. Qed.

(** The same bytes written as a line of two values and a line of six fall
    under the exception and are read as rows. *)
Example guess_two_then_six :
  @guess_format some_set_order rows_two_then_six (concat rows_two_then_six)
  = Ok (lines, 2, 2, [2; 3; 1; 2]).
Proof. vm_compute. reflexivity. Qed.

(** The sample of four rows, under any order of the set: the short first
    row goes, and the image is 4 bytes wide and 3 rows high. *)
Lemma guess_rows_short_first `{SetOrder} :
  guess_format rows_short_first (concat rows_short_first)
  = Ok (lines, 4, 3, [1; 2; 3; 4; 1; 2; 3; 4; 1; 2; 3; 4]).
Proof.
  unfold guess_format.
  change (guess_header rows_short_first (concat rows_short_first)) with
    (@None (fmt * Z * Z * list Z)).
  unfold guess_lines, rows_short_first. case_bool_decide; [done |].
  destruct (image_rows_spec [9; 9] [[1; 2; 3; 4]; [1; 2; 3; 4]; [1; 2; 3; 4]])
    as (m & _ & Hm & _ & ->); [cbn; lia |].
  assert (m = 4%nat) as ->.
  { cbn in Hm. rewrite !elem_of_cons, elem_of_nil in Hm. tauto. }
  change (count _ 4%nat) with 3%nat. cbn [length andb Nat.ltb Nat.leb Nat.max].
  change (Nat.max 2 (3 / 2) <=? 3)%nat with true. cbn [mbind result_bind].
  destruct (most_common_spec
              (map length [[1; 2; 3; 4]; [1; 2; 3; 4]; [1; 2; 3; 4]]))
    as (wb & -> & Hwb & _); [done |].
  assert (wb = 4%nat) as ->.
  { cbn in Hwb. rewrite !elem_of_cons, elem_of_nil in Hwb. tauto. }
  reflexivity.
Qed.

(** C7 (amended). With a first row [r0] and [n >= 2] rows after it, the
    dominant width is a most frequent length among the rows after the
    first; the first row is dropped when it is shorter than the dominant
    width and at least [max(2, n // 2)] of the [n] rows after it have the
    dominant width, and all rows are kept otherwise; with fewer than three
    rows all are kept.  The rows [[9,9],[1,2,3,4],[1,2,3,4],[1,2,3,4]] give
    an image 4 bytes wide and 3 rows high, without the first row. *)
Theorem short_first_row_dropped `{SetOrder} (r0 : list Z) (others : list (list Z)) :
  (2 <= length others)%nat ->
  let n := length others in
  let widths := map length others in
  (exists common_w,
     most_common widths = Ok common_w
     /\ common_w ∈ widths
     /\ (forall x, (count widths x <= count widths common_w)%nat)
     /\ ((length r0 < common_w)%nat ->
         (Nat.max 2 (n / 2) <= count widths common_w)%nat ->
         image_rows (r0 :: others) = Ok others)
     /\ (~ ((length r0 < common_w)%nat
            /\ (Nat.max 2 (n / 2) <= count widths common_w)%nat) ->
         image_rows (r0 :: others) = Ok (r0 :: others)))
  /\ (forall rows, (length rows < 3)%nat -> image_rows rows = Ok rows)
  /\ guess_format rows_short_first (concat rows_short_first)
     = Ok (lines, 4, 3, [1; 2; 3; 4; 1; 2; 3; 4; 1; 2; 3; 4]).
Proof.
  intros Hlen n widths. subst n widths.
  split; [| split; [apply image_rows_few | apply guess_rows_short_first]].
  destruct (image_rows_spec r0 others Hlen) as (m & Hm & Hin & Hmax & Hrows).
  exists m. repeat split; try done.
  - intros Hshort Hmany. rewrite Hrows.
    apply Nat.ltb_lt in Hshort. apply Nat.leb_le in Hmany.
    by rewrite Hshort, Hmany.
  - intros Hnot. rewrite Hrows.
    destruct (length r0 <? m)%nat eqn:E1; [| done].
    destruct (Nat.max 2 (length others / 2)
              <=? count (map length others) m)%nat eqn:E2; [| done].
    apply Nat.ltb_lt in E1. apply Nat.leb_le in E2. tauto.
Qed.

Lemma short_first_row_dropped_witness :
  let r0 := [9; 9] in
  let others := [[1; 2; 3; 4]; [1; 2; 3; 4]; [1; 2; 3; 4]] in
  let n := length others in
  let widths := map length others in
  (exists common_w,
     @most_common some_set_order widths = Ok common_w
     /\ common_w ∈ widths
     /\ (forall x, (count widths x <= count widths common_w)%nat)
     /\ ((length r0 < common_w)%nat ->
         (Nat.max 2 (n / 2) <= count widths common_w)%nat ->
         @image_rows some_set_order (r0 :: others) = Ok others)
     /\ (~ ((length r0 < common_w)%nat
            /\ (Nat.max 2 (n / 2) <= count widths common_w)%nat) ->
         @image_rows some_set_order (r0 :: others) = Ok (r0 :: others)))
  /\ (forall rows, (length rows < 3)%nat -> @image_rows some_set_order rows = Ok rows)
  /\ @guess_format some_set_order rows_short_first (concat rows_short_first)
     = Ok (lines, 4, 3, [1; 2; 3; 4; 1; 2; 3; 4; 1; 2; 3; 4]).
Proof.
  apply (@short_first_row_dropped some_set_order [9; 9]
           [[1; 2; 3; 4]; [1; 2; 3; 4]; [1; 2; 3; 4]]).
  cbn. lia.
Defined.

(** C7, as first stated, fails on rows of 1, 3, 3, 4, 5 and 6 bytes, the
    first row being [0] so that heuristic A finds no header and the rows
    reach the row-based geometry: the dominant width 3 is the width of 2 of
    the 5 rows after the first, which is no majority, yet guess_format
    drops the first row and gives an image of 5 rows, whatever the order
    in which Python iterates over the set of lengths. *)
Lemma short_first_row_dropped_without_majority :
  let others := drop 1 rows_two_of_five in
  length others = 5%nat
  /\ count (map length others) 3 = 2%nat
  /\ guess_header rows_two_of_five (concat rows_two_of_five) = None
  /\ (forall o : SetOrder,
        @most_common o (map length others) = Ok 3%nat
        /\ @image_rows o rows_two_of_five = Ok others
        /\ @guess_format o rows_two_of_five (concat rows_two_of_five)
           = Ok (lines, 3, 5, [1; 2; 3; 1; 2; 3; 1; 2; 3; 1; 2; 3; 1; 2; 3])).
Proof.
  cbv zeta. split; [reflexivity |]. split; [reflexivity |].
  split; [reflexivity |]. intros o.
  assert (Hcommon : @most_common o (map length (drop 1 rows_two_of_five))
                    = Ok 3%nat).
  { destruct (@most_common_spec o (map length (drop 1 rows_two_of_five)))
      as (m & Hm & Hin & Hmax); [done |].
    rewrite Hm. f_equal. specialize (Hmax 3%nat).
    cbn in Hin. rewrite !elem_of_cons, elem_of_nil in Hin.
    destruct Hin as [-> | [-> | [-> | [-> | [-> | []]]]]];
      try reflexivity; vm_compute in Hmax; lia. }
  assert (Hrows : @image_rows o rows_two_of_five = Ok (drop 1 rows_two_of_five)).
  { unfold image_rows.
    change (3 <=? length rows_two_of_five)%nat with true. cbv iota zeta.
    change (drop 1 (map length rows_two_of_five))
      with (map length (drop 1 rows_two_of_five)).
    by rewrite Hcommon. }
  split; [done |]. split; [done |].
  unfold guess_format.
  change (guess_header rows_two_of_five (concat rows_two_of_five))
    with (@None (fmt * Z * Z * list Z)).
  unfold guess_lines. rewrite bool_decide_eq_false_2 by done.
  rewrite Hrows. cbn [mbind result_bind]. by rewrite Hcommon.
Qed.

(** ** The decode driver and decode_block_to_png *)

Import Asm2pngs.

Lemma put_pixel_ok (h w : nat) (pix : list (list rgba)) (x y : nat) (v : rgba) :
  shaped h w pix -> (y < h)%nat -> (x < w)%nat ->
  exists pix', put_pixel pix x y v = Ok pix' /\ shaped h w pix'.
Proof.
  intros [Hh Hw] Hy Hx. unfold put_pixel.
  destruct (lookup_lt_is_Some_2 pix y) as [row Hrow]; [lia |].
  rewrite Hrow.
  assert (length row = w) as Hlen.
  { rewrite Forall_forall in Hw. apply Hw. by eapply list_elem_of_lookup_2. }
  assert ((x <? length row)%nat = true) as -> by (apply Nat.ltb_lt; lia).
  eexists. split; [reflexivity |]. split.
  - by rewrite length_insert.
  - apply Forall_insert; [done |]. by rewrite length_insert.
Qed.

(** The pens of one byte are written from [x] on, when they fit in the row. *)
Lemma decode_pens_ok (pti : gmap Z Z) (bg : option Z) (mp : Z) (h w y : nat)
    (pens : list Z) (x : nat) (pix : list (list rgba)) :
  shaped h w pix -> (y < h)%nat -> (x + length pens <= w)%nat ->
  exists pix',
    fold_left (decode_pen pti bg mp y) pens (Ok (x, pix))
    = Ok ((x + length pens)%nat, pix')
    /\ shaped h w pix'.
Proof.
  revert x pix. induction pens as [| pen pens IH]; intros x pix Hs Hy Hx.
  - exists pix. cbn. by rewrite Nat.add_0_r.
  - cbn [fold_left length] in *. unfold decode_pen at 2.
    cbn [mbind result_bind].
    destruct (put_pixel_ok h w pix x y
                (pen_to_rgba pti bg (wrap_pen mp pen)) Hs Hy)
      as (pix1 & -> & Hs1); [lia |].
    cbn [mbind result_bind].
    destruct (IH (S x) pix1 Hs1 Hy) as (pix' & -> & Hs'); [lia |].
    exists pix'. split; [| done]. do 2 f_equal. lia.
Qed.

(** [k] bytes are read from [data] and written as [k * ppb] pixels. *)
Lemma decode_bytes_ok (mode : Z) (data : list Z) (pti : gmap Z Z) (bg : option Z)
    (h w y ppb : nat) (ks : list nat) (i x : nat) (pix : list (list rgba)) :
  Z.of_nat ppb = Cpc.px_per_byte mode ->
  shaped h w pix -> (y < h)%nat ->
  (i + length ks <= length data)%nat ->
  (x + length ks * ppb <= w)%nat ->
  exists pix',
    fold_left (decode_byte mode data pti bg y) ks (Ok (i, x, pix))
    = Ok ((i + length ks)%nat, (x + length ks * ppb)%nat, pix')
    /\ shaped h w pix'.
Proof.
  intros Hppb. revert i x pix.
  induction ks as [| k ks IH]; intros i x pix Hs Hy Hi Hx.
  - exists pix. cbn. by rewrite !Nat.add_0_r.
  - cbn [fold_left length] in *. unfold decode_byte at 2.
    cbn [mbind result_bind].
    destruct (lookup_lt_is_Some_2 data i) as [d Hd]; [lia |]. rewrite Hd.
    assert (length (decode_pens mode (d .& 255)) = ppb) as Hn.
    { pose proof (decode_pens_length mode (d .& 255)). lia. }
    destruct (decode_pens_ok pti bg (max_pens mode) h w y
                (decode_pens mode (d .& 255)) x pix Hs Hy)
      as (pix1 & -> & Hs1); [lia |].
    cbn [mbind result_bind]. rewrite Hn.
    destruct (IH (S i) (x + ppb)%nat pix1 Hs1 Hy) as (pix' & -> & Hs'); [lia | lia |].
    exists pix'. split; [| done]. do 3 f_equal; lia.
Qed.

(** The rows [ys] are decoded one after the other, [wb] bytes each. *)
Lemma decode_lines_ok (mode width_bytes : Z) (data : list Z) (pti : gmap Z Z)
    (bg : option Z) (h w ppb : nat) (ys : list nat) (i : nat)
    (pix : list (list rgba)) :
  Z.of_nat ppb = Cpc.px_per_byte mode ->
  w = (Z.to_nat width_bytes * ppb)%nat ->
  shaped h w pix -> Forall (fun y => (y < h)%nat) ys ->
  (i + length ys * Z.to_nat width_bytes <= length data)%nat ->
  exists pix',
    fold_left (decode_line mode width_bytes data pti bg) ys (Ok (i, pix))
    = Ok ((i + length ys * Z.to_nat width_bytes)%nat, pix')
    /\ shaped h w pix'.
Proof.
  intros Hppb Hw. revert i pix.
  induction ys as [| y ys IH]; intros i pix Hs Hys Hi.
  - exists pix. cbn. by rewrite Nat.add_0_r.
  - apply Forall_cons_1 in Hys as [Hy Hys].
    cbn [fold_left length] in *. unfold decode_line at 2.
    cbn [mbind result_bind].
    destruct (decode_bytes_ok mode data pti bg h w y ppb
                (seq 0 (Z.to_nat width_bytes)) i 0 pix Hppb Hs Hy)
      as (pix1 & -> & Hs1); rewrite ?length_seq; [lia | lia |].
    cbn [mbind result_bind].
    destruct (IH (i + Z.to_nat width_bytes)%nat pix1 Hs1 Hys) as (pix' & -> & Hs');
      [lia |].
    exists pix'. split; [| done]. do 2 f_equal; lia.
Qed.

(** The pixel loop ends without an exception when the data holds
    [width_bytes * height] bytes, and hands over a buffer of the size asked
    from [Image.new]. *)
Lemma decode_pixels_ok (mode width_bytes height : Z) (data : list Z)
    (pti : gmap Z Z) (bg : option Z) :
  0 <= width_bytes -> 0 <= height -> width_bytes * height <= len data ->
  exists pix,
    decode_pixels mode width_bytes height data pti bg = Ok pix
    /\ shaped (Z.to_nat height) (Z.to_nat (width_bytes * Cpc.px_per_byte mode)) pix.
Proof.
  intros Hw Hh Hlen. unfold decode_pixels. cbv zeta.
  assert (exists ppb : nat, Z.of_nat ppb = Cpc.px_per_byte mode) as [ppb Hppb].
  { exists (length (decode_pens mode 0)). apply decode_pens_length. }
  destruct (decode_lines_ok mode width_bytes data pti bg
              (Z.to_nat height) (Z.to_nat (width_bytes * Cpc.px_per_byte mode)) ppb
              (seq 0 (Z.to_nat height)) 0
              (new_image (Z.to_nat (width_bytes * Cpc.px_per_byte mode))
                 (Z.to_nat height))
              Hppb)
    as (pix & -> & Hs).
  - rewrite <- Hppb. rewrite Z2Nat.inj_mul by lia. by rewrite Nat2Z.id.
  - unfold new_image. split; [by rewrite length_replicate |].
    apply Forall_replicate. by rewrite length_replicate.
  - apply Forall_forall. intros y Hy%elem_of_seq. lia.
  - rewrite length_seq. unfold len in Hlen. nia.
  - cbn [mbind result_bind]. by exists pix.
Qed.

Example decode_block_excess :
  decode_block_to_png block_excess 0 None
  = Ok (2, 2, [ [(0, 128, 0, 255); (0, 128, 0, 255)];
                [(255, 0, 0, 255); (255, 0, 0, 255)] ]).
Proof. vm_compute. reflexivity. Qed.

Example decode_block_short :
  decode_block_to_png block_short 0 None = Raise (ValueError_short 2 1).
Proof. vm_compute. reflexivity. Qed.

Example decode_block_empty :
  decode_block_to_png block_empty 0 None = Raise ValueError_no_header.
Proof. vm_compute. reflexivity. Qed.



(** *** asm2png.py from the parsed rows to the pixels *)

(** The data guess_format returns has [width_bytes * height] bytes, and the
    two sizes are not negative. *)
Lemma guess_format_data `{SetOrder} (rows : list (list Z)) (flat : list Z)
    (f : fmt) (w h : Z) (data : list Z) :
  guess_format rows flat = Ok (f, w, h, data) ->
  0 <= w /\ 0 <= h /\ len data = w * h.
Proof.
  unfold guess_format.
  destruct (guess_header rows flat) as [[[[f' w'] h'] data'] |] eqn:Hhead.
  - intros [= -> -> -> ->]. unfold guess_header in Hhead.
    destruct flat as [| w0 [| h0 rest]]; try done.
    destruct ((1 <=? w0) && (w0 <=? 255) && (1 <=? h0) && (h0 <=? 255)) eqn:Hrange;
      [| done].
    destruct (2 + w0 * h0 <=? len (w0 :: h0 :: rest)) eqn:Hfit; [| done].
    destruct (short_first_row rows); [done |].
    injection Hhead as <- <- <- <-.
    rewrite !andb_true_iff, !Z.leb_le in Hrange. apply Z.leb_le in Hfit.
    unfold len in *. cbn [length] in *.
    assert (0 <= w0 * h0) by nia.
    rewrite length_take. change (drop 0 rest) with rest.
    rewrite Nat.min_l by lia. lia.
  - unfold guess_lines. case_bool_decide; [done |].
    destruct (image_rows rows) as [img_rows |]; [| done]. cbn [mbind result_bind].
    destruct (most_common (map length img_rows)) as [wb |]; [| done].
    cbn [mbind result_bind]. intros [= <- <- <- <-].
    split; [lia |]. split; [lia |]. unfold len.
    induction (filter (fun r => (0 < length r)%nat) img_rows) as [| r l IH];
      cbn [map concat length]; [lia |].
    rewrite length_app, length_take, length_app, length_replicate. nia.
Qed.

(** Whatever guess_format returns, the pixel loop of [main] ends without an
    exception, on a buffer of the size of the image. *)
Lemma main_returns `{SetOrder} (mode : Z) (bg : option Z) (rows : list (list Z))
    (flat : list Z) (pti : gmap Z Z) (f : fmt) (w h : Z) (data : list Z) :
  guess_format rows flat = Ok (f, w, h, data) ->
  exists pix,
    Asm2png.main mode bg rows flat pti = Ok (w * Cpc.px_per_byte mode, h, pix)
    /\ shaped (Z.to_nat h) (Z.to_nat (w * Cpc.px_per_byte mode)) pix.
Proof.
  intros Hguess.
  destruct (guess_format_data rows flat f w h data Hguess) as (Hw & Hh & Hlen).
  destruct (decode_pixels_ok mode w h data pti bg) as (pix & Hpix & Hshape);
    [lia | lia | lia |].
  exists pix. split; [| done].
  unfold Asm2png.main. rewrite Hguess. cbn [mbind result_bind].
  by rewrite Hpix.
Qed.

(** A file in the layout png2asm.py writes: it is read as a header. *)
Example parse_then_guess :
  let lines :=
    [ T "; MODE 0"; T ""; T "SHIP"; T ";------ BEGIN IMAGE --------";
      T "  db 2 ; ancho en bytes"; T "  db 3 ; alto";
      T "  db 1, 2"; T "  db 3, 4"; T "  db 5, 6";
      T ";------ END IMAGE --------"; T "  ; INK 0,0" ] in
  parse_asm_flexible lines
  = Ok ([[2]; [3]; [1; 2]; [3; 4]; [5; 6]], [2; 3; 1; 2; 3; 4; 5; 6])
  /\ @guess_format some_set_order [[2]; [3]; [1; 2]; [3; 4]; [5; 6]]
       [2; 3; 1; 2; 3; 4; 5; 6]
     = Ok (header, 2, 3, [1; 2; 3; 4; 5; 6]).
Proof. vm_compute. done. Qed.

(** ** Numeric tokens of a data line *)

Example tokens_of_tail :
  findall_tokens (T " 123, -5, &7F, 0x7f, $7F")
  = [T "123"; T "-5"; T "&7F"; T "0x7f"; T "$7F"].
Proof. reflexivity. Qed.

Example line_vals_forms :
  line_vals (T "  db 123, -5, &7F, 0x7f, $7F ; INK 1,2")
  = Ok (Some [123; 251; 127; 127; 127]).
Proof. vm_compute. reflexivity. Qed.

Example line_vals_defb : line_vals (T "sprite: DEFB &ff,0x10,$0A") = Ok (Some [255; 16; 10]).
Proof. vm_compute. reflexivity. Qed.

Example line_vals_no_directive : line_vals (T "dbx 1,2,3") = Ok None.
Proof. vm_compute. reflexivity. Qed.

(** *** The four literal forms, lower-case prefix *)

(** An implication between two tests on a character, checked on the 256
    characters. *)
Lemma char_implies (P Q : ascii -> bool) :
  forallb (fun c => implb (P c) (Q c)) (map ascii_of_nat (seq 0 256)) = true ->
  forall c, P c = true -> Q c = true.
Proof.
  intros Hall c HP. rewrite forallb_forall in Hall.
  assert (Hc : implb (P c) (Q c) = true).
  { apply Hall. apply in_map_iff. exists (nat_of_ascii c). split.
    - apply ascii_nat_embedding.
    - apply in_seq. pose proof (nat_ascii_bounded c). lia. }
  by rewrite HP in Hc.
Qed.

Ltac char_fact P Q :=
  intros; apply negb_true_iff;
  apply (char_implies P (fun c => negb (Q c))); [vm_compute; reflexivity | assumption].

Lemma hex_not_plus c : is_hex c = true -> Ascii.eqb c "+" = false.
Proof. char_fact is_hex (fun c => Ascii.eqb c "+"). Qed.
Lemma hex_not_minus c : is_hex c = true -> Ascii.eqb c "-" = false.
Proof. char_fact is_hex (fun c => Ascii.eqb c "-"). Qed.
Lemma hex_not_underscore c : is_hex c = true -> Ascii.eqb c "_" = false.
Proof. char_fact is_hex (fun c => Ascii.eqb c "_"). Qed.
Lemma hex_not_amp c : is_hex c = true -> Ascii.eqb c "&" = false.
Proof. char_fact is_hex (fun c => Ascii.eqb c "&"). Qed.
Lemma hex_not_dollar c : is_hex c = true -> Ascii.eqb c "$" = false.
Proof. char_fact is_hex (fun c => Ascii.eqb c "$"). Qed.
Lemma hex_not_x c : is_hex c = true -> Ascii.eqb c "x" = false.
Proof. char_fact is_hex (fun c => Ascii.eqb c "x"). Qed.
Lemma hex_lower_not_x c : is_hex c = true -> Ascii.eqb (lower c) "x" = false.
Proof. char_fact is_hex (fun c => Ascii.eqb (lower c) "x"). Qed.
Lemma hex_value c :
  is_hex c = true ->
  match digit_value c with Some v => v <? 16 | None => false end = true.
Proof.
  apply (char_implies is_hex (fun c => match digit_value c with
                                       | Some v => v <? 16
                                       | None => false
                                       end)).
  vm_compute. reflexivity.
Qed.

Lemma digit_is_hex c : is_digit c = true -> is_hex c = true.
Proof. apply (char_implies is_digit is_hex). vm_compute. reflexivity. Qed.
Lemma digit_value_10 c :
  is_digit c = true ->
  match digit_value c with Some v => v <? 10 | None => false end = true.
Proof.
  apply (char_implies is_digit (fun c => match digit_value c with
                                         | Some v => v <? 10
                                         | None => false
                                         end)).
  vm_compute. reflexivity.
Qed.

Lemma separator_not_hex c : is_separator c = true -> is_hex c = false.
Proof. char_fact is_separator is_hex. Qed.
Lemma separator_not_digit c : is_separator c = true -> is_digit c = false.
Proof. char_fact is_separator is_digit. Qed.
Lemma separator_not_word c : is_separator c = true -> is_word c = false.
Proof. char_fact is_separator is_word. Qed.
Lemma separator_not_amp c : is_separator c = true -> Ascii.eqb c "&" = false.
Proof. char_fact is_separator (fun c => Ascii.eqb c "&"). Qed.
Lemma separator_not_dollar c : is_separator c = true -> Ascii.eqb c "$" = false.
Proof. char_fact is_separator (fun c => Ascii.eqb c "$"). Qed.
Lemma separator_not_minus c : is_separator c = true -> Ascii.eqb c "-" = false.
Proof. char_fact is_separator (fun c => Ascii.eqb c "-"). Qed.
Lemma separator_not_zero c : is_separator c = true -> Ascii.eqb c "0" = false.
Proof. char_fact is_separator (fun c => Ascii.eqb c "0"). Qed.
Lemma separator_not_x c : is_separator c = true -> Ascii.eqb c "x" = false.
Proof. char_fact is_separator (fun c => Ascii.eqb c "x"). Qed.
Lemma separator_not_semicolon c : is_separator c = true -> Ascii.eqb c ";" = false.
Proof. char_fact is_separator (fun c => Ascii.eqb c ";"). Qed.

(** The characters a literal is spelled with. *)
Lemma literal_char_plain c :
  is_hex c || Ascii.eqb c "-" || Ascii.eqb c "&" || Ascii.eqb c "$"
  || Ascii.eqb c "x" = true ->
  negb (is_space c) && negb (Ascii.eqb c ",") && negb (Ascii.eqb c ";") = true.
Proof.
  apply (char_implies
           (fun c => is_hex c || Ascii.eqb c "-" || Ascii.eqb c "&"
                     || Ascii.eqb c "$" || Ascii.eqb c "x")
           (fun c => negb (is_space c) && negb (Ascii.eqb c ",")
                     && negb (Ascii.eqb c ";"))).
  vm_compute. reflexivity.
Qed.

Lemma take_while_stop {A} (p : A -> bool) (l rest : list A) :
  forallb p l = true ->
  match rest with [] => true | c :: _ => negb (p c) end = true ->
  take_while p (l ++ rest) = l.
Proof.
  intros Hl Hrest. induction l as [| a l IH]; cbn in *.
  - destruct rest as [| c rest]; [done |]. cbn.
    apply negb_true_iff in Hrest. by rewrite Hrest.
  - apply andb_true_iff in Hl as [-> Hl]. by rewrite IH.
Qed.

Lemma drop_while_none {A} (p : A -> bool) (s : list A) :
  forallb (fun c => negb (p c)) s = true -> drop_while p s = s.
Proof.
  destruct s as [| c s]; [done |]. cbn.
  intros [Hc _]%andb_true_iff. apply negb_true_iff in Hc. by rewrite Hc.
Qed.

Lemma forallb_rev {A} (p : A -> bool) (s : list A) :
  forallb p s = true -> forallb p (rev s) = true.
Proof.
  rewrite !forallb_forall. intros Hs c Hc. apply Hs. by apply in_rev.
Qed.

(** [strip] and [rstrip(",")] leave a text without blanks or commas as it is. *)
Lemma strip_same (s : text) :
  forallb (fun c => negb (is_space c)) s = true -> strip s = s.
Proof.
  intros Hs. unfold strip.
  rewrite (drop_while_none is_space s Hs).
  rewrite drop_while_none by by apply forallb_rev.
  apply rev_involutive.
Qed.

Lemma rstrip_same (s : text) :
  forallb (fun c => negb (Ascii.eqb c ",")) s = true -> rstrip_commas s = s.
Proof.
  intros Hs. unfold rstrip_commas.
  rewrite drop_while_none by by apply forallb_rev.
  apply rev_involutive.
Qed.

(** The digit loop of [int] on plain digits of the base. *)
Lemma int_digits_value (base : Z) (ds : text) (acc : Z) (n : nat) :
  forallb (fun c => negb (Ascii.eqb c "_")
                    && match digit_value c with
                       | Some v => v <? base
                       | None => false
                       end) ds = true ->
  ds <> [] \/ n <> 0%nat ->
  int_digits base acc n false ds
  = Some (fold_left (fun a c => a * base + default 0 (digit_value c)) ds acc).
Proof.
  revert acc n. induction ds as [| c ds IH]; intros acc n Hds Hne.
  - cbn. destruct Hne as [? | Hn]; [done |].
    by destruct n.
  - cbn [forallb] in Hds. apply andb_true_iff in Hds as [Hc Hds].
    apply andb_true_iff in Hc as [Hus Hv]. apply negb_true_iff in Hus.
    cbn [int_digits fold_left]. rewrite Hus.
    destruct (digit_value c) as [v |]; [| done]. rewrite Hv.
    cbn [default]. apply IH; [done | by right].
Qed.

Lemma hex_digits_ok (hs : text) :
  forallb is_hex hs = true ->
  forallb (fun c => negb (Ascii.eqb c "_")
                    && match digit_value c with
                       | Some v => v <? 16
                       | None => false
                       end) hs = true.
Proof.
  rewrite !forallb_forall. intros Hhs c Hc. specialize (Hhs c Hc).
  by rewrite hex_not_underscore, hex_value.
Qed.

Lemma dec_digits_ok (ds : text) :
  forallb is_digit ds = true ->
  forallb (fun c => negb (Ascii.eqb c "_")
                    && match digit_value c with
                       | Some v => v <? 10
                       | None => false
                       end) ds = true.
Proof.
  rewrite !forallb_forall. intros Hds c Hc. specialize (Hds c Hc).
  rewrite (hex_not_underscore c (digit_is_hex c Hds)).
  by rewrite (digit_value_10 c Hds).
Qed.

Lemma hex_plain (hs : text) :
  forallb is_hex hs = true ->
  forallb (fun c => negb (is_space c)) hs = true
  /\ forallb (fun c => negb (Ascii.eqb c ",")) hs = true.
Proof.
  rewrite !forallb_forall. intros Hhs. split; intros c Hc.
  all: pose proof (literal_char_plain c) as Hp;
       rewrite (Hhs c Hc) in Hp; specialize (Hp eq_refl);
       apply andb_true_iff in Hp as [[? ?]%andb_true_iff _]; done.
Qed.

Lemma int_sign_hex (c : ascii) (hs : text) :
  is_hex c = true -> int_sign (c :: hs) = (false, c :: hs).
Proof.
  intros Hc. unfold int_sign.
  by rewrite (hex_not_plus c Hc), (hex_not_minus c Hc).
Qed.

Lemma int_prefix_hex (base : Z) (hs : text) :
  forallb is_hex hs = true -> int_prefix base hs = hs.
Proof.
  intros Hhs. unfold int_prefix.
  destruct hs as [| z [| x hs]]; try done.
  cbn [forallb] in Hhs. apply andb_true_iff in Hhs as [_ Hhs].
  apply andb_true_iff in Hhs as [Hx _].
  by rewrite (hex_lower_not_x x Hx), andb_false_r.
Qed.

(** [int(hs, 16)] on hexadecimal digits. *)
Lemma py_int_hex (hs : text) :
  hs <> [] -> forallb is_hex hs = true ->
  py_int 16 hs = Ok (digits_value 16 hs).
Proof.
  intros Hne Hhs. unfold py_int.
  rewrite (strip_same hs) by apply (hex_plain hs Hhs).
  destruct hs as [| c hs]; [done |].
  pose proof Hhs as Hall. cbn [forallb] in Hhs.
  apply andb_true_iff in Hhs as [Hc Hhs].
  rewrite (int_sign_hex c hs Hc), (int_prefix_hex 16 (c :: hs) Hall).
  rewrite (hex_not_underscore c Hc).
  rewrite (int_digits_value 16 (c :: hs) 0 0 (hex_digits_ok _ Hall)) by by left.
  done.
Qed.

(** [int("0x" + hs, 16)] *)
Lemma py_int_0x (hs : text) :
  hs <> [] -> forallb is_hex hs = true ->
  py_int 16 ("0"%char :: "x"%char :: hs) = Ok (digits_value 16 hs).
Proof.
  intros Hne Hhs. unfold py_int.
  rewrite strip_same.
  2:{ cbn [forallb]. by rewrite (proj1 (hex_plain hs Hhs)). }
  destruct hs as [| c hs]; [done |].
  pose proof Hhs as Hall. cbn [forallb] in Hhs.
  apply andb_true_iff in Hhs as [Hc Hhs].
  change (int_sign ("0"%char :: "x"%char :: c :: hs))
    with (false, "0"%char :: "x"%char :: c :: hs).
  cbv beta iota zeta.
  change (int_prefix 16 ("0"%char :: "x"%char :: c :: hs))
    with (if Ascii.eqb c "_" then hs else c :: hs).
  rewrite (hex_not_underscore c Hc). cbv beta iota.
  rewrite (hex_not_underscore c Hc).
  rewrite (int_digits_value 16 (c :: hs) 0 0 (hex_digits_ok _ Hall)) by by left.
  done.
Qed.

(** [int] of a decimal literal, base 10. *)
Lemma py_int_decimal (neg : bool) (ds : text) :
  ds <> [] -> forallb is_digit ds = true ->
  py_int 10 (spell (Decimal neg ds)) = Ok (literal_value (Decimal neg ds)).
Proof.
  intros Hne Hds.
  assert (Hhex : forallb is_hex ds = true).
  { rewrite forallb_forall in *. intros c Hc. by apply digit_is_hex, Hds. }
  destruct ds as [| c ds]; [done |].
  pose proof Hhex as Hall. cbn [forallb] in Hhex.
  apply andb_true_iff in Hhex as [Hc _].
  assert (Hbody :
    match int_prefix 10 (c :: ds) with
    | [] => Raise ValueError_int
    | u :: _ =>
        if Ascii.eqb u "_" then Raise ValueError_int
        else match int_digits 10 0 0 false (int_prefix 10 (c :: ds)) with
             | Some n => Ok n
             | None => Raise ValueError_int
             end
    end = Ok (digits_value 10 (c :: ds))).
  { rewrite (int_prefix_hex 10 (c :: ds) Hall), (hex_not_underscore c Hc).
    by rewrite (int_digits_value 10 (c :: ds) 0 0 (dec_digits_ok _ Hds))
      by by left. }
  unfold py_int. destruct neg; cbn [spell literal_value].
  - rewrite strip_same.
    2:{ apply forallb_forall. intros x [<- | Hx]; [reflexivity |].
        pose proof (proj1 (hex_plain _ Hall)) as Hp.
        rewrite forallb_forall in Hp. by apply Hp. }
    change (int_sign ("-"%char :: c :: ds)) with (true, c :: ds).
    cbv beta iota zeta.
    rewrite (int_prefix_hex 10 (c :: ds) Hall), (hex_not_underscore c Hc).
    by rewrite (int_digits_value 10 (c :: ds) 0 0 (dec_digits_ok _ Hds))
      by by left.
  - rewrite (strip_same (c :: ds)) by apply (hex_plain _ Hall).
    rewrite (int_sign_hex c ds Hc). exact Hbody.
Qed.

(** A well-formed literal is spelled without blanks, commas or semicolons. *)
Lemma spell_plain (t : literal) :
  literal_ok t = true ->
  spell t <> []
  /\ forallb (fun c => negb (is_space c)) (spell t) = true
  /\ forallb (fun c => negb (Ascii.eqb c ",")) (spell t) = true
  /\ forallb (fun c => negb (Ascii.eqb c ";")) (spell t) = true.
Proof.
  intros Hok.
  assert (Hchars : forallb (fun c => is_hex c || Ascii.eqb c "-" || Ascii.eqb c "&"
                                     || Ascii.eqb c "$" || Ascii.eqb c "x")
                     (spell t) = true).
  { assert (Hhex : forall hs, forallb is_hex hs = true ->
              forallb (fun c => is_hex c || Ascii.eqb c "-" || Ascii.eqb c "&"
                                || Ascii.eqb c "$" || Ascii.eqb c "x") hs = true).
    { intros hs. rewrite !forallb_forall. intros Hhs c Hc. by rewrite Hhs. }
    destruct t as [neg ds | hs | hs | hs]; cbn [literal_ok] in Hok;
      apply andb_true_iff in Hok as [_ Hok].
    - assert (forallb is_hex ds = true) as Hds.
      { rewrite forallb_forall in *. intros c Hc. by apply digit_is_hex, Hok. }
      destruct neg; cbn [spell forallb]; by rewrite ?Hhex.
    - cbn [spell forallb]. by rewrite Hhex.
    - cbn [spell forallb]. by rewrite Hhex.
    - cbn [spell forallb]. by rewrite Hhex. }
  split.
  - destruct t as [[] ds | hs | hs | hs]; cbn [spell literal_ok] in *; try done.
    destruct ds; [| done]. by rewrite bool_decide_eq_true_2 in Hok.
  - rewrite !forallb_forall in *.
    repeat split; intros c Hc; specialize (Hchars c Hc);
      apply literal_char_plain in Hchars;
      apply andb_true_iff in Hchars as [[? ?]%andb_true_iff ?]; done.
Qed.

(** [parse_num] reads a well-formed literal as the number it denotes. *)
Lemma parse_num_spell (t : literal) :
  literal_ok t = true -> parse_num (spell t) = Ok (Some (literal_value t)).
Proof.
  intros Hok. destruct (spell_plain t Hok) as (Hne & Hsp & Hcm & _).
  unfold parse_num. rewrite (strip_same _ Hsp), (rstrip_same _ Hcm).
  rewrite bool_decide_eq_false_2 by done.
  destruct t as [neg ds | hs | hs | hs]; cbn [literal_ok] in Hok;
    apply andb_true_iff in Hok as [Hnil Hds];
    apply negb_true_iff, bool_decide_eq_false in Hnil.
  - (* decimal *)
    assert (Hhex : forallb is_hex ds = true).
    { rewrite forallb_forall in *. intros c Hc. by apply digit_is_hex, Hds. }
    assert (Hint := py_int_decimal neg ds Hnil Hds).
    assert (Hfull : fullmatch_decimal (spell (Decimal neg ds)) = true).
    { unfold fullmatch_decimal. destruct neg; cbn [spell].
      - change (Ascii.eqb "-" "-") with true. cbv iota.
        rewrite bool_decide_eq_false_2 by done. by rewrite Hds.
      - destruct ds as [| c ds]; [done |].
        cbn [forallb] in Hhex. apply andb_true_iff in Hhex as [Hc _].
        rewrite (hex_not_minus c Hc).
        rewrite bool_decide_eq_false_2 by done. by rewrite Hds. }
    assert (Hother :
      startswith ["&"%char] (spell (Decimal neg ds)) = false
      /\ startswith ["0"%char; "x"%char] (map lower (spell (Decimal neg ds))) = false
      /\ startswith ["$"%char] (spell (Decimal neg ds)) = false).
    { destruct neg; cbn [spell]; [done |].
      destruct ds as [| c ds]; [done |].
      cbn [forallb] in Hhex. apply andb_true_iff in Hhex as [Hc Hhex].
      cbn [startswith map].
      rewrite (hex_not_amp c Hc), (hex_not_dollar c Hc).
      repeat split; try done.
      destruct ds as [| x ds]; [by rewrite andb_false_r |].
      cbn [forallb] in Hhex. apply andb_true_iff in Hhex as [Hx _].
      cbn [map startswith]. rewrite (hex_lower_not_x x Hx).
      by rewrite andb_false_r. }
    destruct Hother as (-> & -> & ->). by rewrite Hfull, Hint.
  - (* &hex *)
    cbn [spell literal_value].
    change (startswith ["&"%char] ("&"%char :: hs)) with true. cbv iota.
    change (drop 1 ("&"%char :: hs)) with hs.
    by rewrite (py_int_hex hs Hnil Hds).
  - (* 0x hex *)
    cbn [spell literal_value].
    change (startswith ["&"%char] ("0"%char :: "x"%char :: hs)) with false.
    change (startswith ["0"%char; "x"%char]
              (map lower ("0"%char :: "x"%char :: hs))) with true.
    cbv iota. by rewrite (py_int_0x hs Hnil Hds).
  - (* $hex *)
    cbn [spell literal_value].
    change (startswith ["&"%char] ("$"%char :: hs)) with false.
    change (startswith ["0"%char; "x"%char] (map lower ("$"%char :: hs)))
      with false.
    change (startswith ["$"%char] ("$"%char :: hs)) with true.
    cbv iota. change (drop 1 ("$"%char :: hs)) with hs.
    by rewrite (py_int_hex hs Hnil Hds).
Qed.

(** No token starts on a separator. *)
Lemma match_token_separator (c : ascii) (s : text) :
  is_separator c = true -> match_token (c :: s) = None.
Proof.
  intros Hc. unfold match_token, alt_prefixed, alt_decimal.
  cbn [startswith].
  rewrite (separator_not_amp c Hc), (separator_not_zero c Hc),
    (separator_not_dollar c Hc), (separator_not_minus c Hc).
  cbn [andb take_while]. by rewrite (separator_not_digit c Hc).
Qed.

(** At the head of a well-formed literal that ends the text or is followed
    by a separator, the pattern matches the literal, all of it. *)
Lemma match_token_spell (t : literal) (rest : text) :
  literal_ok t = true ->
  match rest with [] => true | c :: _ => is_separator c end = true ->
  match_token (spell t ++ rest) = Some (spell t).
Proof.
  intros Hok Hrest.
  assert (Hstop_hex : match rest with [] => true | c :: _ => negb (is_hex c) end = true).
  { destruct rest as [| c rest]; [done |]. by rewrite (separator_not_hex c Hrest). }
  assert (Hstop_dec : match rest with [] => true | c :: _ => negb (is_digit c) end = true).
  { destruct rest as [| c rest]; [done |]. by rewrite (separator_not_digit c Hrest). }
  unfold match_token, alt_prefixed.
  destruct t as [neg ds | hs | hs | hs]; cbn [literal_ok] in Hok;
    apply andb_true_iff in Hok as [Hnil Hds];
    apply negb_true_iff, bool_decide_eq_false in Hnil.
  - (* decimal *)
    assert (Htake : take_while is_digit (ds ++ rest) = ds)
      by by apply take_while_stop.
    destruct neg; cbn [spell].
    + change (startswith ["&"%char] (("-"%char :: ds) ++ rest)) with false.
      change (startswith ["0"%char; "x"%char] (("-"%char :: ds) ++ rest)) with false.
      change (startswith ["$"%char] (("-"%char :: ds) ++ rest)) with false.
      cbv iota. unfold alt_decimal. cbn [app].
      change (Ascii.eqb "-" "-") with true. cbv iota.
      rewrite Htake. by destruct ds.
    + destruct ds as [| c ds]; [done |].
      pose proof Hds as Hall. cbn [forallb] in Hds.
      apply andb_true_iff in Hds as [Hc Hds].
      pose proof (digit_is_hex c Hc) as Hch.
      cbn [app startswith].
      rewrite (hex_not_amp c Hch), (hex_not_dollar c Hch). cbn [andb].
      assert (Hx : Ascii.eqb c "0"
                   && match ds ++ rest with
                      | [] => false
                      | c0 :: _ => Ascii.eqb c0 "x" && true
                      end = false).
      { apply andb_false_iff. right.
        destruct ds as [| x ds]; cbn [app].
        - destruct rest as [| x rest]; [done |].
          by rewrite (separator_not_x x Hrest).
        - cbn [forallb] in Hds. apply andb_true_iff in Hds as [Hx _].
          by rewrite (hex_not_x x (digit_is_hex x Hx)). }
      rewrite Hx. unfold alt_decimal. rewrite (hex_not_minus c Hch).
      change (c :: ds ++ rest) with ((c :: ds) ++ rest). by rewrite Htake.
  - (* &hex *)
    cbn [spell app].
    change (startswith ["&"%char] ("&"%char :: hs ++ rest)) with true.
    cbv iota. change (drop (length ["&"%char]) ("&"%char :: hs ++ rest))
      with (hs ++ rest).
    rewrite (take_while_stop is_hex hs rest Hds Hstop_hex). by destruct hs.
  - (* 0x hex *)
    cbn [spell app].
    change (startswith ["&"%char] ("0"%char :: "x"%char :: hs ++ rest)) with false.
    change (startswith ["0"%char; "x"%char] ("0"%char :: "x"%char :: hs ++ rest))
      with true.
    cbv iota.
    change (drop (length ["0"%char; "x"%char]) ("0"%char :: "x"%char :: hs ++ rest))
      with (hs ++ rest).
    rewrite (take_while_stop is_hex hs rest Hds Hstop_hex). by destruct hs.
  - (* $hex *)
    cbn [spell app].
    change (startswith ["&"%char] ("$"%char :: hs ++ rest)) with false.
    change (startswith ["0"%char; "x"%char] ("$"%char :: hs ++ rest)) with false.
    change (startswith ["$"%char] ("$"%char :: hs ++ rest)) with true.
    cbv iota. change (drop (length ["$"%char]) ("$"%char :: hs ++ rest))
      with (hs ++ rest).
    rewrite (take_while_stop is_hex hs rest Hds Hstop_hex). by destruct hs.
Qed.

(** The scan passes the characters of a match without looking at them. *)
Lemma findall_skip (body rest : text) :
  findall_from (length body) (body ++ rest) = findall_from 0 rest.
Proof. induction body as [| c body IH]; [done | exact IH]. Qed.

Lemma findall_separators (sep rest : text) :
  forallb is_separator sep = true ->
  findall_from 0 (sep ++ rest) = findall_from 0 rest.
Proof.
  induction sep as [| c sep IH]; [done |]. cbn [forallb app].
  intros [Hc Hsep]%andb_true_iff.
  cbn [findall_from]. rewrite (match_token_separator c _ Hc). auto.
Qed.

Lemma findall_literal (t : literal) (rest : text) :
  literal_ok t = true ->
  match rest with [] => true | c :: _ => is_separator c end = true ->
  findall_from 0 (spell t ++ rest) = spell t :: findall_from 0 rest.
Proof.
  intros Hok Hrest.
  pose proof (match_token_spell t rest Hok Hrest) as Hm.
  destruct (spell_plain t Hok) as (Hne & _).
  destruct (spell t) as [| c body]; [done |].
  cbn [app findall_from] in *. rewrite Hm.
  change (length (c :: body) - 1)%nat with (length body - 0)%nat.
  rewrite Nat.sub_0_r. by rewrite findall_skip.
Qed.

Lemma spell_tail_cons (sep : text) (t : literal) (items : list (text * literal))
    (final : text) :
  spell_tail ((sep, t) :: items) final = sep ++ spell t ++ spell_tail items final.
Proof. unfold spell_tail. cbn [map concat]. by rewrite <- !app_assoc. Qed.

(** The text after the directive begins with a separator, if it is not empty. *)
Lemma spell_tail_head (items : list (text * literal)) (final : text) :
  items_ok items = true -> forallb is_separator final = true ->
  match spell_tail items final with [] => true | c :: _ => is_separator c end = true.
Proof.
  intros Hitems Hfinal. unfold spell_tail.
  destruct items as [| [sep t] items]; cbn [map concat app].
  - destruct final as [| c final]; [done |]. cbn [forallb] in Hfinal.
    by apply andb_true_iff in Hfinal as [? _].
  - cbn [items_ok forallb] in Hitems.
    apply andb_true_iff in Hitems as [Hit _].
    apply andb_true_iff in Hit as [[Hne Hsep]%andb_true_iff _].
    destruct sep as [| c sep]; [done |]. cbn [forallb] in Hsep.
    by apply andb_true_iff in Hsep as [? _].
Qed.

(** The tokens of the text after the directive are the literals, in order. *)
Lemma findall_spell_tail (items : list (text * literal)) (final : text) :
  items_ok items = true -> forallb is_separator final = true ->
  findall_tokens (spell_tail items final) = map (fun it => spell it.2) items.
Proof.
  intros Hitems Hfinal. unfold findall_tokens.
  induction items as [| [sep t] items IH].
  - unfold spell_tail. cbn [map concat app].
    rewrite <- (app_nil_r final). by rewrite findall_separators.
  - pose proof Hitems as Hall. cbn [items_ok forallb] in Hitems.
    apply andb_true_iff in Hitems as [Hit Hitems].
    apply andb_true_iff in Hit as [[_ Hsep]%andb_true_iff Hok].
    rewrite spell_tail_cons, (findall_separators _ _ Hsep).
    rewrite (findall_literal t _ Hok (spell_tail_head items final Hitems Hfinal)).
    cbn [map snd]. f_equal. by apply IH.
Qed.

(** The bytes appended for a list of well-formed literals. *)
Lemma token_vals_from (lits : list literal) (acc : list Z) :
  forallb literal_ok lits = true ->
  fold_left
    (fun (acc : result (list Z)) t =>
       vals ← acc;
       n ← parse_num t;
       match n with
       | Some n => Ok (vals ++ [n .& 0xFF])
       | None => Ok vals
       end)
    (map spell lits) (Ok acc)
  = Ok (acc ++ map (fun t => literal_value t mod 256) lits).
Proof.
  revert acc. induction lits as [| t lits IH]; intros acc Hok; cbn [map fold_left].
  - by rewrite app_nil_r.
  - cbn [forallb] in Hok. apply andb_true_iff in Hok as [Ht Hok].
    cbn [mbind result_bind]. rewrite (parse_num_spell t Ht).
    cbn [mbind result_bind].
    rewrite (IH _ Hok). f_equal. rewrite <- app_assoc. cbn [app]. do 2 f_equal.
    change 255 with (Z.ones 8). by rewrite Z.land_ones.
Qed.

Lemma token_vals_spell (lits : list literal) :
  forallb literal_ok lits = true ->
  token_vals (map spell lits) = Ok (map (fun t => literal_value t mod 256) lits).
Proof. intros Hok. unfold token_vals. by rewrite token_vals_from. Qed.

Lemma take_while_all {A} (p : A -> bool) (l : list A) :
  forallb p l = true -> take_while p l = l.
Proof.
  intros Hl. rewrite <- (app_nil_r l) at 1. by apply take_while_stop.
Qed.

(** The text after the directive has no semicolon. *)
Lemma spell_tail_no_comment (items : list (text * literal)) (final : text) :
  items_ok items = true -> forallb is_separator final = true ->
  forallb (fun c => negb (Ascii.eqb c ";")) (spell_tail items final) = true.
Proof.
  intros Hitems Hfinal.
  assert (Hsep : forall sep, forallb is_separator sep = true ->
            forallb (fun c => negb (Ascii.eqb c ";")) sep = true).
  { intros sep. rewrite !forallb_forall. intros Hs c Hc.
    by rewrite (separator_not_semicolon c (Hs c Hc)). }
  induction items as [| [sep t] items IH].
  - unfold spell_tail. cbn [map concat app]. by apply Hsep.
  - cbn [items_ok forallb] in Hitems.
    apply andb_true_iff in Hitems as [Hit Hitems].
    apply andb_true_iff in Hit as [[_ Hs]%andb_true_iff Hok].
    rewrite spell_tail_cons, !forallb_app.
    rewrite (Hsep _ Hs), (IH Hitems).
    by destruct (spell_plain t Hok) as (_ & _ & _ & ->).
Qed.

(** The search stops on a keyword at the very start of the text. *)
Lemma data_search_keyword (s tail : text) :
  keyword_here (T "db") s = Some tail
  \/ (keyword_here (T "db") s = None /\ keyword_here (T "defb") s = Some tail) ->
  data_search false s = Some tail.
Proof.
  intros Hkw. destruct s as [| c s].
  - by destruct Hkw as [Hkw | [_ Hkw]].
  - cbn [data_search]. change ["d"%char; "b"%char] with (T "db").
    change ["d"%char; "e"%char; "f"%char; "b"%char] with (T "defb").
    destruct Hkw as [-> | [-> ->]]; done.
Qed.

(** A data line: [db], then literals in the four forms, each after blanks,
    tabs or commas.  The scan finds the literals, in order, and the line
    yields their values modulo 256. *)
Lemma line_vals_literals (items : list (text * literal)) (final : text) :
  items_ok items = true -> forallb is_separator final = true ->
  findall_tokens (spell_tail items final) = map (fun it => spell it.2) items
  /\ line_vals (T "db" ++ spell_tail items final)
     = Ok (Some (map (fun it => literal_value it.2 mod 256) items))
  /\ line_vals (T "  defb" ++ spell_tail items final)
     = Ok (Some (map (fun it => literal_value it.2 mod 256) items)).
Proof.
  intros Hitems Hfinal.
  pose proof (findall_spell_tail items final Hitems Hfinal) as Htok.
  pose proof (spell_tail_head items final Hitems Hfinal) as Hhead.
  pose proof (spell_tail_no_comment items final Hitems Hfinal) as Hnc.
  assert (Hvals : token_vals (findall_tokens (spell_tail items final))
                  = Ok (map (fun it => literal_value it.2 mod 256) items)).
  { rewrite Htok.
    rewrite <- (map_map snd spell), token_vals_spell, map_map; [done |].
    rewrite forallb_forall. intros t [[sep t'] [<- Hin]]%in_map_iff.
    unfold items_ok in Hitems. rewrite forallb_forall in Hitems.
    specialize (Hitems _ Hin). cbv beta iota in Hitems.
    by apply andb_true_iff in Hitems as [_ ?]. }
  split; [done |].
  assert (Hafter : forall kw : text,
            startswith kw (map lower (take (length kw) (kw ++ spell_tail items final)))
            = true ->
            keyword_here kw (kw ++ spell_tail items final)
            = Some (spell_tail items final)).
  { intros kw Hsw. unfold keyword_here. rewrite Hsw.
    rewrite drop_app_length.
    destruct (spell_tail items final) as [| c tl]; [done |].
    by rewrite (separator_not_word c Hhead). }
  split.
  - unfold line_vals, before_comment.
    rewrite take_while_all by (rewrite forallb_app; by rewrite Hnc).
    rewrite (data_search_keyword (T "db" ++ spell_tail items final)
               (spell_tail items final)); [by rewrite Hvals |].
    left. by apply (Hafter (T "db")).
  - unfold line_vals, before_comment.
    rewrite take_while_all by (rewrite forallb_app; by rewrite Hnc).
    change (data_search false (T "  defb" ++ spell_tail items final))
      with (data_search false (T "defb" ++ spell_tail items final)).
    rewrite (data_search_keyword (T "defb" ++ spell_tail items final)
               (spell_tail items final)); [by rewrite Hvals |].
    right. split; [reflexivity |]. by apply (Hafter (T "defb")).
Qed.

(** The line of the examples above, as an instance. *)
Example line_vals_literals_ex :
  line_vals (T "db 123, -5, &7F, 0x7f, $7F") = Ok (Some [123; 251; 127; 127; 127]).
Proof.
  pose proof (line_vals_literals
                [ (T " ", Decimal false (T "123")); (T ", ", Decimal true (T "5"));
                  (T ", ", AmpHex (T "7F")); (T ", ", ZeroXHex (T "7f"));
                  (T ", ", DollarHex (T "7F")) ] [] eq_refl eq_refl)
    as (_ & Hline & _).
  exact Hline.
Qed.

(** C9. The literal forms [123], [-5], [&7F], [0x7F], [$7F] are read, with
    hexadecimal digits of either case ([line_vals_literals]), but not the
    upper-case prefix: [parse_num] itself takes [0X7F] for 127, yet the
    token pattern has a lower-case [0x] only, so the scan cuts [0X7F] into
    the decimals 0 and 7 and the line yields the bytes 0 and 7 instead of
    127.  The lower-case spelling gives 127. *)
Theorem uppercase_hex_prefix_split :
  parse_num (T "0X7F") = Ok (Some 127)
  /\ findall_tokens (T " 0X7F") = [T "0"; T "7"]
  /\ line_vals (T "  db 0X7F") = Ok (Some [0; 7])
  /\ line_vals (T "  db 0x7F") = Ok (Some [127]).
Proof. vm_compute. done. Qed.

(** ** The codec on arbitrary integers *)

(** The bit the codec reads at position [k] is the binary digit [k]. *)
Lemma bit_testbit (x k : Z) : 0 <= k -> (x .>> k) .& 1 = Z.b2z (Z.testbit x k).
Proof.
  intros Hk. rewrite (Z.land_ones _ 1) by lia.
  change (2 ^ 1) with 2. rewrite <- Z.bit0_mod.
  by rewrite Z.shiftr_spec by lia.
Qed.

(** A mask that has the bit [k] leaves the bit [k] as it is. *)
Lemma bit_under_mask (x m k : Z) :
  0 <= k -> Z.testbit m k = true -> ((x .& m) .>> k) .& 1 = (x .>> k) .& 1.
Proof.
  intros Hk Hm. rewrite !bit_testbit by done.
  by rewrite Z.land_spec, Hm, andb_true_r.
Qed.

Lemma land1_cases (p : Z) : p .& 1 = 0 \/ p .& 1 = 1.
Proof. apply (bit_cases p 0). Qed.

Lemma pack_mode0_byte (p0 p1 : Z) : 0 <= pack_mode0 p0 p1 <= 255.
Proof.
  unfold pack_mode0.
  destruct (bit_cases p0 0) as [-> | ->]; destruct (bit_cases p0 1) as [-> | ->];
  destruct (bit_cases p0 2) as [-> | ->]; destruct (bit_cases p0 3) as [-> | ->];
  destruct (bit_cases p1 0) as [-> | ->]; destruct (bit_cases p1 1) as [-> | ->];
  destruct (bit_cases p1 2) as [-> | ->]; destruct (bit_cases p1 3) as [-> | ->];
  vm_compute; split; congruence.
Qed.

Lemma pack_mode1_byte (p0 p1 p2 p3 : Z) : 0 <= pack_mode1 p0 p1 p2 p3 <= 255.
Proof.
  unfold pack_mode1.
  destruct (bit_cases p0 0) as [-> | ->]; destruct (bit_cases p0 1) as [-> | ->];
  destruct (bit_cases p1 0) as [-> | ->]; destruct (bit_cases p1 1) as [-> | ->];
  destruct (bit_cases p2 0) as [-> | ->]; destruct (bit_cases p2 1) as [-> | ->];
  destruct (bit_cases p3 0) as [-> | ->]; destruct (bit_cases p3 1) as [-> | ->];
  vm_compute; split; congruence.
Qed.

(** X1. [pack_mode0] and [pack_mode1] read nothing but the low bits of each
    pen (four in mode 0, two in mode 1) and always give a byte, whatever
    integers they are handed. *)
Theorem pack_reads_low_bits (p0 p1 q0 q1 q2 q3 : Z) :
  0 <= pack_mode0 p0 p1 <= 255
  /\ pack_mode0 p0 p1 = pack_mode0 (p0 .& 15) (p1 .& 15)
  /\ 0 <= pack_mode1 q0 q1 q2 q3 <= 255
  /\ pack_mode1 q0 q1 q2 q3 = pack_mode1 (q0 .& 3) (q1 .& 3) (q2 .& 3) (q3 .& 3).
Proof.
  split; [apply pack_mode0_byte |].
  split; [| split; [apply pack_mode1_byte |]].
  - unfold pack_mode0. by rewrite !(bit_under_mask _ 15) by done.
  - unfold pack_mode1. by rewrite !(bit_under_mask _ 3) by done.
Qed.

(** Once an iteration has raised, the loop stays raised. *)
Lemma fold_left_Raise {S X} (f : result S -> X -> result S) (e : exn) :
  (forall x, f (Raise e) x = Raise e) ->
  forall l, fold_left f l (Raise e) = Raise e.
Proof.
  intros Hf l. induction l as [| x l IH]; cbn; [done |]. by rewrite Hf.
Qed.

Lemma pack_mode2_short (pxs : list Z) :
  (length pxs <= 8)%nat ->
  exists b, pack_mode2 pxs = Ok b /\ 0 <= b <= 255
            /\ pack_mode2 (pxs ++ replicate (8 - length pxs) 0) = Ok b.
Proof.
  intros Hlen.
  destruct pxs as [| a0 [| a1 [| a2 [| a3 [| a4 [| a5 [| a6 [| a7 [| a8 pxs]]]]]]]]];
    cbn [length] in Hlen; try lia;
    unfold pack_mode2; cbn [length app replicate Nat.sub enumerate seq map combine
                              fold_left mbind result_bind];
    repeat match goal with
           | |- context [?p .& 1] =>
               is_var p; destruct (land1_cases p) as [-> | ->]
           end;
    eexists; (split; [reflexivity |]); split; vm_compute; try split; congruence.
Qed.

Lemma pack_mode2_long (pxs : list Z) :
  (8 < length pxs)%nat -> pack_mode2 pxs = Raise ValueError_shift.
Proof.
  intros Hlen.
  do 9 (destruct pxs as [| ? pxs]; [cbn [length] in Hlen; lia |]).
  unfold pack_mode2.
  cbn [length enumerate seq map combine fold_left].
  repeat match goal with
         | |- context [?p .& 1] =>
             is_var p; destruct (land1_cases p) as [-> | ->]
         end;
    cbn [mbind result_bind py_shl Z.ltb Z.sub Z.add Z.opp Z.compare Z.pos_sub
           Pos.compare Pos.compare_cont Z.of_nat Pos.of_succ_nat Pos.succ Z.succ_double
           Z.pred_double Z.double Pos.pred_double];
    apply fold_left_Raise; by intros [i p].
Qed.

(** X2. [pack_mode2] takes at most eight pixels: a shorter list is packed as
    if zeros followed it, into a byte; a longer one makes the shift count
    negative and Python raises. *)
Theorem pack_mode2_at_most_eight (pxs : list Z) :
  ((length pxs <= 8)%nat ->
     exists b, pack_mode2 pxs = Ok b /\ 0 <= b <= 255
               /\ pack_mode2 (pxs ++ replicate (8 - length pxs) 0) = Ok b)
  /\ ((8 < length pxs)%nat -> pack_mode2 pxs = Raise ValueError_shift).
Proof. split; [apply pack_mode2_short | apply pack_mode2_long]. Qed.

(** The decoders look at the bits 0 .. 7 only. *)
Lemma decode_pens_low_byte (mode b : Z) :
  decode_pens mode (b .& 0xFF) = decode_pens mode b.
Proof.
  unfold decode_pens.
  destruct (mode =? 0); [| destruct (mode =? 1)].
  - unfold decode_mode0. by rewrite !(bit_under_mask _ 255) by done.
  - unfold decode_mode1. by rewrite !(bit_under_mask _ 255) by done.
  - rewrite !decode_mode2_bits. by rewrite !(bit_under_mask _ 255) by done.
Qed.

(** X3. The decoders read the low eight bits of their argument only, so the
    mask [data[i] & 0xFF] of the drivers changes nothing, whatever integer
    the data holds: a byte and the same byte plus any multiple of 256, or
    a negative number with the same low bits, unpack to the same pens. *)
Theorem decode_reads_low_byte (mode b k : Z) :
  decode_pens mode (b .& 0xFF) = decode_pens mode b
  /\ decode_pens mode (b + 256 * k) = decode_pens mode b.
Proof.
  split; [apply decode_pens_low_byte |].
  rewrite <- (decode_pens_low_byte mode (b + 256 * k)).
  rewrite <- (decode_pens_low_byte mode b).
  f_equal. change 255 with (Z.ones 8). rewrite !Z.land_ones by lia.
  change (2 ^ 8) with 256. rewrite Z.mul_comm. apply Z_mod_plus_full.
Qed.

(** ** The palette as the decoders use it *)

(** Every ink of [0 .. 26] has a colour. *)
Lemma INK_RGB_total (ink : Z) :
  0 <= ink <= 26 -> exists c, dict_find INK_RGB ink = Some c.
Proof.
  intros Hink.
  pose (P := fun i => match dict_find INK_RGB i with Some _ => true | None => false end).
  assert (HP : P ink = true).
  { apply (below_cases P 27); [vm_compute; reflexivity | lia]. }
  unfold P in HP. destruct (dict_find INK_RGB ink) as [c |]; [by exists c | done].
Qed.

(** The keys of the palette are the inks [0 .. 26]. *)
Lemma INK_RGB_keys (k : Z) (c : rgb) : In (k, c) INK_RGB -> 0 <= k <= 26.
Proof.
  intros Hin.
  assert (Hall : forallb (fun '(k, _) => (0 <=? k) && (k <=? 26)) INK_RGB = true)
    by (vm_compute; reflexivity).
  rewrite forallb_forall in Hall. specialize (Hall _ Hin). cbv beta iota in Hall.
  apply andb_true_iff in Hall as [H0 H1].
  apply Z.leb_le in H0, H1. lia.
Qed.

(** [max(0, min(26, ink))] *)
Lemma clamp_ink_range (ink : Z) : 0 <= Z.max 0 (Z.min 26 ink) <= 26.
Proof. lia. Qed.

(** The colour [pen_to_rgba] answers with, for the ink it settles on. *)
Lemma pen_to_rgba_spec (pti : gmap Z Z) (bg : option Z) (pen : Z) :
  exists r g b,
    dict_find INK_RGB (Z.max 0 (Z.min 26 (default (default pen bg) (pti !! pen))))
    = Some (r, g, b)
    /\ pen_to_rgba pti bg pen = (r, g, b, 255).
Proof.
  destruct (INK_RGB_total (Z.max 0 (Z.min 26 (default (default pen bg) (pti !! pen)))))
    as [[[r g] b] Hc]; [apply clamp_ink_range |].
  exists r, g, b. split; [done |].
  unfold pen_to_rgba.
  replace (match pti !! pen with
           | Some ink0 => ink0
           | None => match bg with Some bg0 => bg0 | None => pen end
           end) with (default (default pen bg) (pti !! pen)).
  - by rewrite Hc.
  - destruct (pti !! pen); [done |]. by destruct bg.
Qed.

(** X4. [pen_to_rgba] always answers with a colour of the palette, opaque:
    the ink is the block's hint for the pen, else the background ink, else
    the pen itself; it is clamped to [0 .. 26] (a negative ink gives the
    colour of ink 0, one above 26 that of ink 26), so the lookup in
    [INK_RGB] always finds it and the black default of [.get] is never
    taken. *)
Theorem pen_to_rgba_on_palette (pti : gmap Z Z) (bg : option Z) (pen : Z) :
  let chosen := default (default pen bg) (pti !! pen) in
  let ink := if chosen <? 0 then 0 else if 26 <? chosen then 26 else chosen in
  exists r g b,
    ink_to_rgb ink = Ok (r, g, b)
    /\ pen_to_rgba pti bg pen = (r, g, b, 255).
Proof.
  intros chosen ink.
  assert (Hclamp : Z.max 0 (Z.min 26 chosen) = ink).
  { subst ink. destruct (chosen <? 0) eqn:E0; [apply Z.ltb_lt in E0; lia |].
    apply Z.ltb_ge in E0.
    destruct (26 <? chosen) eqn:E1; [apply Z.ltb_lt in E1 | apply Z.ltb_ge in E1]; lia. }
  destruct (pen_to_rgba_spec pti bg pen) as (r & g & b & Hc & Hpen).
  fold chosen in Hc. rewrite Hclamp in Hc.
  exists r, g, b. split; [| done].
  unfold ink_to_rgb, dict_item. by rewrite Hc.
Qed.

(** ** [nearest_ink] on any integers *)

(** X5. What [nearest_ink] returns is an ink of [0 .. 26], for any integer
    channels and tolerance; when the tolerance is not negative, the colour
    of that ink is within the tolerance on each channel.  The tolerance
    only decides between returning and raising, never which ink: the call
    with tolerance -1 (the encoder's retry) and every call with a larger
    tolerance return the same ink. *)
Theorem nearest_ink_returns_palette_ink (r g b tol k : Z) :
  nearest_ink (r, g, b) tol = Ok k ->
  0 <= k <= 26
  /\ (exists c, ink_to_rgb k = Ok c /\ (0 <= tol -> channel_gap (r, g, b) c <= tol))
  /\ (forall tol', tol' < 0 \/ 0 <= tol <= tol' -> nearest_ink (r, g, b) tol' = Ok k).
Proof.
  intros Hret.
  destruct (nearest_ink_cases r g b tol) as (c & Hc & Hcase).
  rewrite Hret in Hcase.
  destruct ((0 <=? tol) && (tol <? channel_gap (r, g, b) c)) eqn:E; [done |].
  injection Hcase as ->.
  split; [apply dict_find_In in Hc; by apply INK_RGB_keys in Hc |].
  split.
  - exists c. split; [unfold ink_to_rgb, dict_item; by rewrite Hc |].
    intros Htol. apply andb_false_iff in E as [E | E].
    + apply Z.leb_gt in E. lia.
    + apply Z.ltb_ge in E. lia.
  - intros tol' Htol'.
    destruct (nearest_ink_cases r g b tol') as (c' & Hc' & ->).
    assert (c' = c) as -> by congruence.
    destruct ((0 <=? tol') && (tol' <? channel_gap (r, g, b) c)) eqn:E'; [| done].
    apply andb_true_iff in E' as [E1 E2].
    apply Z.leb_le in E1. apply Z.ltb_lt in E2.
    apply andb_false_iff in E as [E | E];
      [apply Z.leb_gt in E | apply Z.ltb_ge in E]; lia.
Qed.

Lemma nearest_ink_returns_palette_ink_witness :
  0 <= 13 <= 26
  /\ (exists c, ink_to_rgb 13 = Ok c /\ (0 <= 8 -> channel_gap (130, 125, 128) c <= 8))
  /\ (forall tol', tol' < 0 \/ 0 <= 8 <= tol' -> nearest_ink (130, 125, 128) tol' = Ok 13).
Proof.
  apply (nearest_ink_returns_palette_ink 130 125 128 8 13).
  vm_compute. reflexivity.
Defined.

(** ** The batch of png2asm.py as a whole *)

Lemma main_loop_summary (spec : ModeSpec) (tol : Z) (tink : option Z)
    (pngs : list png) (st : batch) :
  map s_png (summary (main_loop spec tol tink st pngs))
  = map s_png (summary st) ++ map rel pngs
  /\ map s_label (summary (main_loop spec tol tink st pngs))
     = map s_label (summary st) ++ map Png2asm.label pngs
  /\ map s_status (summary (main_loop spec tol tink st pngs))
     = map s_status (summary st)
       ++ map (fun p => match convert_png_to_rows (img p) spec tol tink with
                        | Ok _ => OK
                        | Raise e => ERROR e
                        end) pngs.
Proof.
  revert st. induction pngs as [| p pngs IH]; intros st.
  - cbn. by rewrite !app_nil_r.
  - unfold main_loop in *. cbn [fold_left].
    destruct (IH (main_step spec tol tink st p)) as (-> & -> & ->).
    unfold main_step.
    cbn [map].
    destruct (convert_png_to_rows (img p) spec tol tink)
      as [[[[[wb h] rows] used] auto] | e];
      cbn [summary]; rewrite !map_app; cbn [map s_png s_label s_status error_row];
      by rewrite <- !app_assoc.
Qed.

(** X6. The batch of png2asm.py accounts for every PNG it was given: the two
    counters add up to the number of files; the summary has one row per
    file, in the order of the files, with [OK] or the error the conversion
    raised; the file written is the mode line, then the blocks of the
    images that converted, in order, then the index with a line for every
    file, converted or not. *)
Theorem batch_accounts_for_every_png (spec : ModeSpec) (tol : Z) (tink : option Z)
    (pngs : list png) :
  let r := Png2asm.main spec tol tink pngs in
  (converted_ok r + converted_fail r = length pngs)%nat
  /\ converted_ok r = length (filter (fun p => converts spec tol tink p) pngs)
  /\ map s_png (summary r) = map rel pngs
  /\ map s_label (summary r) = map Png2asm.label pngs
  /\ map s_status (summary r)
     = map (fun p => match convert_png_to_rows (img p) spec tol tink with
                     | Ok _ => OK
                     | Raise e => ERROR e
                     end) pngs
  /\ out r = [W_mode (mode spec)]
             ++ flat_map (image_writes spec tol tink) pngs
             ++ [W_index_header]
             ++ map (fun p => W_index (Png2asm.label p) (rel p)) pngs.
Proof.
  intros r. subst r. unfold Png2asm.main.
  cbn [converted_ok converted_fail summary out].
  destruct (main_loop_counts spec tol tink pngs (batch_start spec)) as [-> ->].
  destruct (main_loop_summary spec tol tink pngs (batch_start spec)) as (-> & -> & ->).
  rewrite main_loop_out. cbn [batch_start converted_ok converted_fail summary out map app].
  repeat split; try done.
  induction pngs as [| p pngs IH]; [done |].
  rewrite !filter_cons. destruct (converts spec tol tink p); cbn [negb];
    repeat case_decide; try done; cbn [length]; lia.
Qed.

(** ** What the conversion of an image returns *)

(** Writing [f x] at every index [x] of [xs]. *)
Lemma fill_lookup {A} (f : nat -> A) (xs : list nat) (row : list A) (i : nat) :
  fold_left (fun r x => <[x := f x]> r) xs row !! i
  = if bool_decide (i ∈ xs /\ (i < length row)%nat) then Some (f i) else row !! i.
Proof.
  revert row. induction xs as [| x xs IH]; intros row; cbn [fold_left].
  - rewrite bool_decide_eq_false_2; [done |]. intros [[]%elem_of_nil _].
  - rewrite IH, length_insert, list_lookup_insert.
    destruct (decide (x = i)) as [-> | Hne].
    + destruct (decide (i < length row)%nat) as [Hlt | Hge].
      * rewrite (bool_decide_eq_true_2 (i ∈ i :: xs /\ _)) by (split; [left | done]).
        rewrite decide_True by done. by case_bool_decide.
      * rewrite !bool_decide_eq_false_2 by tauto. by rewrite decide_False by tauto.
    + rewrite decide_False by tauto.
      case_bool_decide as Hin.
      * destruct Hin as [Hin Hlt].
        rewrite bool_decide_eq_true_2; [done |]. split; [by right | done].
      * rewrite bool_decide_eq_false_2; [done |].
        rewrite elem_of_cons. intros [[-> | ?] ?]; tauto.
Qed.

(** The inner loop of the pixel scan touches the row [y] only. *)
Lemma fill_row_lookup {A} (f : nat -> A) (y : nat) (xs : list nat)
    (g : list (list A)) (j : nat) :
  fold_left (fun g x => alter (fun row => <[x := f x]> row) y g) xs g !! j
  = if decide (j = y)
    then fold_left (fun r x => <[x := f x]> r) xs <$> g !! y
    else g !! j.
Proof.
  revert g. induction xs as [| x xs IH]; intros g; cbn [fold_left].
  - case_decide; [subst; by destruct (g !! y) | done].
  - rewrite IH. case_decide.
    + rewrite list_lookup_alter_eq. by destruct (g !! y).
    + by rewrite list_lookup_alter_ne.
Qed.

(** The two nested loops, on rows that are visited once each. *)
Lemma fill_grid_lookup {A} (f : nat -> nat -> A) (xs ys : list nat)
    (g : list (list A)) (j : nat) :
  NoDup ys ->
  fold_left (fun g y =>
               fold_left (fun g x => alter (fun row => <[x := f x y]> row) y g) xs g)
            ys g !! j
  = if bool_decide (j ∈ ys)
    then fold_left (fun r x => <[x := f x j]> r) xs <$> g !! j
    else g !! j.
Proof.
  intros Hnd. revert g.
  induction ys as [| y ys IH]; intros g; cbn [fold_left].
  - rewrite bool_decide_eq_false_2; [done | apply not_elem_of_nil].
  - apply NoDup_cons in Hnd as [Hy Hnd]. rewrite (IH Hnd).
    rewrite (fill_row_lookup (fun x => f x y)).
    destruct (decide (j = y)) as [-> | Hne].
    + rewrite (bool_decide_eq_false_2 (y ∈ ys)) by done.
      by rewrite (bool_decide_eq_true_2 (y ∈ y :: ys)) by left.
    + case_bool_decide as Hin.
      * by rewrite (bool_decide_eq_true_2 (j ∈ y :: ys)) by by right.
      * rewrite (bool_decide_eq_false_2 (j ∈ y :: ys)); [done |].
        rewrite elem_of_cons. tauto.
Qed.

(** The grid after the pixels [xs] of row [y]. *)
Lemma scan_pixels_grid (im : image) (tol : Z) (tink : option Z) (y : nat)
    (xs : list nat) (st : scan_state) :
  exists st',
    fold_left (scan_pixel im tol tink y) xs (Ok st) = Ok st'
    /\ ink_grid st' =
       fold_left (fun g x =>
                    alter (fun row => <[x := resolved_ink tink (px im x y)]> row) y g)
                 xs (ink_grid st).
Proof.
  revert st. induction xs as [| x xs IH]; intros st; cbn [fold_left].
  - by exists st.
  - unfold scan_pixel at 2. cbn [mbind result_bind].
    rewrite pixel_ink_spec. cbn [mbind result_bind pr_ink pr_fallback pr_calls].
    match goal with
    | |- context [fold_left _ xs (Ok ?s)] => destruct (IH s) as (st' & -> & Hg)
    end.
    exists st'. by rewrite Hg.
Qed.

Lemma scan_rows_grid (im : image) (tol : Z) (tink : option Z)
    (ys : list nat) (st : scan_state) :
  exists st',
    fold_left (scan_row im tol tink) ys (Ok st) = Ok st'
    /\ ink_grid st' =
       fold_left (fun g y =>
                    fold_left (fun g x =>
                                 alter (fun row =>
                                          <[x := resolved_ink tink (px im x y)]> row) y g)
                              (seq 0 (img_w im)) g)
                 ys (ink_grid st).
Proof.
  revert st. induction ys as [| y ys IH]; intros st; cbn [fold_left].
  - by exists st.
  - unfold scan_row at 2.
    destruct (scan_pixels_grid im tol tink y (seq 0 (img_w im)) st) as (st1 & -> & Hg1).
    destruct (IH st1) as (st' & -> & Hg).
    exists st'. by rewrite Hg, Hg1.
Qed.

(** After the pixel loop the grid holds, at row [y] and column [x], the ink
    the pixel [(x, y)] resolves to. *)
Lemma scan_image_grid (im : image) (tol : Z) (tink : option Z) (st : scan_state)
    (x y : nat) :
  scan_image im tol tink = Ok st ->
  (x < img_w im)%nat -> (y < img_h im)%nat ->
  exists row, ink_grid st !! y = Some row
              /\ row !! x = Some (resolved_ink tink (px im x y)).
Proof.
  intros Hst Hx Hy. unfold scan_image in Hst.
  match type of Hst with
  | fold_left _ _ (Ok ?s) = _ =>
      destruct (scan_rows_grid im tol tink (seq 0 (img_h im)) s) as (st' & Hst' & Hg)
  end.
  assert (st' = st) as -> by congruence.
  cbn [ink_grid] in Hg.
  pose proof (fill_grid_lookup (fun x y => resolved_ink tink (px im x y))
                (seq 0 (img_w im)) (seq 0 (img_h im))
                (replicate (img_h im) (replicate (img_w im) 0)) y
                (NoDup_seq _ _)) as Hrow.
  cbv beta in Hrow. rewrite <- Hg in Hrow.
  rewrite bool_decide_eq_true_2 in Hrow by (apply elem_of_seq; lia).
  rewrite lookup_replicate_2 in Hrow by done. cbn [fmap option_fmap option_map] in Hrow.
  eexists. split; [exact Hrow |].
  rewrite fill_lookup, length_replicate.
  rewrite bool_decide_eq_true_2; [done |]. split; [apply elem_of_seq; lia | done].
Qed.

(** [ink_to_pen] gives each ink of [used_inks] its position. *)
Lemma ink_to_pen_from (l : list Z) (a : nat) (m : gmap Z Z) (pen : nat) (ink : Z) :
  NoDup l -> l !! pen = Some ink ->
  fold_left (fun m '(pen, ink) => <[ink := pen]> m)
            (combine (map Z.of_nat (seq a (length l))) l) m !! ink
  = Some (Z.of_nat (a + pen)).
Proof.
  revert a m pen. induction l as [| i l IH]; intros a m pen Hnd Hpen; [done |].
  apply NoDup_cons in Hnd as [Hi Hnd].
  cbn [length seq map combine fold_left].
  destruct pen as [| pen]; cbn in Hpen.
  - injection Hpen as ->.
    assert (Hkeep : forall (t : list (Z * Z)) (m' : gmap Z Z),
              ink ∉ map snd t ->
              fold_left (fun m '(pen, ink) => <[ink := pen]> m) t m' !! ink = m' !! ink).
    { induction t as [| [p k] t IHt]; intros m' Hnot; cbn [fold_left]; [done |].
      cbn [map snd] in Hnot. rewrite not_elem_of_cons in Hnot.
      rewrite IHt by tauto. apply lookup_insert_ne. intros ->. tauto. }
    rewrite Hkeep.
    + rewrite lookup_insert_eq. do 2 f_equal. lia.
    + intros Hin. apply Hi. apply list_elem_of_In in Hin. apply list_elem_of_In.
      apply in_map_iff in Hin as [[p k] [<- Hin]]. cbn.
      by apply in_combine_r in Hin.
  - rewrite (IH (S a) _ pen Hnd Hpen). do 2 f_equal. lia.
Qed.

Lemma make_ink_to_pen_lookup (used : list Z) (pen : nat) (ink : Z) :
  NoDup used -> used !! pen = Some ink ->
  make_ink_to_pen used !! ink = Some (Z.of_nat pen).
Proof.
  intros Hnd Hpen. unfold make_ink_to_pen, enumerate.
  by rewrite (ink_to_pen_from used 0 ∅ pen ink Hnd Hpen).
Qed.

(** [[f(a) for a in l]] when no call raises. *)
Lemma mapR_Forall2 {A B} (f : A -> result B) (R : A -> B -> Prop) (l : list A) :
  (forall a, a ∈ l -> exists b, f a = Ok b /\ R a b) ->
  exists bs, mapR f l = Ok bs /\ Forall2 R l bs.
Proof.
  induction l as [| a l IH]; intros Hf; cbn [mapR].
  - exists []. split; [done | constructor].
  - destruct (Hf a) as (b & -> & Hb); [left |].
    destruct IH as (bs & -> & Hbs); [intros a' Ha'; apply Hf; by right |].
    exists (b :: bs). split; [done | by constructor].
Qed.

Lemma MODE_SPECS_cases (m : Z) (spec : ModeSpec) :
  dict_find MODE_SPECS m = Some spec ->
  (m = 0 /\ spec = Build_ModeSpec 0 16 2 4)
  \/ (m = 1 /\ spec = Build_ModeSpec 1 4 4 2)
  \/ (m = 2 /\ spec = Build_ModeSpec 2 2 8 1).
Proof.
  unfold MODE_SPECS. cbn [dict_find].
  destruct (0 =? m) eqn:E0; [apply Z.eqb_eq in E0; intros [= <-]; auto |].
  destruct (1 =? m) eqn:E1; [apply Z.eqb_eq in E1; intros [= <-]; auto |].
  destruct (2 =? m) eqn:E2; [apply Z.eqb_eq in E2; intros [= <-]; auto |].
  done.
Qed.

(** [range(0, w, step)] when [step] divides [w]. *)
Lemma range_step_exact (w step : nat) :
  (0 < step)%nat -> (w mod step = 0)%nat ->
  range_step w step = map (fun k => (k * step)%nat) (seq 0 (w / step)).
Proof.
  intros Hstep Hmod. unfold range_step. do 2 f_equal.
  pose proof (Nat.div_mod_eq w step) as Hw. rewrite Hmod, Nat.add_0_r in Hw.
  rewrite Hw at 1.
  replace (step * (w / step) + step - 1)%nat
    with ((step - 1) + (w / step) * step)%nat by lia.
  rewrite Nat.div_add by lia.
  rewrite Nat.div_small by lia. done.
Qed.

Section Conversion.
Variables (im : image) (tol : Z) (tink : option Z) (st : scan_state).
Hypothesis Hscan : scan_image im tol tink = Ok st.

Lemma used_inks_NoDup : NoDup (used_inks st).
Proof using Hscan.
  destruct (scan_image_spec im tol tink) as (st' & Hst' & Hu & _).
  assert (st' = st) as -> by congruence.
  rewrite Hu. apply register_inks_spec. constructor.
Qed.

(** Every pixel's ink is in [used_inks], at one position: its pen. *)
Lemma pen_at_ok (x y : nat) :
  (x < img_w im)%nat -> (y < img_h im)%nat ->
  exists pen : nat,
    used_inks st !! pen = Some (resolved_ink tink (px im x y))
    /\ pen_at (ink_grid st) (make_ink_to_pen (used_inks st)) y x = Ok (Z.of_nat pen).
Proof using Hscan.
  intros Hx Hy.
  destruct (scan_image_grid im tol tink st x y Hscan Hx Hy) as (row & Hrow & Hink).
  assert (Helem : resolved_ink tink (px im x y) ∈ used_inks st).
  { destruct (scan_image_spec im tol tink) as (st' & Hst' & Hu & _).
    assert (st' = st) as -> by congruence.
    rewrite Hu. apply register_inks_spec; [constructor |]. right.
    apply list_elem_of_In, in_map. unfold scan_order.
    apply in_flat_map. exists y. split; [apply in_seq; lia |].
    apply (in_map (fun x => px im x y)), in_seq. lia. }
  apply list_elem_of_lookup_1 in Helem as [pen Hpen].
  exists pen. split; [done |].
  unfold pen_at. rewrite Hrow, Hink.
  by rewrite (make_ink_to_pen_lookup _ _ _ used_inks_NoDup Hpen).
Qed.

Lemma pack_row_mode0 (y : nat) :
  (img_w im mod 2 = 0)%nat -> (length (used_inks st) <= 16)%nat ->
  (y < img_h im)%nat ->
  exists row,
    pack_row (Build_ModeSpec 0 16 2 4) (img_w im) (ink_grid st)
      (make_ink_to_pen (used_inks st)) y = Ok row
    /\ Forall2 (packs im tink (used_inks st) 0 2 y) (map (fun k => (k * 2)%nat) (seq 0 (img_w im / 2))) row.
Proof using Hscan.
  intros Hmod Hcol Hy. unfold pack_row. cbn [mode Z.eqb Pos.eqb].
  rewrite range_step_exact by (done || lia).
  apply mapR_Forall2. intros x [k [-> Hk%elem_of_seq]]%list_elem_of_fmap. cbv beta zeta.
  assert (k * 2 + 1 < img_w im)%nat as Hx.
  { pose proof (Nat.div_mod_eq (img_w im) 2). lia. }
  destruct (pen_at_ok (k * 2) y) as (p0 & Hp0 & ->); [lia | done |].
  destruct (pen_at_ok (k * 2 + 1) y) as (p1 & Hp1 & ->); [lia | done |].
  cbn [mbind result_bind]. eexists. split; [reflexivity |].
  apply lookup_lt_Some in Hp0 as Hl0. apply lookup_lt_Some in Hp1 as Hl1.
  split; [apply pack_mode0_byte |].
  unfold decode_pens. cbn [Z.eqb Pos.eqb].
  rewrite decode_pack_mode0 by lia.
  intros [| [| i]] Hi; [| | lia].
  - exists p0. rewrite Nat.add_0_r. done.
  - exists p1. done.
Qed.

Lemma pack_row_mode1 (y : nat) :
  (img_w im mod 4 = 0)%nat -> (length (used_inks st) <= 4)%nat ->
  (y < img_h im)%nat ->
  exists row,
    pack_row (Build_ModeSpec 1 4 4 2) (img_w im) (ink_grid st)
      (make_ink_to_pen (used_inks st)) y = Ok row
    /\ Forall2 (packs im tink (used_inks st) 1 4 y) (map (fun k => (k * 4)%nat) (seq 0 (img_w im / 4))) row.
Proof using Hscan.
  intros Hmod Hcol Hy. unfold pack_row. cbn [mode Z.eqb Pos.eqb].
  rewrite range_step_exact by (done || lia).
  apply mapR_Forall2. intros x [k [-> Hk%elem_of_seq]]%list_elem_of_fmap. cbv beta zeta.
  assert (k * 4 + 3 < img_w im)%nat as Hx.
  { pose proof (Nat.div_mod_eq (img_w im) 4). lia. }
  destruct (pen_at_ok (k * 4) y) as (p0 & Hp0 & ->); [lia | done |].
  destruct (pen_at_ok (k * 4 + 1) y) as (p1 & Hp1 & ->); [lia | done |].
  destruct (pen_at_ok (k * 4 + 2) y) as (p2 & Hp2 & ->); [lia | done |].
  destruct (pen_at_ok (k * 4 + 3) y) as (p3 & Hp3 & ->); [lia | done |].
  cbn [mbind result_bind]. eexists. split; [reflexivity |].
  apply lookup_lt_Some in Hp0 as Hl0. apply lookup_lt_Some in Hp1 as Hl1.
  apply lookup_lt_Some in Hp2 as Hl2. apply lookup_lt_Some in Hp3 as Hl3.
  split; [apply pack_mode1_byte |].
  unfold decode_pens. cbn [Z.eqb Pos.eqb].
  rewrite decode_pack_mode1 by lia.
  intros [| [| [| [| i]]]] Hi; [| | | | lia].
  - exists p0. rewrite Nat.add_0_r. done.
  - exists p1. done.
  - exists p2. done.
  - exists p3. done.
Qed.

Lemma pack_row_mode2 (y : nat) :
  (img_w im mod 8 = 0)%nat -> (length (used_inks st) <= 2)%nat ->
  (y < img_h im)%nat ->
  exists row,
    pack_row (Build_ModeSpec 2 2 8 1) (img_w im) (ink_grid st)
      (make_ink_to_pen (used_inks st)) y = Ok row
    /\ Forall2 (packs im tink (used_inks st) 2 8 y) (map (fun k => (k * 8)%nat) (seq 0 (img_w im / 8))) row.
Proof using Hscan.
  intros Hmod Hcol Hy. unfold pack_row. cbn [mode Z.eqb Pos.eqb].
  rewrite range_step_exact by (done || lia).
  apply mapR_Forall2. intros x [k [-> Hk%elem_of_seq]]%list_elem_of_fmap. cbv beta zeta.
  assert (k * 8 + 7 < img_w im)%nat as Hx.
  { pose proof (Nat.div_mod_eq (img_w im) 8). lia. }
  destruct (mapR_Forall2
              (fun i => pen_at (ink_grid st) (make_ink_to_pen (used_inks st)) y
                          (k * 8 + i)%nat)
              (fun i p => exists pen : nat,
                            p = Z.of_nat pen
                            /\ used_inks st !! pen
                               = Some (resolved_ink tink (px im (k * 8 + i) y)))
              (seq 0 8)) as (ps & -> & Hps).
  { intros i Hi%elem_of_seq.
    destruct (pen_at_ok (k * 8 + i) y) as (p & Hp & ->); [lia | done |].
    eexists. split; [reflexivity |]. by exists p. }
  cbn [mbind result_bind].
  assert (Hlen : length ps = 8%nat).
  { apply Forall2_length in Hps. by rewrite length_seq in Hps. }
  assert (Hbits : Forall (fun p => 0 <= p < 2) ps).
  { apply Forall_lookup. intros i p Hp.
    destruct (Forall2_lookup_r _ _ _ _ _ Hps Hp) as (j & _ & pen & -> & Hpen).
    apply lookup_lt_Some in Hpen. lia. }
  destruct (decode_pack_mode2 ps Hlen Hbits) as (b & Hb & Hdec).
  exists b. split; [done |]. split.
  - destruct (pack_mode2_short ps) as (b' & Hb' & Hrange & _); [lia |].
    assert (b' = b) as -> by congruence. done.
  - intros i Hi. unfold decode_pens. cbn [Z.eqb Pos.eqb]. rewrite Hdec.
    destruct (Forall2_lookup_l _ _ _ i i Hps) as (p & Hp & pen & -> & Hpen).
    { apply lookup_seq. lia. }
    by exists pen.
Qed.

End Conversion.

(** The conversion that passes both tests: what it returns. *)
Lemma convert_spec (m : Z) (spec : ModeSpec) (im : image) (tol : Z) (tink : option Z) :
  dict_find MODE_SPECS m = Some spec ->
  (img_w im mod px_per_byte spec = 0)%nat ->
  (distinct_inks tink im <= colors spec)%nat ->
  exists st rows,
    scan_image im tol tink = Ok st
    /\ convert_png_to_rows im spec tol tink
       = Ok ((img_w im / px_per_byte spec)%nat, img_h im, rows,
             used_inks st, auto_tol_used st)
    /\ Forall2 (fun y row =>
                  Forall2 (packs im tink (used_inks st) (mode spec)
                             (px_per_byte spec) y)
                          (map (fun k => (k * px_per_byte spec)%nat)
                               (seq 0 (img_w im / px_per_byte spec)))
                          row)
               (seq 0 (img_h im)) rows.
Proof.
  intros Hspec Hmod Hcol.
  destruct (scan_image_spec im tol tink) as (st & Hst & _).
  pose proof (used_inks_distinct im tol tink st Hst) as Hlen.
  assert (Hrows : exists rows,
            mapR (pack_row spec (img_w im) (ink_grid st)
                    (make_ink_to_pen (used_inks st))) (seq 0 (img_h im)) = Ok rows
            /\ Forall2 (fun y row =>
                          Forall2 (packs im tink (used_inks st) (mode spec)
                                     (px_per_byte spec) y)
                                  (map (fun k => (k * px_per_byte spec)%nat)
                                       (seq 0 (img_w im / px_per_byte spec)))
                                  row)
                       (seq 0 (img_h im)) rows).
  { apply mapR_Forall2. intros y Hy%elem_of_seq.
    destruct (MODE_SPECS_cases m spec Hspec) as [[_ ->] | [[_ ->] | [_ ->]]];
      cbn [px_per_byte colors mode] in *.
    - apply (pack_row_mode0 im tol tink st Hst y); lia.
    - apply (pack_row_mode1 im tol tink st Hst y); lia.
    - apply (pack_row_mode2 im tol tink st Hst y); lia. }
  destruct Hrows as (rows & Hmap & Hrows).
  exists st, rows. split; [done |]. split; [| done].
  unfold convert_png_to_rows. rewrite Hmod. cbn [Nat.eqb negb].
  rewrite Hst. cbn [mbind result_bind].
  assert ((colors spec <? length (used_inks st))%nat = false) as ->
    by (apply Nat.ltb_ge; lia).
  by rewrite Hmap.
Qed.

(** X7. The three outcomes of convert_png_to_rows under a mode of
    [MODE_SPECS], and no other: the width error when the width is not a
    multiple of the pixels per byte; else the ink-count error when the
    pixels resolve to more inks than the mode has pens; else it returns,
    with [width // px_per_byte] as width in bytes, the height, one row per
    image row, each of that many bytes, the inks without repetition (as
    many as the pixels resolve to) and the fallback flag.  It never fails
    on an index or a key. *)
Theorem convert_png_to_rows_outcomes (m : Z) (spec : ModeSpec) (im : image)
    (tol : Z) (tink : option Z) :
  dict_find MODE_SPECS m = Some spec ->
  let w := img_w im in
  let n := px_per_byte spec in
  ((w mod n)%nat <> 0%nat ->
     convert_png_to_rows im spec tol tink
     = Raise (ValueError_width (Z.of_nat w) (Z.of_nat n)))
  /\ ((w mod n)%nat = 0%nat -> (colors spec < distinct_inks tink im)%nat ->
        convert_png_to_rows im spec tol tink
        = Raise (ValueError_inks (Z.of_nat (distinct_inks tink im))
                                 (Z.of_nat (colors spec))))
  /\ ((w mod n)%nat = 0%nat -> (distinct_inks tink im <= colors spec)%nat ->
        exists rows used,
          convert_png_to_rows im spec tol tink
          = Ok ((w / n)%nat, img_h im, rows, used,
                existsb (falls_back tol tink) (scan_order im))
          /\ length rows = img_h im
          /\ Forall (fun row => length row = (w / n)%nat
                                /\ Forall (fun b => 0 <= b <= 255) row) rows
          /\ NoDup used
          /\ length used = distinct_inks tink im).
Proof.
  intros Hspec w n. subst w n. split; [| split].
  - intros Hmod. unfold convert_png_to_rows.
    by assert ((img_w im mod px_per_byte spec =? 0)%nat = false) as ->
      by by apply Nat.eqb_neq.
  - apply convert_overflow.
  - intros Hmod Hcol.
    destruct (convert_spec m spec im tol tink Hspec Hmod Hcol)
      as (st & rows & Hst & Hconv & Hrows).
    destruct (scan_image_spec im tol tink) as (st' & Hst' & _ & Hauto).
    assert (st' = st) as -> by congruence.
    exists rows, (used_inks st). rewrite <- Hauto. split; [done |].
    split; [apply Forall2_length in Hrows; by rewrite length_seq in Hrows |].
    split; [| split;
              [by apply (used_inks_NoDup im tol tink) | by apply (used_inks_distinct im tol)]].
    apply Forall_lookup. intros y row Hrow.
    destruct (Forall2_lookup_r _ _ _ _ _ Hrows Hrow) as (y' & _ & Hpacks).
    split.
    + apply Forall2_length in Hpacks. by rewrite length_map, length_seq in Hpacks.
    + apply Forall_lookup. intros k b Hb.
      destruct (Forall2_lookup_r _ _ _ _ _ Hpacks Hb) as (x & _ & Hbyte & _). done.
Qed.

Lemma convert_png_to_rows_outcomes_witness :
  let spec := Build_ModeSpec 2 2 8 1 in
  let im := two_inks_8x1 in
  let w := img_w im in
  let n := px_per_byte spec in
  ((w mod n)%nat <> 0%nat ->
     convert_png_to_rows im spec 8 None
     = Raise (ValueError_width (Z.of_nat w) (Z.of_nat n)))
  /\ ((w mod n)%nat = 0%nat -> (colors spec < distinct_inks None im)%nat ->
        convert_png_to_rows im spec 8 None
        = Raise (ValueError_inks (Z.of_nat (distinct_inks None im))
                                 (Z.of_nat (colors spec))))
  /\ ((w mod n)%nat = 0%nat -> (distinct_inks None im <= colors spec)%nat ->
        exists rows used,
          convert_png_to_rows im spec 8 None
          = Ok ((w / n)%nat, img_h im, rows, used,
                existsb (falls_back 8 None) (scan_order im))
          /\ length rows = img_h im
          /\ Forall (fun row => length row = (w / n)%nat
                                /\ Forall (fun b => 0 <= b <= 255) row) rows
          /\ NoDup used
          /\ length used = distinct_inks None im).
Proof.
  intros spec im.
  apply (convert_png_to_rows_outcomes 2 spec im 8 None). reflexivity.
Defined.

(** A conversion that returned passed both tests. *)
Lemma convert_ok_inv (m : Z) (spec : ModeSpec) (im : image) (tol : Z)
    (tink : option Z) (wb ht : nat) (rows : list (list Z)) (used : list Z)
    (auto : bool) :
  dict_find MODE_SPECS m = Some spec ->
  convert_png_to_rows im spec tol tink = Ok (wb, ht, rows, used, auto) ->
  (0 < px_per_byte spec)%nat
  /\ (img_w im mod px_per_byte spec = 0)%nat
  /\ wb = (img_w im / px_per_byte spec)%nat
  /\ ht = img_h im
  /\ NoDup used
  /\ Forall2 (fun y row =>
                Forall2 (packs im tink used (mode spec) (px_per_byte spec) y)
                        (map (fun k => (k * px_per_byte spec)%nat)
                             (seq 0 (img_w im / px_per_byte spec)))
                        row)
             (seq 0 (img_h im)) rows.
Proof.
  intros Hspec Hconv.
  assert (Hppb : (0 < px_per_byte spec)%nat).
  { destruct (MODE_SPECS_cases m spec Hspec) as [[_ ->] | [[_ ->] | [_ ->]]];
      cbn; lia. }
  destruct (decide ((img_w im mod px_per_byte spec)%nat = 0%nat)) as [Hmod | Hmod].
  2:{ unfold convert_png_to_rows in Hconv.
      assert ((img_w im mod px_per_byte spec =? 0)%nat = false) as Hne
        by by apply Nat.eqb_neq.
      by rewrite Hne in Hconv. }
  destruct (decide (distinct_inks tink im <= colors spec)%nat) as [Hcol | Hcol].
  2:{ rewrite convert_overflow in Hconv by (done || lia). done. }
  destruct (convert_spec m spec im tol tink Hspec Hmod Hcol)
    as (st & rows' & Hst & Hconv' & Hrows).
  rewrite Hconv' in Hconv. injection Hconv as <- <- <- <- <-.
  repeat split; try done. by apply (used_inks_NoDup im tol tink).
Qed.

(** The bytes of a row, each with the pens of its pixels. *)
Lemma convert_read_back (m : Z) (spec : ModeSpec) (im : image)
    (tol : Z) (tink : option Z) (wb ht : nat) (rows : list (list Z))
    (used : list Z) (auto : bool) (x y : nat) :
  dict_find MODE_SPECS m = Some spec ->
  convert_png_to_rows im spec tol tink = Ok (wb, ht, rows, used, auto) ->
  (x < img_w im)%nat -> (y < img_h im)%nat ->
  exists row byte (pen : nat),
    rows !! y = Some row
    /\ row !! (x / px_per_byte spec)%nat = Some byte
    /\ decode_pens (mode spec) byte !! (x mod px_per_byte spec)%nat
       = Some (Z.of_nat pen)
    /\ used !! pen = Some (resolved_ink tink (px im x y)).
Proof.
  intros Hspec Hconv Hx Hy.
  destruct (convert_ok_inv m spec im tol tink wb ht rows used auto Hspec Hconv)
    as (Hppb & Hmod & _ & _ & _ & Hrows).
  destruct (Forall2_lookup_l _ _ _ y y Hrows) as (row & Hrow & Hpacks);
    [apply lookup_seq; lia |].
  pose proof (Nat.div_mod_eq x (px_per_byte spec)) as Hxd.
  pose proof (Nat.mod_upper_bound x (px_per_byte spec) ltac:(lia)) as Hxm.
  pose proof (Nat.div_mod_eq (img_w im) (px_per_byte spec)) as Hwd.
  rewrite Hmod, Nat.add_0_r in Hwd.
  assert (x / px_per_byte spec < img_w im / px_per_byte spec)%nat as Hk.
  { apply Nat.Div0.div_lt_upper_bound; lia. }
  destruct (Forall2_lookup_l _ _ _ (x / px_per_byte spec)%nat
              (x / px_per_byte spec * px_per_byte spec)%nat Hpacks)
    as (byte & Hbyte & _ & Hpens).
  { rewrite list_lookup_fmap, lookup_seq_lt by done. done. }
  destruct (Hpens (x mod px_per_byte spec)%nat Hxm) as (pen & Hpen & Hused).
  exists row, byte, pen. repeat split; try done.
  rewrite Hused. do 3 f_equal. lia.
Qed.

(** X8. Every pixel can be read back from what the conversion returns: the
    byte at column [x // px_per_byte] of row [y], unpacked by the mode's
    decoder, has at position [x % px_per_byte] a pen, and the ink at that
    position of the returned ink list is the ink the pixel [(x, y)]
    resolves to. *)
Theorem converted_pixels_read_back (m : Z) (spec : ModeSpec) (im : image)
    (tol : Z) (tink : option Z) (wb ht : nat) (rows : list (list Z))
    (used : list Z) (auto : bool) (x y : nat) :
  dict_find MODE_SPECS m = Some spec ->
  convert_png_to_rows im spec tol tink = Ok (wb, ht, rows, used, auto) ->
  (x < img_w im)%nat -> (y < img_h im)%nat ->
  exists row byte (pen : nat),
    rows !! y = Some row
    /\ row !! (x / px_per_byte spec)%nat = Some byte
    /\ decode_pens (mode spec) byte !! (x mod px_per_byte spec)%nat
       = Some (Z.of_nat pen)
    /\ used !! pen = Some (resolved_ink tink (px im x y)).
Proof. apply convert_read_back. Qed.

Lemma converted_pixels_read_back_witness :
  exists row byte (pen : nat),
    [[0x3F]] !! 0%nat = Some row
    /\ row !! (5 / px_per_byte (Build_ModeSpec 2 2 8 1))%nat = Some byte
    /\ decode_pens (mode (Build_ModeSpec 2 2 8 1)) byte
         !! (5 mod px_per_byte (Build_ModeSpec 2 2 8 1))%nat
       = Some (Z.of_nat pen)
    /\ [0; 26] !! pen = Some (resolved_ink None (px two_inks_8x1 5 0)).
Proof.
  apply (converted_pixels_read_back 2 (Build_ModeSpec 2 2 8 1) two_inks_8x1 8 None
           1 1 [[0x3F]] [0; 26] false 5 0).
  - reflexivity.
  - vm_compute. reflexivity.
  - cbn. lia.
  - cbn. lia.
Defined.

(** ** The pixels the decode driver writes *)

(** One assignment [pix[x, y] = v]: the pixel written and the others. *)
Lemma put_pixel_at (h w : nat) (pix : list (list rgba)) (x y : nat) (v : rgba) :
  shaped h w pix -> (y < h)%nat -> (x < w)%nat ->
  exists pix',
    put_pixel pix x y v = Ok pix' /\ shaped h w pix'
    /\ pixel_at pix' x y = Some v
    /\ forall x' y', (x', y') <> (x, y) -> pixel_at pix' x' y' = pixel_at pix x' y'.
Proof.
  intros Hs Hy Hx.
  destruct (put_pixel_ok h w pix x y v Hs Hy Hx) as (pix' & Hput & Hs').
  exists pix'. split; [done |]. split; [done |].
  unfold put_pixel in Hput.
  destruct (pix !! y) as [row |] eqn:Hrow; [| done].
  destruct (x <? length row)%nat eqn:Hlt; [| done].
  apply Nat.ltb_lt in Hlt. injection Hput as <-.
  unfold pixel_at. split.
  - rewrite list_lookup_insert_eq by by eapply lookup_lt_Some.
    cbn. by rewrite list_lookup_insert_eq.
  - intros x' y' Hne. destruct (decide (y' = y)) as [-> | Hy'].
    + rewrite list_lookup_insert_eq by by eapply lookup_lt_Some.
      rewrite Hrow. cbn. apply list_lookup_insert_ne. congruence.
    + by rewrite list_lookup_insert_ne.
Qed.

(** The pens of one byte, written from [x] on in row [y]. *)
Lemma decode_pens_at (pti : gmap Z Z) (bg : option Z) (mp : Z) (h w y : nat)
    (pens : list Z) (x : nat) (pix : list (list rgba)) :
  shaped h w pix -> (y < h)%nat -> (x + length pens <= w)%nat ->
  exists pix',
    fold_left (decode_pen pti bg mp y) pens (Ok (x, pix))
    = Ok ((x + length pens)%nat, pix')
    /\ shaped h w pix'
    /\ (forall i pen, pens !! i = Some pen ->
          pixel_at pix' (x + i) y = Some (pen_to_rgba pti bg (wrap_pen mp pen)))
    /\ (forall x' y', ~ (y' = y /\ (x <= x' < x + length pens)%nat) ->
          pixel_at pix' x' y' = pixel_at pix x' y').
Proof.
  revert x pix. induction pens as [| pen pens IH]; intros x pix Hs Hy Hx.
  - exists pix. cbn. rewrite Nat.add_0_r.
    split; [done |]. split; [done |]. split; [| done].
    intros i pen Hp. by destruct i.
  - cbn [fold_left length] in *. unfold decode_pen at 2.
    cbn [mbind result_bind].
    destruct (put_pixel_at h w pix x y
                (pen_to_rgba pti bg (wrap_pen mp pen)) Hs Hy)
      as (pix1 & -> & Hs1 & Hat & Hframe); [lia |].
    cbn [mbind result_bind].
    destruct (IH (S x) pix1 Hs1 Hy) as (pix' & -> & Hs' & Hin & Hout); [lia |].
    exists pix'. split; [do 2 f_equal; lia |]. split; [done |]. split.
    + intros [| i] p Hp; cbn in Hp.
      * injection Hp as <-. rewrite Nat.add_0_r.
        rewrite Hout by lia. done.
      * rewrite <- (Hin i p Hp). f_equal. lia.
    + intros x' y' Hnot. rewrite Hout by lia.
      apply Hframe. intros [= -> ->]. lia.
Qed.

(** [length ks] bytes, read from [data] at [i] on and written from [x] on. *)
Lemma decode_bytes_at (mode : Z) (data : list Z) (pti : gmap Z Z) (bg : option Z)
    (h w y ppb : nat) (ks : list nat) (i x : nat) (pix : list (list rgba)) :
  Z.of_nat ppb = Cpc.px_per_byte mode ->
  shaped h w pix -> (y < h)%nat ->
  (i + length ks <= length data)%nat ->
  (x + length ks * ppb <= w)%nat ->
  exists pix',
    fold_left (decode_byte mode data pti bg y) ks (Ok (i, x, pix))
    = Ok ((i + length ks)%nat, (x + length ks * ppb)%nat, pix')
    /\ shaped h w pix'
    /\ (forall j q, (j < length ks)%nat -> (q < ppb)%nat ->
          exists d pen,
            data !! (i + j)%nat = Some d
            /\ decode_pens mode (d .& 255) !! q = Some pen
            /\ pixel_at pix' (x + j * ppb + q) y = Some (pen_to_rgba pti bg pen))
    /\ (forall x' y', ~ (y' = y /\ (x <= x' < x + length ks * ppb)%nat) ->
          pixel_at pix' x' y' = pixel_at pix x' y').
Proof.
  intros Hppb. revert i x pix.
  induction ks as [| k ks IH]; intros i x pix Hs Hy Hi Hx.
  - exists pix. cbn. rewrite !Nat.add_0_r.
    split; [done |]. split; [done |]. split; [| done].
    intros j q Hj. lia.
  - cbn [fold_left length] in *. unfold decode_byte at 2.
    cbn [mbind result_bind].
    destruct (lookup_lt_is_Some_2 data i) as [d Hd]; [lia |]. rewrite Hd.
    assert (length (decode_pens mode (d .& 255)) = ppb) as Hn.
    { pose proof (decode_pens_length mode (d .& 255)). lia. }
    destruct (decode_pens_at pti bg (max_pens mode) h w y
                (decode_pens mode (d .& 255)) x pix Hs Hy)
      as (pix1 & -> & Hs1 & Hin1 & Hout1); [lia |].
    cbn [mbind result_bind]. rewrite Hn in *.
    destruct (IH (S i) (x + ppb)%nat pix1 Hs1 Hy)
      as (pix' & -> & Hs' & Hin & Hout); [lia | lia |].
    exists pix'. split; [do 3 f_equal; lia |]. split; [done |]. split.
    + intros [| j] q Hj Hq.
      * destruct (lookup_lt_is_Some_2 (decode_pens mode (d .& 255)) q)
          as [pen Hpen]; [lia |].
        exists d, pen. rewrite Nat.add_0_r. split; [done |]. split; [done |].
        replace (x + 0 * ppb + q)%nat with (x + q)%nat by lia.
        rewrite Hout by lia. rewrite (Hin1 q pen Hpen).
        assert (Hwrap : wrap_pen (max_pens mode) pen = pen).
        { apply wrap_pen_id.
          pose proof (decode_pens_bound mode (d .& 255)) as Hb.
          rewrite Forall_lookup in Hb. by apply (Hb q). }
        rewrite Hwrap. reflexivity.
      * destruct (Hin j q) as (d' & pen & Hd' & Hpen & Hat); [lia | done |].
        exists d', pen. split; [rewrite <- Hd'; f_equal; lia |]. split; [done |].
        rewrite <- Hat. f_equal. lia.
    + intros x' y' Hnot. rewrite Hout by lia. apply Hout1. lia.
Qed.

(** The rows [a .. a + n - 1], [wb] bytes each, read from [data] at [i] on. *)
Lemma decode_lines_at (mode width_bytes : Z) (data : list Z) (pti : gmap Z Z)
    (bg : option Z) (h w ppb : nat) (a n : nat) (i : nat)
    (pix : list (list rgba)) :
  Z.of_nat ppb = Cpc.px_per_byte mode ->
  w = (Z.to_nat width_bytes * ppb)%nat ->
  shaped h w pix -> (a + n <= h)%nat ->
  (i + n * Z.to_nat width_bytes <= length data)%nat ->
  exists pix',
    fold_left (decode_line mode width_bytes data pti bg) (seq a n) (Ok (i, pix))
    = Ok ((i + n * Z.to_nat width_bytes)%nat, pix')
    /\ shaped h w pix'
    /\ (forall r j q, (r < n)%nat -> (j < Z.to_nat width_bytes)%nat -> (q < ppb)%nat ->
          exists d pen,
            data !! (i + r * Z.to_nat width_bytes + j)%nat = Some d
            /\ decode_pens mode (d .& 255) !! q = Some pen
            /\ pixel_at pix' (j * ppb + q) (a + r) = Some (pen_to_rgba pti bg pen))
    /\ (forall x' y', ~ (a <= y' < a + n)%nat ->
          pixel_at pix' x' y' = pixel_at pix x' y').
Proof.
  intros Hppb Hw. revert a i pix.
  induction n as [| n IH]; intros a i pix Hs Ha Hi.
  - exists pix. cbn. rewrite Nat.add_0_r.
    split; [done |]. split; [done |]. split; [| done].
    intros r j q Hr. lia.
  - cbn [seq fold_left]. unfold decode_line at 2.
    cbn [mbind result_bind].
    destruct (decode_bytes_at mode data pti bg h w a ppb
                (seq 0 (Z.to_nat width_bytes)) i 0 pix Hppb Hs)
      as (pix1 & -> & Hs1 & Hin1 & Hout1); rewrite ?length_seq; [lia | lia | lia |].
    cbn [mbind result_bind]. rewrite length_seq in *.
    destruct (IH (S a) (i + Z.to_nat width_bytes)%nat pix1 Hs1)
      as (pix' & -> & Hs' & Hin & Hout); [lia | lia |].
    exists pix'. split; [do 2 f_equal; lia |]. split; [done |]. split.
    + intros [| r] j q Hr Hj Hq.
      * destruct (Hin1 j q Hj Hq) as (d & pen & Hd & Hpen & Hat).
        exists d, pen. split; [rewrite <- Hd; f_equal; lia |]. split; [done |].
        rewrite Nat.add_0_r. rewrite Hout by lia. done.
      * destruct (Hin r j q) as (d & pen & Hd & Hpen & Hat); [lia | done | done |].
        exists d, pen. split; [rewrite <- Hd; f_equal; lia |]. split; [done |].
        rewrite <- Hat. f_equal. lia.
    + intros x' y' Hnot. rewrite Hout by lia. apply Hout1. lia.
Qed.

(** The buffer handed to [img.save]: the pixel [(x, y)] has the colour of
    the pen at position [x % ppb] of the byte [y * width_bytes + x // ppb]. *)
Lemma decode_pixels_at (mode width_bytes height : Z) (data : list Z)
    (pti : gmap Z Z) (bg : option Z) (ppb : nat) :
  Z.of_nat ppb = Cpc.px_per_byte mode ->
  0 <= width_bytes -> 0 <= height -> width_bytes * height <= len data ->
  exists pix,
    decode_pixels mode width_bytes height data pti bg = Ok pix
    /\ shaped (Z.to_nat height) (Z.to_nat width_bytes * ppb) pix
    /\ forall x y, (x < Z.to_nat width_bytes * ppb)%nat -> (y < Z.to_nat height)%nat ->
         exists d pen,
           data !! (y * Z.to_nat width_bytes + x / ppb)%nat = Some d
           /\ decode_pens mode (d .& 255) !! (x mod ppb)%nat = Some pen
           /\ pixel_at pix x y = Some (pen_to_rgba pti bg pen).
Proof.
  intros Hppb Hw Hh Hlen. unfold decode_pixels. cbv zeta.
  assert (Hwpx : Z.to_nat (width_bytes * Cpc.px_per_byte mode)
                 = (Z.to_nat width_bytes * ppb)%nat).
  { rewrite <- Hppb. rewrite Z2Nat.inj_mul by lia. by rewrite Nat2Z.id. }
  rewrite Hwpx.
  destruct (decode_lines_at mode width_bytes data pti bg
              (Z.to_nat height) (Z.to_nat width_bytes * ppb) ppb
              0 (Z.to_nat height) 0
              (new_image (Z.to_nat width_bytes * ppb) (Z.to_nat height))
              Hppb eq_refl)
    as (pix & -> & Hs & Hin & _).
  - unfold new_image. split; [by rewrite length_replicate |].
    apply Forall_replicate. by rewrite length_replicate.
  - lia.
  - unfold len in Hlen. nia.
  - cbn [mbind result_bind]. exists pix. split; [done |]. split; [done |].
    intros x y Hx Hy.
    assert (0 < ppb)%nat as Hpos by (destruct ppb; [cbn in Hx; lia | lia]).
    pose proof (Nat.div_mod_eq x ppb) as Hxd.
    pose proof (Nat.mod_upper_bound x ppb ltac:(lia)) as Hxm.
    destruct (Hin y (x / ppb)%nat (x mod ppb)%nat Hy) as (d & pen & Hd & Hpen & Hat);
      [apply Nat.Div0.div_lt_upper_bound; lia | done |].
    exists d, pen. split; [done |]. split; [done |].
    rewrite <- Hat. f_equal. lia.
Qed.

(** The pixels of a block that has its bytes. *)
Lemma block_pixels_at (blk : block) (mode : Z) (bg : option Z)
    (w h : Z) (data : list Z) :
  db_bytes blk = w :: h :: data -> 0 <= w -> 0 <= h -> w * h <= len data ->
  let n := Z.to_nat (Cpc.px_per_byte mode) in
  exists pix,
    decode_block_to_png blk mode bg = Ok (w * Cpc.px_per_byte mode, h, pix)
    /\ forall x y, (x < Z.to_nat w * n)%nat -> (y < Z.to_nat h)%nat ->
         exists d pen,
           data !! (y * Z.to_nat w + x / n)%nat = Some d
           /\ decode_pens mode d !! (x mod n)%nat = Some pen
           /\ pixel_at pix x y = Some (pen_to_rgba (pen_to_ink blk) bg pen).
Proof.
  intros Hdb Hw Hh Hfit n.
  assert (Hn : Z.of_nat n = Cpc.px_per_byte mode).
  { subst n. pose proof (decode_pens_length mode 0). lia. }
  assert (Htake : len (take (Z.to_nat (w * h)) data) = w * h).
  { unfold len in *. rewrite length_take. nia. }
  destruct (decode_pixels_at mode w h (take (Z.to_nat (w * h)) data)
              (pen_to_ink blk) bg n Hn Hw Hh) as (pix & Hpix & _ & Hat); [lia |].
  exists pix. split.
  - unfold decode_block_to_png. rewrite Hdb.
    assert ((len (w :: h :: data) <? 2) = false) as ->.
    { apply Z.ltb_ge. unfold len. cbn [length]. lia. }
    assert ((len data <? w * h) = false) as -> by (apply Z.ltb_ge; lia).
    by rewrite Hpix.
  - intros x y Hx Hy.
    destruct (Hat x y Hx Hy) as (d & pen & Hd & Hpen & Hpixel).
    exists d, pen. rewrite decode_pens_low_byte in Hpen.
    split; [| done].
    by apply lookup_take_Some in Hd as [Hd _].
Qed.

(** X9. What decode_block_to_png paints: with a header [w >= 1], [h >= 1]
    and at least [w * h] bytes after it, the pixel [(x, y)] of the image
    gets the colour [pen_to_rgba] gives to the pen at position
    [x % px_per_byte] of the byte number [y * w + x // px_per_byte] of the
    data; the image is [w * px_per_byte] by [h] pixels and every pixel of
    it is painted.  (A header with [w = 0] or [h = 0] gives an image
    without pixels, which [img.save] refuses.) *)
Theorem block_pixels_follow_the_bytes (blk : block) (mode : Z) (bg : option Z)
    (w h : Z) (data : list Z) :
  db_bytes blk = w :: h :: data -> 1 <= w -> 1 <= h -> w * h <= len data ->
  let n := Z.to_nat (Cpc.px_per_byte mode) in
  exists pix,
    decode_block_to_png blk mode bg = Ok (w * Cpc.px_per_byte mode, h, pix)
    /\ forall x y, (x < Z.to_nat w * n)%nat -> (y < Z.to_nat h)%nat ->
         exists d pen,
           data !! (y * Z.to_nat w + x / n)%nat = Some d
           /\ decode_pens mode d !! (x mod n)%nat = Some pen
           /\ pixel_at pix x y = Some (pen_to_rgba (pen_to_ink blk) bg pen).
Proof.
  intros Hdb Hw Hh Hfit. apply (block_pixels_at blk mode bg w h data Hdb); lia.
Qed.

Lemma block_pixels_follow_the_bytes_witness :
  let n := Z.to_nat (Cpc.px_per_byte 0) in
  exists pix,
    decode_block_to_png block_excess 0 None = Ok (1 * Cpc.px_per_byte 0, 2, pix)
    /\ forall x y, (x < Z.to_nat 1 * n)%nat -> (y < Z.to_nat 2)%nat ->
         exists d pen,
           [0xC3; 0x3C; 99] !! (y * Z.to_nat 1 + x / n)%nat = Some d
           /\ decode_pens 0 d !! (x mod n)%nat = Some pen
           /\ pixel_at pix x y = Some (pen_to_rgba (pen_to_ink block_excess) None pen).
Proof.
  apply (block_pixels_follow_the_bytes block_excess 0 None 1 2 [0xC3; 0x3C; 99]).
  - reflexivity.
  - lia.
  - lia.
  - vm_compute. congruence.
Defined.

(** The bytes of rows of one length, end to end. *)
Lemma lookup_concat_uniform {A} (n : nat) (rows : list (list A)) (y k : nat)
    (row : list A) (b : A) :
  Forall (fun r => length r = n) rows ->
  rows !! y = Some row -> row !! k = Some b ->
  concat rows !! (y * n + k)%nat = Some b.
Proof.
  intros Hall. revert y.
  induction rows as [| r rows IH]; intros y Hrow Hb; [done |].
  apply Forall_cons_1 in Hall as [Hr Hall]. cbn [concat].
  destruct y as [| y]; cbn in Hrow.
  - injection Hrow as ->. by apply lookup_app_l_Some.
  - rewrite lookup_app_r by (rewrite Hr; lia).
    rewrite <- (IH Hall y Hrow Hb). f_equal. rewrite Hr. lia.
Qed.

Lemma length_concat_uniform {A} (n : nat) (rows : list (list A)) :
  Forall (fun r => length r = n) rows ->
  length (concat rows) = (length rows * n)%nat.
Proof.
  induction 1 as [| r rows Hr _ IH]; [done |].
  cbn [concat length]. rewrite length_app, IH, Hr. lia.
Qed.

(** The image decoded from what the conversion returned. *)
Lemma convert_then_decode (m : Z) (spec : ModeSpec) (im : image) (tol : Z)
    (tink : option Z) (wb ht : nat) (rows : list (list Z)) (used : list Z)
    (auto : bool) (lbl : string) (pti : gmap Z Z) (bg : option Z) :
  dict_find MODE_SPECS m = Some spec ->
  convert_png_to_rows im spec tol tink = Ok (wb, ht, rows, used, auto) ->
  (forall (pen : nat) ink, used !! pen = Some ink -> pti !! Z.of_nat pen = Some ink) ->
  exists pix,
    decode_block_to_png
      {| label := lbl;
         db_bytes := Z.of_nat wb :: Z.of_nat ht :: concat rows;
         pen_to_ink := pti |} m bg
    = Ok (Z.of_nat (img_w im), Z.of_nat (img_h im), pix)
    /\ forall x y, (x < img_w im)%nat -> (y < img_h im)%nat ->
         exists r g b,
           ink_to_rgb (Z.max 0 (Z.min 26 (resolved_ink tink (px im x y))))
           = Ok (r, g, b)
           /\ pixel_at pix x y = Some (r, g, b, 255).
Proof.
  intros Hspec Hconv Hpti.
  destruct (convert_ok_inv m spec im tol tink wb ht rows used auto Hspec Hconv)
    as (Hppb & Hmod & -> & -> & Hnd & Hrows).
  assert (Hm : mode spec = m /\ Cpc.px_per_byte m = Z.of_nat (px_per_byte spec)).
  { destruct (MODE_SPECS_cases m spec Hspec) as [[-> ->] | [[-> ->] | [-> ->]]];
      by split. }
  destruct Hm as [Hmode Hppbm].
  pose proof (Nat.div_mod_eq (img_w im) (px_per_byte spec)) as Hwd.
  rewrite Hmod, Nat.add_0_r in Hwd.
  assert (Hlens : Forall (fun r => length r = (img_w im / px_per_byte spec)%nat) rows).
  { apply Forall_lookup. intros y row Hrow.
    destruct (Forall2_lookup_r _ _ _ _ _ Hrows Hrow) as (y' & _ & Hpacks).
    apply Forall2_length in Hpacks. by rewrite length_map, length_seq in Hpacks. }
  assert (Hh : length rows = img_h im).
  { apply Forall2_length in Hrows. by rewrite length_seq in Hrows. }
  pose proof (length_concat_uniform _ rows Hlens) as Hlen.
  destruct (block_pixels_at
              {| label := lbl;
                 db_bytes := Z.of_nat (img_w im / px_per_byte spec)
                             :: Z.of_nat (img_h im) :: concat rows;
                 pen_to_ink := pti |} m bg
              (Z.of_nat (img_w im / px_per_byte spec)) (Z.of_nat (img_h im))
              (concat rows) eq_refl) as (pix & Hblk & Hat).
  { lia. } { lia. } { unfold len. rewrite Hlen, Hh. lia. }
  exists pix. split.
  - rewrite Hblk. do 3 f_equal. rewrite Hppbm. lia.
  - intros x y Hx Hy.
    rewrite Hppbm, !Nat2Z.id in Hat.
    destruct (Hat x y) as (d & pen & Hd & Hpen & Hpixel); [lia | done |].
    destruct (convert_read_back m spec im tol tink _ _ rows used auto x y
                Hspec Hconv Hx Hy) as (row & byte & p & Hrow & Hbyte & Hp & Hused).
    rewrite (lookup_concat_uniform _ rows y _ row byte Hlens Hrow Hbyte) in Hd.
    injection Hd as <-. rewrite Hmode in Hp. rewrite Hp in Hpen.
    injection Hpen as <-.
    destruct (pen_to_rgba_spec pti bg (Z.of_nat p)) as (r & g & b & Hc & Hrgba).
    rewrite (Hpti p _ Hused) in Hc. cbn [default from_option id] in Hc.
    exists r, g, b. split.
    + unfold ink_to_rgb, dict_item. by rewrite Hc.
    + cbn [Asm2pngs.pen_to_ink] in Hpixel. by rewrite Hpixel, Hrgba.
Qed.

(** X10. Encoding then decoding gives the image back, in the colours of the
    palette: when the conversion of an image returns, the block made of
    its width in bytes, its height and its rows, decoded in the same mode
    with the pens mapped to the inks the conversion lists, is an image of
    the same size in which every pixel has the palette colour of the ink
    the pixel resolved to (the ink clamped to [0 .. 26], which only matters
    for a transparent ink outside that range). *)
Theorem encode_then_decode (m : Z) (spec : ModeSpec) (im : image) (tol : Z)
    (tink : option Z) (wb ht : nat) (rows : list (list Z)) (used : list Z)
    (auto : bool) (lbl : string) (pti : gmap Z Z) (bg : option Z) :
  dict_find MODE_SPECS m = Some spec ->
  convert_png_to_rows im spec tol tink = Ok (wb, ht, rows, used, auto) ->
  (forall (pen : nat) ink, used !! pen = Some ink -> pti !! Z.of_nat pen = Some ink) ->
  exists pix,
    decode_block_to_png
      {| label := lbl;
         db_bytes := Z.of_nat wb :: Z.of_nat ht :: concat rows;
         pen_to_ink := pti |} m bg
    = Ok (Z.of_nat (img_w im), Z.of_nat (img_h im), pix)
    /\ forall x y, (x < img_w im)%nat -> (y < img_h im)%nat ->
         exists r g b,
           ink_to_rgb (Z.max 0 (Z.min 26 (resolved_ink tink (px im x y))))
           = Ok (r, g, b)
           /\ pixel_at pix x y = Some (r, g, b, 255).
Proof. apply convert_then_decode. Qed.

Lemma encode_then_decode_witness :
  exists pix,
    decode_block_to_png
      {| label := "a";
         db_bytes := Z.of_nat 1 :: Z.of_nat 1 :: concat [[0x3F]];
         pen_to_ink := <[1 := 26]> (<[0 := 0]> ∅) |} 2 None
    = Ok (Z.of_nat (img_w two_inks_8x1), Z.of_nat (img_h two_inks_8x1), pix)
    /\ forall x y, (x < img_w two_inks_8x1)%nat -> (y < img_h two_inks_8x1)%nat ->
         exists r g b,
           ink_to_rgb (Z.max 0 (Z.min 26 (resolved_ink None (px two_inks_8x1 x y))))
           = Ok (r, g, b)
           /\ pixel_at pix x y = Some (r, g, b, 255).
Proof.
  apply (encode_then_decode 2 (Build_ModeSpec 2 2 8 1) two_inks_8x1 8 None
           1 1 [[0x3F]] [0; 26] false "a" (<[1 := 26]> (<[0 := 0]> ∅)) None).
  - reflexivity.
  - vm_compute. reflexivity.
  - intros [| [| pen]] ink Hink; [| | done]; injection Hink as <-;
      vm_compute; reflexivity.
Defined.

(** ** asm2png.py as a whole *)

(** guess_format returns as soon as there is a row. *)
Lemma guess_format_returns `{SetOrder} (rows : list (list Z)) (flat : list Z) :
  rows <> [] ->
  exists f w h data,
    guess_format rows flat = Ok (f, w, h, data)
    /\ 0 <= w /\ 0 <= h /\ len data = w * h.
Proof.
  intros Hrows.
  assert (exists f w h data, guess_format rows flat = Ok (f, w, h, data))
    as (f & w & h & data & Hguess).
  { unfold guess_format.
    destruct (guess_header rows flat) as [[[[f w] h] data] |]; [by eexists _, _, _, _ |].
    destruct (guess_lines_returns rows Hrows) as (wb & ht & data & ->).
    by eexists _, _, _, _. }
  exists f, w, h, data. split; [done |].
  by apply (guess_format_data rows flat f).
Qed.

(** X11. guess_format fails on nothing but a file without data rows: with a
    row or more it returns a format, a width and a height that are not
    negative and exactly [width * height] data bytes; when it raises, there
    is no row and the error is the one of heuristic B. *)
Theorem guess_format_fails_only_without_rows `{SetOrder} (rows : list (list Z))
    (flat : list Z) :
  (rows <> [] ->
     exists f w h data,
       guess_format rows flat = Ok (f, w, h, data)
       /\ 0 <= w /\ 0 <= h /\ len data = w * h)
  /\ (forall e, guess_format rows flat = Raise e ->
        rows = [] /\ e = ValueError_no_rows)
  /\ guess_format [] [] = Raise ValueError_no_rows.
Proof.
  split; [apply guess_format_returns |]. split; [| done].
  intros e Hraise.
  destruct rows as [| r rows].
  - split; [done |]. unfold guess_format in Hraise.
    destruct (guess_header [] flat); [done |].
    unfold guess_lines in Hraise. rewrite bool_decide_eq_true_2 in Hraise by done.
    congruence.
  - destruct (guess_format_returns (r :: rows) flat) as (f & w & h & data & Hok & _);
      [done |].
    congruence.
Qed.

(** X12. asm2png.py from the parsed rows on: with a row or more it always
    reaches [img.save], never reading past the data nor writing outside
    the image; the image is [width_bytes * px_per_byte] by [height], for
    the geometry guess_format chose, and its pixel [(x, y)] has the colour
    [pen_to_rgba] gives to the pen at position [x % px_per_byte] of the
    data byte number [y * width_bytes + x // px_per_byte]. *)
Theorem asm2png_paints_every_pixel `{SetOrder} (mode : Z) (bg : option Z)
    (rows : list (list Z)) (flat : list Z) (pti : gmap Z Z) :
  rows <> [] ->
  let n := Z.to_nat (Cpc.px_per_byte mode) in
  exists f w h data pix,
    guess_format rows flat = Ok (f, w, h, data)
    /\ Asm2png.main mode bg rows flat pti = Ok (w * Cpc.px_per_byte mode, h, pix)
    /\ shaped (Z.to_nat h) (Z.to_nat w * n) pix
    /\ forall x y, (x < Z.to_nat w * n)%nat -> (y < Z.to_nat h)%nat ->
         exists d pen,
           data !! (y * Z.to_nat w + x / n)%nat = Some d
           /\ decode_pens mode d !! (x mod n)%nat = Some pen
           /\ pixel_at pix x y = Some (pen_to_rgba pti bg pen).
Proof.
  intros Hrows n.
  assert (Hn : Z.of_nat n = Cpc.px_per_byte mode).
  { subst n. pose proof (decode_pens_length mode 0). lia. }
  destruct (guess_format_returns rows flat Hrows)
    as (f & w & h & data & Hguess & Hw & Hh & Hlen).
  destruct (decode_pixels_at mode w h data pti bg n Hn Hw Hh)
    as (pix & Hpix & Hshape & Hat); [lia |].
  exists f, w, h, data, pix. split; [done |]. split; [| split; [done |]].
  - unfold Asm2png.main. rewrite Hguess. cbn [mbind result_bind].
    by rewrite Hpix.
  - intros x y Hx Hy.
    destruct (Hat x y Hx Hy) as (d & pen & Hd & Hpen & Hpixel).
    exists d, pen. by rewrite decode_pens_low_byte in Hpen.
Qed.

Lemma asm2png_paints_every_pixel_witness :
  let n := Z.to_nat (Cpc.px_per_byte 0) in
  exists f w h data pix,
    @guess_format some_set_order rows_header_style (concat rows_header_style)
    = Ok (f, w, h, data)
    /\ @Asm2png.main some_set_order 0 None rows_header_style
         (concat rows_header_style) ∅
       = Ok (w * Cpc.px_per_byte 0, h, pix)
    /\ shaped (Z.to_nat h) (Z.to_nat w * n) pix
    /\ forall x y, (x < Z.to_nat w * n)%nat -> (y < Z.to_nat h)%nat ->
         exists d pen,
           data !! (y * Z.to_nat w + x / n)%nat = Some d
           /\ decode_pens 0 d !! (x mod n)%nat = Some pen
           /\ pixel_at pix x y = Some (pen_to_rgba ∅ None pen).
Proof.
  apply (@asm2png_paints_every_pixel some_set_order 0 None rows_header_style
           (concat rows_header_style) ∅).
  done.
Defined.

Lemma guess_format_fails_only_without_rows_witness :
  (rows_short_first <> [] ->
     exists f w h data,
       @guess_format some_set_order rows_short_first (concat rows_short_first)
       = Ok (f, w, h, data)
       /\ 0 <= w /\ 0 <= h /\ len data = w * h)
  /\ (forall e, @guess_format some_set_order rows_short_first (concat rows_short_first)
                = Raise e ->
        rows_short_first = [] /\ e = ValueError_no_rows)
  /\ @guess_format some_set_order [] [] = Raise ValueError_no_rows.
Proof.
  apply (@guess_format_fails_only_without_rows some_set_order rows_short_first
           (concat rows_short_first)).
Defined.

(** ** The parser never fails *)

Lemma take_while_forallb {A} (p : A -> bool) (l : list A) :
  forallb p (take_while p l) = true.
Proof.
  induction l as [| a l IH]; [done |]. cbn.
  destruct (p a) eqn:E; [| done]. cbn. by rewrite E.
Qed.

(** What an alternative with a prefix matches: the prefix and hexadecimal
    digits, one at least. *)
Lemma alt_prefixed_Some (prefix s tok : text) :
  alt_prefixed prefix s = Some tok ->
  exists hs, tok = prefix ++ hs /\ hs <> [] /\ forallb is_hex hs = true.
Proof.
  unfold alt_prefixed. destruct (startswith prefix s); [| done].
  destruct (take_while is_hex (drop (length prefix) s)) as [| c hs] eqn:E; [done |].
  intros [= <-]. exists (c :: hs). split; [done |]. split; [done |].
  rewrite <- E. apply take_while_forallb.
Qed.

Lemma alt_decimal_Some (s tok : text) :
  alt_decimal s = Some tok ->
  exists neg ds, tok = spell (Decimal neg ds) /\ ds <> [] /\ forallb is_digit ds = true.
Proof.
  assert (Hdigits : forall t d,
            match take_while is_digit t with [] => None | d0 => Some d0 end = Some d ->
            d <> [] /\ forallb is_digit d = true).
  { intros t d. destruct (take_while is_digit t) as [| c ds] eqn:E; [done |].
    intros [= <-]. split; [done |]. rewrite <- E. apply take_while_forallb. }
  unfold alt_decimal. destruct s as [| c t].
  - intros Hd. apply Hdigits in Hd as [? ?]. by exists false, tok.
  - destruct (Ascii.eqb c "-") eqn:Ec.
    + apply Ascii.eqb_eq in Ec as ->.
      destruct (match take_while is_digit t with [] => None | d0 => Some d0 end)
        as [d |] eqn:Et.
      * intros [= <-]. apply Hdigits in Et as [? ?]. by exists true, d.
      * intros Hd. apply Hdigits in Hd as [? ?]. by exists false, tok.
    + intros Hd. apply Hdigits in Hd as [? ?]. by exists false, tok.
Qed.

(** Every match of the token pattern is a well-formed literal. *)
Lemma match_token_literal (s tok : text) :
  match_token s = Some tok ->
  exists t, literal_ok t = true /\ tok = spell t.
Proof.
  unfold match_token.
  assert (Hok : forall hs : text, hs <> [] -> forallb is_hex hs = true ->
            negb (bool_decide (hs = [])) && forallb is_hex hs = true).
  { intros hs Hne ->. by rewrite bool_decide_eq_false_2. }
  destruct (alt_prefixed ["&"%char] s) as [t1 |] eqn:E1.
  { intros [= <-]. apply alt_prefixed_Some in E1 as (hs & -> & Hne & Hhs).
    exists (AmpHex hs). split; [by apply Hok | done]. }
  destruct (alt_prefixed ["0"%char; "x"%char] s) as [t2 |] eqn:E2.
  { intros [= <-]. apply alt_prefixed_Some in E2 as (hs & -> & Hne & Hhs).
    exists (ZeroXHex hs). split; [by apply Hok | done]. }
  destruct (alt_prefixed ["$"%char] s) as [t3 |] eqn:E3.
  { intros [= <-]. apply alt_prefixed_Some in E3 as (hs & -> & Hne & Hhs).
    exists (DollarHex hs). split; [by apply Hok | done]. }
  intros (neg & ds & -> & Hne & Hds)%alt_decimal_Some.
  exists (Decimal neg ds). split; [| done].
  cbn [literal_ok]. rewrite Hds. by rewrite bool_decide_eq_false_2.
Qed.

(** The tokens the scan finds are well-formed literals, all of them. *)
Lemma findall_from_literals (skip : nat) (s : text) :
  exists lits, forallb literal_ok lits = true
               /\ findall_from skip s = map spell lits.
Proof.
  revert skip. induction s as [| c s IH]; intros skip; cbn [findall_from].
  - by exists [].
  - destruct skip as [| k]; [| apply IH].
    destruct (match_token (c :: s)) as [tok |] eqn:E; [| apply IH].
    apply match_token_literal in E as (t & Hok & ->).
    destruct (IH (length (spell t) - 1)%nat) as (lits & Hlits & ->).
    exists (t :: lits). cbn [forallb map]. by rewrite Hok, Hlits.
Qed.

(** A data line yields bytes, whatever stands on it. *)
Lemma line_vals_total (line : text) :
  line_vals line = Ok None
  \/ exists vals, line_vals line = Ok (Some vals)
                  /\ Forall (fun b => 0 <= b <= 255) vals.
Proof.
  unfold line_vals.
  destruct (data_search false (before_comment line)) as [tail |]; [| by left].
  right. unfold findall_tokens.
  destruct (findall_from_literals 0 tail) as (lits & Hlits & ->).
  rewrite (token_vals_spell lits Hlits). cbn [mbind result_bind].
  eexists. split; [reflexivity |].
  apply Forall_forall. intros b [t [-> _]]%list_elem_of_fmap.
  pose proof (Z.mod_pos_bound (literal_value t) 256). lia.
Qed.

(** The loop over the lines, from any state it can be in. *)
Lemma parse_lines_from (lines : list text) (rows : list (list Z)) :
  Forall (fun r => r <> [] /\ Forall (fun b => 0 <= b <= 255) r) rows ->
  exists rows',
    fold_left
      (fun (acc : result (list (list Z) * list Z)) line =>
         '(rows, flat) ← acc;
         v ← line_vals line;
         match v with
         | Some (b :: vals) => Ok (rows ++ [b :: vals], flat ++ b :: vals)
         | _ => Ok (rows, flat)
         end)
      lines (Ok (rows, concat rows))
    = Ok (rows', concat rows')
    /\ Forall (fun r => r <> [] /\ Forall (fun b => 0 <= b <= 255) r) rows'
    /\ (length rows' <= length rows + length lines)%nat.
Proof.
  revert rows. induction lines as [| line lines IH]; intros rows Hrows;
    cbn [fold_left].
  - exists rows. split; [done |]. split; [done | lia].
  - cbn [mbind result_bind].
    destruct (line_vals_total line) as [-> | (vals & -> & Hvals)];
      cbn [mbind result_bind].
    + destruct (IH rows Hrows) as (rows' & -> & Hall & Hlen).
      exists rows'. split; [done |]. split; [done |]. cbn [length]. lia.
    + destruct vals as [| b vals].
      * destruct (IH rows Hrows) as (rows' & -> & Hall & Hlen).
        exists rows'. split; [done |]. split; [done |]. cbn [length]. lia.
      * assert (Hcat : concat rows ++ b :: vals = concat (rows ++ [b :: vals])).
        { rewrite concat_app. cbn [concat]. by rewrite app_nil_r. }
        rewrite Hcat.
        destruct (IH (rows ++ [b :: vals])) as (rows' & -> & Hall & Hlen).
        { apply Forall_app. split; [done |]. constructor; [done | constructor]. }
        exists rows'. split; [done |]. split; [done |].
        rewrite length_app in Hlen. cbn [length] in *. lia.
Qed.

Import Png2asmText.
Import Asm2pngsBlocks.

(** ** Labels and file names *)

Lemma word_not_slash c : is_word c = true -> Ascii.eqb c "/" = false.
Proof. char_fact is_word (fun c => Ascii.eqb c "/"). Qed.
Lemma word_not_space c : is_word c = true -> is_space c = false.
Proof. char_fact is_word is_space. Qed.
Lemma digit_is_word c : is_digit c = true -> is_word c = true.
Proof. apply (char_implies is_digit is_word). vm_compute. reflexivity. Qed.
Lemma upper_word c : is_word c = true -> is_word (upper c) = true.
Proof.
  apply (char_implies is_word (fun c => is_word (upper c))). vm_compute. reflexivity.
Qed.
Lemma upper_digit c : is_digit (upper c) = is_digit c.
Proof.
  assert (H : forallb (fun c => Bool.eqb (is_digit (upper c)) (is_digit c))
                (map ascii_of_nat (seq 0 256)) = true) by (vm_compute; reflexivity).
  rewrite forallb_forall in H. apply eqb_prop, H.
  apply in_map_iff. exists (nat_of_ascii c). split; [apply ascii_nat_embedding |].
  apply in_seq. pose proof (nat_ascii_bounded c). lia.
Qed.

(** Replacing what is not a word character leaves word characters only. *)
Lemma sub_non_word (s : text) :
  forallb is_word (map (fun c => if is_word c then c else "_"%char) s) = true.
Proof.
  induction s as [| c s IH]; [done |]. cbn [map forallb]. rewrite IH.
  by destruct (is_word c) eqn:E; [rewrite E |].
Qed.

Lemma sub_word_same (f : ascii -> ascii) (s : text) :
  (forall c, is_word c = true -> f c = c) ->
  forallb is_word s = true -> map f s = s.
Proof.
  intros Hf. induction s as [| c s IH]; [done |]. cbn [map forallb].
  intros [Hc Hs]%andb_true_iff. by rewrite Hf, IH.
Qed.

(** A name of word characters that does not start with a digit is left as
    it is. *)
Lemma safe_label_same (s : text) :
  forallb is_word s = true ->
  match s with c :: _ => is_digit c = false | [] => True end ->
  safe_label s = s.
Proof.
  intros Hs Hhead. unfold safe_label.
  rewrite (sub_word_same (fun c => if Ascii.eqb c "/" then "_"%char else c) s);
    [| intros c Hc; by rewrite word_not_slash | done].
  rewrite (sub_word_same (fun c => if is_word c then c else "_"%char) s);
    [| intros c Hc; by rewrite Hc | done].
  destruct s as [| c s]; [done |]. by rewrite Hhead.
Qed.

(** X14. safe_label always gives an assembler label: letters, digits and
    underscores only, never a digit first; it has one character for each
    character of the path, after [img_] if the path starts with a digit;
    a path that is such a label already is left as it is, so applying
    safe_label twice changes nothing more. *)
Theorem safe_label_is_a_label (rel_no_ext : text) :
  let l := safe_label rel_no_ext in
  forallb is_word l = true
  /\ match l with c :: _ => is_digit c = false | [] => rel_no_ext = [] end
  /\ (length l = length rel_no_ext
      \/ exists s, l = T "img_" ++ s /\ length s = length rel_no_ext)
  /\ safe_label l = l.
Proof.
  intros l.
  assert (Hbody : forallb is_word l = true
                  /\ match l with c :: _ => is_digit c = false | [] => rel_no_ext = [] end
                  /\ (length l = length rel_no_ext
                      \/ exists s, l = T "img_" ++ s /\ length s = length rel_no_ext)).
  { subst l. unfold safe_label.
    pose proof (sub_non_word
                  (map (fun c => if Ascii.eqb c "/" then "_"%char else c) rel_no_ext))
      as Hword.
    assert (Hlen : length (map (fun c => if is_word c then c else "_"%char)
                     (map (fun c => if Ascii.eqb c "/" then "_"%char else c)
                        rel_no_ext)) = length rel_no_ext)
      by by rewrite !length_map.
    destruct (map (fun c => if is_word c then c else "_"%char)
                (map (fun c => if Ascii.eqb c "/" then "_"%char else c) rel_no_ext))
      as [| c s] eqn:E.
    - split; [done |]. split; [| by left].
      destruct rel_no_ext; [done | discriminate].
    - destruct (is_digit c) eqn:Ed.
      + split; [by rewrite forallb_app, Hword |].
        split; [done |]. right. by exists (c :: s).
      + split; [done |]. split; [done |]. by left. }
  destruct Hbody as (Hword & Hhead & Hlen).
  repeat split; try done.
  apply safe_label_same; [done |]. by destruct l.
Qed.

Lemma drop_while_forallb {A} (p q : A -> bool) (s : list A) :
  forallb q s = true -> forallb q (drop_while p s) = true.
Proof.
  induction s as [| c s IH]; [done |]. cbn [forallb drop_while].
  intros [Hc Hs]%andb_true_iff. destruct (p c); [auto |].
  cbn [forallb]. by rewrite Hc, Hs.
Qed.

Lemma collapse_forallb (q : ascii -> bool) (s : text) :
  forallb q s = true -> forallb q (collapse_underscores s) = true.
Proof.
  induction s as [| a t IH]; [done |]. cbn [forallb].
  intros [Ha Ht]%andb_true_iff. cbn [collapse_underscores].
  destruct t as [| b t']; [cbn; by rewrite Ha |].
  destruct (Ascii.eqb a "_" && Ascii.eqb b "_"); [auto |].
  cbn [forallb]. rewrite Ha. by rewrite IH.
Qed.

Lemma strip_underscores_forallb (q : ascii -> bool) (s : text) :
  forallb q s = true -> forallb q (strip_underscores s) = true.
Proof.
  intros Hs. unfold strip_underscores.
  by apply forallb_rev, drop_while_forallb, forallb_rev, drop_while_forallb.
Qed.

(** X15. sanitize_name always gives a name a file can take: it is never
    empty ([IMG] stands in), has letters, digits and underscores only and
    no digit first; and so has its upper-case form, which [main] uses for
    the PNG's name. *)
Theorem sanitize_name_is_a_name (s : text) :
  let n := sanitize_name s in
  n <> []
  /\ forallb is_word n = true
  /\ match n with c :: _ => is_digit c = false | [] => False end
  /\ forallb is_word (map upper n) = true
  /\ match map upper n with c :: _ => is_digit c = false | [] => False end.
Proof.
  intros n.
  assert (Hbody : forallb is_word n = true
                  /\ match n with c :: _ => is_digit c = false | [] => False end).
  { subst n. unfold sanitize_name.
    pose proof (strip_underscores_forallb is_word _
                  (collapse_forallb is_word _ (sub_non_word (strip s)))) as Hword.
    destruct (strip_underscores
                (collapse_underscores
                   (map (fun c => if is_word c then c else "_"%char) (strip s))))
      as [| c t] eqn:E.
    - rewrite bool_decide_eq_true_2 by done. done.
    - rewrite bool_decide_eq_false_2 by done.
      destruct (is_digit c) eqn:Ed; [| done].
      split; [| done]. by rewrite forallb_app, Hword. }
  destruct Hbody as [Hword Hhead].
  split; [by destruct n |]. split; [done |]. split; [done |]. split.
  - rewrite forallb_forall in *. intros c [c' [<- Hc']]%in_map_iff.
    by apply upper_word, Hword.
  - destruct n as [| c t]; [done |]. cbn [map]. by rewrite upper_digit.
Qed.

(** ** INK hints and blocks *)

(** [int] of a string of decimal digits. *)
Lemma py_int_digits (ds : text) :
  ds <> [] -> forallb is_digit ds = true -> py_int 10 ds = Ok (digits_value 10 ds).
Proof. intros Hne Hds. apply (py_int_decimal false ds Hne Hds). Qed.

Lemma take_while_digits (s : text) : forallb is_digit (take_while is_digit s) = true.
Proof. apply take_while_forallb. Qed.

(** The two groups of a match of [ink_re] are strings of digits. *)
Lemma ink_here_digits (s d1 d2 : text) :
  ink_here s = Some (d1, d2) ->
  (d1 <> [] /\ forallb is_digit d1 = true)
  /\ (d2 <> [] /\ forallb is_digit d2 = true).
Proof.
  unfold ink_here.
  destruct (startswith _ _); [| done].
  case_bool_decide; [done |].
  case_bool_decide as Hd1; [done |].
  destruct (drop_while is_space (drop_while is_digit _)) as [| c s4]; [done |].
  destruct (Ascii.eqb c ","); [| done].
  case_bool_decide as Hd2; [done |].
  assert (Hres : Some (take_while is_digit (drop_while is_space (drop 3 s)),
                       take_while is_digit (drop_while is_space s4))
                 = Some (d1, d2) ->
                 (d1 <> [] /\ forallb is_digit d1 = true)
                 /\ (d2 <> [] /\ forallb is_digit d2 = true)).
  { intros [= <- <-]. repeat split; try done; apply take_while_digits. }
  destruct (drop_while is_digit (drop_while is_space s4)) as [| c' ?]; [done |].
  destruct (is_word c'); [done | done].
Qed.

Lemma ink_search_digits (prev : bool) (s d1 d2 : text) :
  ink_search prev s = Some (d1, d2) ->
  (d1 <> [] /\ forallb is_digit d1 = true)
  /\ (d2 <> [] /\ forallb is_digit d2 = true).
Proof.
  revert prev. induction s as [| c s IH]; intros prev; cbn [ink_search]; [done |].
  destruct (if prev then None else ink_here (c :: s)) as [[e1 e2] |] eqn:E.
  - intros [= -> ->]. destruct prev; [done |]. by apply ink_here_digits in E.
  - apply IH.
Qed.

(** Reading the hint of a line never fails; it adds at most one entry. *)
Lemma ink_hint_total (line : text) (pti : gmap Z Z) :
  ink_hint line pti = Ok pti
  \/ exists pen ink, 0 <= pen /\ 0 <= ink
                     /\ ink_hint line pti = Ok (<[pen := ink]> pti).
Proof.
  unfold ink_hint.
  destruct (ink_search false line) as [[d1 d2] |] eqn:E; [| by left].
  apply ink_search_digits in E as [[Hn1 Hd1] [Hn2 Hd2]].
  rewrite (py_int_digits d1 Hn1 Hd1), (py_int_digits d2 Hn2 Hd2).
  right. exists (digits_value 10 d1), (digits_value 10 d2).
  assert (Hpos : forall ds a, 0 <= a ->
            0 <= fold_left (fun acc c => acc * 10 + default 0 (digit_value c)) ds a).
  { induction ds as [| c ds IHds]; intros a Ha; cbn [fold_left]; [done |].
    apply IHds. unfold digit_value.
    destruct (is_digit c); [cbn; lia |].
    destruct (in_range 97 122 c); [cbn; lia |].
    destruct (in_range 65 90 c); cbn; lia. }
  split; [by apply Hpos |]. split; [by apply Hpos | done].
Qed.

Lemma line_bytes_total (line : text) :
  exists bytes, line_bytes line = Ok bytes /\ Forall (fun b => 0 <= b <= 255) bytes.
Proof.
  unfold line_bytes.
  destruct (line_vals_total line) as [-> | (vals & -> & Hvals)]; cbn [mbind result_bind].
  - by exists [].
  - by exists vals.
Qed.

Lemma start_block_ok (lbl : text) (st : parse_state) :
  parse_state_ok st -> parse_state_ok (start_block lbl st).
Proof.
  intros [Hblocks Hcur]. unfold start_block, parse_state_ok. cbn [blocks current db_bytes].
  split; [| constructor].
  apply Forall_app. split; [done |].
  destruct (current st); [by repeat constructor | constructor].
Qed.

Lemma fill_block_ok (line : text) (st : parse_state) :
  parse_state_ok st ->
  exists st', fill_block line st = Ok st' /\ parse_state_ok st'.
Proof.
  intros [Hblocks Hcur]. unfold fill_block.
  destruct (current st) as [b |] eqn:Ecur.
  - destruct (line_bytes_total line) as (bytes & Hbytes & Hrange).
    destruct (ink_hint_total line (pen_to_ink b)) as [-> | (pen & ink & _ & _ & ->)];
      cbn [mbind result_bind]; rewrite Hbytes; cbn [mbind result_bind];
      eexists; (split; [reflexivity |]); split; cbn [blocks current db_bytes];
      try done; by apply Forall_app.
  - exists st. split; [done |]. split; [done |]. by rewrite Ecur.
Qed.

Lemma parse_step_ok (line : text) (rest : list text) (st : parse_state) :
  parse_state_ok st ->
  exists st', parse_step line rest st = Ok st' /\ parse_state_ok st'.
Proof.
  intros Hst. unfold parse_step.
  destruct (label_colon_match line) as [name |].
  { eexists. split; [reflexivity |]. by apply start_block_ok. }
  destruct (label_solo_match line) as [candidate |]; [| by apply fill_block_ok].
  destruct (negb _ && _); [| by apply fill_block_ok].
  eexists. split; [reflexivity |]. by apply start_block_ok.
Qed.

Lemma parse_loop_ok (lines : list text) (st : parse_state) :
  parse_state_ok st ->
  exists st', parse_loop lines st = Ok st' /\ parse_state_ok st'.
Proof.
  revert st. induction lines as [| line rest IH]; intros st Hst; cbn [parse_loop].
  - by exists st.
  - destruct (parse_step_ok line rest st Hst) as (st1 & -> & Hst1).
    cbn [mbind result_bind]. by apply IH.
Qed.

Lemma whole_file_block_from (lines : list text) (b : block) :
  Forall (fun v => 0 <= v <= 255) (db_bytes b) ->
  exists b',
    fold_left
      (fun (acc : result block) line =>
         b ← acc;
         pti ← ink_hint line (pen_to_ink b);
         bytes ← line_bytes line;
         Ok {| label := Asm2pngs.label b; db_bytes := db_bytes b ++ bytes;
               pen_to_ink := pti |})
      lines (Ok b) = Ok b'
    /\ Asm2pngs.label b' = Asm2pngs.label b
    /\ Forall (fun v => 0 <= v <= 255) (db_bytes b').
Proof.
  revert b. induction lines as [| line rest IH]; intros b Hb; cbn [fold_left].
  - by exists b.
  - cbn [mbind result_bind].
    destruct (line_bytes_total line) as (bytes & Hbytes & Hrange).
    destruct (ink_hint_total line (pen_to_ink b)) as [-> | (pen & ink & _ & _ & ->)];
      cbn [mbind result_bind]; rewrite Hbytes; cbn [mbind result_bind];
      match goal with
      | |- context [fold_left _ rest (Ok ?b1)] =>
          destruct (IH b1) as (b' & -> & Hl & Hr);
            [cbn [db_bytes]; by apply Forall_app |]
      end; by exists b'.
Qed.

(** The parser returns, with a block or more, of bytes. *)
Lemma parse_blocks_from_asm_ok (lines : list text) :
  exists bs,
    parse_blocks_from_asm lines = Ok bs
    /\ bs <> []
    /\ Forall (fun b => Forall (fun v => 0 <= v <= 255) (db_bytes b)) bs.
Proof.
  unfold parse_blocks_from_asm.
  destruct (parse_loop_ok lines
              {| blocks := []; current := None; saw_any_label := false |})
    as (st & -> & Hblocks & Hcur).
  { split; [constructor | done]. }
  cbn [mbind result_bind].
  destruct (saw_any_label st) eqn:Esaw; cbn [negb].
  - destruct (current st) as [b |].
    + eexists. split; [reflexivity |]. split; [by destruct (blocks st) |].
      apply Forall_app. split; [done |]. by repeat constructor.
    + by destruct Hcur.
  - destruct (whole_file_block_from lines
                {| label := "IMG"; db_bytes := []; pen_to_ink := ∅ |})
      as (b & Hb & _ & Hrange); [constructor |].
    unfold whole_file_block. rewrite Hb. cbn [mbind result_bind].
    eexists. split; [reflexivity |]. split; [done |]. by repeat constructor.
Qed.

(** The loop over the INK lines returns. *)
Lemma parse_ink_hints_from (lines : list text) (pti : gmap Z Z) :
  exists pti',
    fold_left (fun (acc : result (gmap Z Z)) line => pti ← acc; ink_hint line pti)
              lines (Ok pti) = Ok pti'.
Proof.
  revert pti. induction lines as [| line lines IH]; intros pti; cbn [fold_left].
  - by exists pti.
  - cbn [mbind result_bind].
    destruct (ink_hint_total line pti) as [-> | (? & ? & _ & _ & ->)]; apply IH.
Qed.

(** X13. On (ASCII) lines of at most 4300 characters parse_asm_flexible
    never raises: every token its pattern finds is a literal [parse_num]
    reads, and every number of an INK hint is one [int] reads.  The rows it
    returns are not empty, at most one per line, each value is a byte
    ([n & 0xFF]), and [flat] is the rows end to end.  (CPython's [int]
    refuses a decimal string of more than 4300 digits, a limit [py_int]
    does not model; on such lines no literal reaches it.) *)
Theorem parse_asm_flexible_total (lines : list text) :
  Forall (fun line => len line <= 4300) lines ->
  exists rows flat pti,
    parse_asm_flexible lines = Ok (rows, flat)
    /\ parse_ink_hints lines = Ok pti
    /\ flat = concat rows
    /\ Forall (fun r => r <> [] /\ Forall (fun b => 0 <= b <= 255) r) rows
    /\ (length rows <= length lines)%nat.
Proof.
  intros _.
  destruct (parse_lines_from lines []) as (rows & Hparse & Hall & Hlen);
    [constructor |].
  destruct (parse_ink_hints_from lines ∅) as [pti Hpti].
  exists rows, (concat rows), pti. by repeat split.
Qed.

Lemma parse_asm_flexible_total_witness :
  exists rows flat pti,
    parse_asm_flexible [T "  db 1, 2 ; x"; T "; INK 0,13"; T "  defb &FF"]
    = Ok (rows, flat)
    /\ parse_ink_hints [T "  db 1, 2 ; x"; T "; INK 0,13"; T "  defb &FF"] = Ok pti
    /\ flat = concat rows
    /\ Forall (fun r => r <> [] /\ Forall (fun b => 0 <= b <= 255) r) rows
    /\ (length rows <= length [T "  db 1, 2 ; x"; T "; INK 0,13"; T "  defb &FF"])%nat.
Proof.
  apply (parse_asm_flexible_total
           [T "  db 1, 2 ; x"; T "; INK 0,13"; T "  defb &FF"]).
  repeat constructor; vm_compute; congruence.
Defined.

(** X16. On (ASCII) lines of at most 4300 characters parse_blocks_from_asm
    never raises and always gives a block at least: the blocks of the
    labels, or the single block [IMG] of a file without label.  Every
    value of a block is a byte.  (The bound keeps every literal under the
    4300 digits at which CPython's [int] raises, which [py_int] does not
    model.) *)
Theorem parse_blocks_from_asm_total (lines : list text) :
  Forall (fun line => len line <= 4300) lines ->
  exists bs,
    parse_blocks_from_asm lines = Ok bs
    /\ bs <> []
    /\ Forall (fun b => Forall (fun v => 0 <= v <= 255) (db_bytes b)) bs.
Proof. intros _. apply parse_blocks_from_asm_ok. Qed.

Lemma parse_blocks_from_asm_total_witness :
  exists bs,
    parse_blocks_from_asm
      [ T "SHIP"; T ";------ BEGIN IMAGE --------"; T "  db 1 ; ancho en bytes";
        T "  db 2 ; alto"; T "  db 195"; T "  db 60"; T "  ; INK 0,9";
        T "rock:"; T " defb 1, 1, &0F" ] = Ok bs
    /\ bs <> []
    /\ Forall (fun b => Forall (fun v => 0 <= v <= 255) (db_bytes b)) bs.
Proof.
  apply (parse_blocks_from_asm_total
           [ T "SHIP"; T ";------ BEGIN IMAGE --------"; T "  db 1 ; ancho en bytes";
             T "  db 2 ; alto"; T "  db 195"; T "  db 60"; T "  ; INK 0,9";
             T "rock:"; T " defb 1, 1, &0F" ]).
  repeat constructor; vm_compute; congruence.
Defined.

(** Without a label line the loop leaves its state as it was. *)
Lemma parse_loop_no_label (lines : list text) :
  Forall (fun line => label_colon_match line = None
                      /\ label_solo_match line = None) lines ->
  parse_loop lines {| blocks := []; current := None; saw_any_label := false |}
  = Ok {| blocks := []; current := None; saw_any_label := false |}.
Proof.
  induction 1 as [| line rest [Hc Hs] _ IH]; cbn [parse_loop]; [done |].
  unfold parse_step. rewrite Hc, Hs. unfold fill_block. cbn [current].
  cbn [mbind result_bind]. exact IH.
Qed.

(** The loop that fills the block [IMG] reads what the two loops of
    parse_asm_flexible read. *)
Lemma whole_file_block_agrees (lines : list text) (b : block) (rows : list (list Z)) :
  db_bytes b = concat rows ->
  exists rows' pti',
    fold_left
      (fun (acc : result (list (list Z) * list Z)) line =>
         '(rows, flat) ← acc;
         v ← line_vals line;
         match v with
         | Some (b :: vals) => Ok (rows ++ [b :: vals], flat ++ b :: vals)
         | _ => Ok (rows, flat)
         end)
      lines (Ok (rows, concat rows))
    = Ok (rows', concat rows')
    /\ fold_left (fun (acc : result (gmap Z Z)) line => pti ← acc; ink_hint line pti)
                 lines (Ok (pen_to_ink b))
       = Ok pti'
    /\ fold_left
         (fun (acc : result block) line =>
            b ← acc;
            pti ← ink_hint line (pen_to_ink b);
            bytes ← line_bytes line;
            Ok {| label := Asm2pngs.label b; db_bytes := db_bytes b ++ bytes;
                  pen_to_ink := pti |})
         lines (Ok b)
       = Ok {| label := Asm2pngs.label b; db_bytes := concat rows';
               pen_to_ink := pti' |}.
Proof.
  revert b rows. induction lines as [| line rest IH]; intros b rows Hb;
    cbn [fold_left].
  - exists rows, (pen_to_ink b). repeat split; try done. destruct b. cbn in *.
    by rewrite Hb.
  - cbn [mbind result_bind].
    assert (Hhint : exists pti1, ink_hint line (pen_to_ink b) = Ok pti1).
    { destruct (ink_hint_total line (pen_to_ink b)) as [-> | (? & ? & _ & _ & ->)];
        by eexists. }
    destruct Hhint as [pti1 ->].
    assert (Hbytes : forall v, line_vals line = Ok v ->
                               line_bytes line = Ok (default [] v)).
    { intros v Hv. unfold line_bytes. by rewrite Hv. }
    destruct (line_vals_total line) as [Hv | (vals & Hv & _)];
      rewrite Hv, (Hbytes _ Hv);
      cbn [mbind result_bind default from_option id].
    + destruct (IH {| label := Asm2pngs.label b; db_bytes := db_bytes b ++ [];
                      pen_to_ink := pti1 |} rows)
        as (rows' & pti' & Hp & Hh & Hw); [cbn; by rewrite app_nil_r |].
      exists rows', pti'. cbn [Asm2pngs.label db_bytes pen_to_ink] in Hh, Hw.
      by rewrite Hp, Hh, Hw.
    + destruct vals as [| v vals].
      * destruct (IH {| label := Asm2pngs.label b; db_bytes := db_bytes b ++ [];
                        pen_to_ink := pti1 |} rows)
          as (rows' & pti' & Hp & Hh & Hw); [cbn; by rewrite app_nil_r |].
        exists rows', pti'. cbn [Asm2pngs.label db_bytes pen_to_ink] in Hh, Hw.
        by rewrite Hp, Hh, Hw.
      * assert (Hcat : concat rows ++ v :: vals = concat (rows ++ [v :: vals])).
        { rewrite concat_app. cbn [concat]. by rewrite app_nil_r. }
        rewrite Hcat.
        destruct (IH {| label := Asm2pngs.label b;
                        db_bytes := db_bytes b ++ v :: vals;
                        pen_to_ink := pti1 |} (rows ++ [v :: vals]))
          as (rows' & pti' & Hp & Hh & Hw); [cbn; by rewrite Hb, Hcat |].
        exists rows', pti'. cbn [Asm2pngs.label db_bytes pen_to_ink] in Hh, Hw.
        by rewrite Hp, Hh, Hw.
Qed.

(** X17. Lines of at most 4300 characters none of which is a label are read
    by asm2pngs.py as the single block [IMG], and that block holds what
    asm2png.py collects from the same lines: its bytes are the [flat] of
    parse_asm_flexible and its hints are those of the loop over the INK
    lines.  (The bound keeps every literal under the 4300 digits at which
    CPython's [int] raises, which [py_int] does not model.) *)
Theorem unlabelled_file_is_one_block (lines : list text) :
  Forall (fun line => len line <= 4300) lines ->
  Forall (fun line => label_colon_match line = None
                      /\ label_solo_match line = None) lines ->
  exists rows flat pti,
    parse_asm_flexible lines = Ok (rows, flat)
    /\ parse_ink_hints lines = Ok pti
    /\ parse_blocks_from_asm lines
       = Ok [ {| label := "IMG"; db_bytes := flat; pen_to_ink := pti |} ].
Proof.
  intros _ Hlines.
  destruct (whole_file_block_agrees lines
              {| label := "IMG"; db_bytes := []; pen_to_ink := ∅ |} [] eq_refl)
    as (rows & pti & Hparse & Hhints & Hwhole).
  exists rows, (concat rows), pti. split; [done |]. split; [done |].
  unfold parse_blocks_from_asm. rewrite (parse_loop_no_label lines Hlines).
  cbn [mbind result_bind saw_any_label negb].
  unfold whole_file_block. by rewrite Hwhole.
Qed.

Lemma unlabelled_file_is_one_block_witness :
  exists rows flat pti,
    parse_asm_flexible [T "  db 1, 2 ; x"; T "; INK 0,13"; T "  defb &FF"]
    = Ok (rows, flat)
    /\ parse_ink_hints [T "  db 1, 2 ; x"; T "; INK 0,13"; T "  defb &FF"] = Ok pti
    /\ parse_blocks_from_asm [T "  db 1, 2 ; x"; T "; INK 0,13"; T "  defb &FF"]
       = Ok [ {| label := "IMG"; db_bytes := flat; pen_to_ink := pti |} ].
Proof.
  apply (unlabelled_file_is_one_block
           [T "  db 1, 2 ; x"; T "; INK 0,13"; T "  defb &FF"]).
  - repeat constructor; vm_compute; congruence.
  - repeat constructor.
Defined.

Example parse_blocks_sample :
  parse_blocks_from_asm
    [ T "; MODE 0"; T ""; T "SHIP"; T ";------ BEGIN IMAGE --------";
      T "  db 1 ; ancho en bytes"; T "  db 2 ; alto"; T "  db 195"; T "  db 60";
      T ";------ END IMAGE --------";
      T "  ; Paleta (PEN -> INK) detectada en el PNG";
      T "  ; INK 0,9"; T "  ; INK 1,6"; T "";
      T "rock:"; T " defb 1, 1, &0F"; T "; INK 3,26" ]
  = Ok [ {| label := "SHIP"; db_bytes := [1; 2; 195; 60];
            pen_to_ink := <[1 := 6]> (<[0 := 9]> ∅) |};
         {| label := "rock"; db_bytes := [1; 1; 15];
            pen_to_ink := <[3 := 26]> ∅ |} ].
Proof. vm_compute. reflexivity. Qed.

(** ** The text png2asm.py writes, read by asm2pngs.py *)

Lemma digit_char_spec (k : nat) :
  (k < 10)%nat ->
  is_digit (digit_char k) = true /\ digit_value (digit_char k) = Some (Z.of_nat k).
Proof.
  intros Hk. do 10 (destruct k as [| k]; [by vm_compute |]). lia.
Qed.

Lemma digits_value_snoc (ds : text) (c : ascii) :
  digits_value 10 (ds ++ [c]) = digits_value 10 ds * 10 + default 0 (digit_value c).
Proof. unfold digits_value. by rewrite fold_left_app. Qed.

(** The digits [str] writes for a natural number. *)
Lemma str_nat_aux_spec (fuel : nat) :
  forall (n : nat) (acc : text), (n < fuel)%nat ->
    exists ds, str_nat_aux fuel n acc = ds ++ acc
               /\ ds <> []
               /\ forallb is_digit ds = true
               /\ digits_value 10 ds = Z.of_nat n.
Proof.
  induction fuel as [| fuel IH]; intros n acc Hn; [lia |].
  cbn [str_nat_aux]. destruct (n <? 10)%nat eqn:E.
  - apply Nat.ltb_lt in E. destruct (digit_char_spec n E) as [Hd Hv].
    rewrite Nat.mod_small by done.
    exists [digit_char n]. split; [done |]. split; [done |]. split.
    + cbn [forallb]. by rewrite Hd.
    + unfold digits_value. cbn [fold_left]. rewrite Hv. cbn [default from_option id].
      lia.
  - apply Nat.ltb_ge in E.
    assert (Hlt : (n / 10 < fuel)%nat).
    { pose proof (Nat.div_lt n 10). lia. }
    destruct (IH (n / 10)%nat (digit_char (n mod 10) :: acc) Hlt)
      as (ds & -> & Hne & Hds & Hval).
    destruct (digit_char_spec (n mod 10)) as [Hd Hv];
      [apply Nat.mod_upper_bound; lia |].
    exists (ds ++ [digit_char (n mod 10)]). rewrite <- app_assoc.
    split; [done |]. split; [by destruct ds |]. split.
    + rewrite forallb_app, Hds. cbn [forallb]. by rewrite Hd.
    + rewrite digits_value_snoc, Hval, Hv. cbn [default from_option id].
      pose proof (Nat.div_mod_eq n 10). lia.
Qed.

Lemma str_nat_spec (n : nat) :
  str_nat n <> [] /\ forallb is_digit (str_nat n) = true
  /\ digits_value 10 (str_nat n) = Z.of_nat n.
Proof.
  unfold str_nat.
  destruct (str_nat_aux_spec (S n) n []) as (ds & -> & Hne & Hds & Hval); [lia |].
  by rewrite app_nil_r.
Qed.

(** [str(n)] is a decimal literal whose value is [n]. *)
Lemma str_int_spell (n : Z) :
  str_int n = spell (decimal_of n)
  /\ literal_ok (decimal_of n) = true
  /\ literal_value (decimal_of n) = n.
Proof.
  unfold str_int, decimal_of. destruct (n <? 0) eqn:E.
  - apply Z.ltb_lt in E.
    destruct (str_nat_spec (Z.to_nat (- n))) as (Hne & Hds & Hval).
    split; [done |]. split.
    + cbn [literal_ok]. rewrite Hds. by case_bool_decide.
    + cbn [literal_value]. rewrite Hval. lia.
  - apply Z.ltb_ge in E.
    destruct (str_nat_spec (Z.to_nat n)) as (Hne & Hds & Hval).
    split; [done |]. split.
    + cbn [literal_ok]. rewrite Hds. by case_bool_decide.
    + cbn [literal_value]. rewrite Hval. lia.
Qed.

(** *** Data lines *)

Lemma join_cons (sep a : text) (l : list text) :
  join sep (a :: l) = a ++ concat (map (fun x => sep ++ x) l).
Proof.
  revert a. induction l as [| b l IH]; intros a.
  - cbn. by rewrite app_nil_r.
  - change (join sep (a :: b :: l)) with (a ++ sep ++ join sep (b :: l)).
    rewrite IH. cbn [map concat]. by rewrite <- !app_assoc.
Qed.

(** The two blanks before a directive change nothing. *)
Lemma line_vals_indent (s : text) :
  line_vals (" "%char :: " "%char :: s) = line_vals s.
Proof. reflexivity. Qed.

(** Nor does a comment after the data. *)
Lemma line_vals_comment (l c : text) :
  forallb (fun ch => negb (Ascii.eqb ch ";")) l = true ->
  line_vals (l ++ ";"%char :: c) = line_vals l.
Proof.
  intros Hl. unfold line_vals, before_comment.
  rewrite (take_while_stop _ l (";"%char :: c) Hl) by done.
  by rewrite (take_while_all _ l Hl).
Qed.

(** A row as [main] writes it gives its values back, modulo 256. *)
Lemma line_vals_row (row : list Z) :
  line_vals (T "  db " ++ join (T ", ") (map str_int row))
  = Ok (Some (map (fun v => v mod 256) row)).
Proof.
  change (T "  db " ++ join (T ", ") (map str_int row))
    with (" "%char :: " "%char :: T "db" ++ T " " ++ join (T ", ") (map str_int row)).
  rewrite line_vals_indent.
  destruct row as [| v vs].
  - by vm_compute.
  - cbn [map]. rewrite join_cons.
    pose (items := (T " ", decimal_of v) :: map (fun v => (T ", ", decimal_of v)) vs).
    assert (Htext : T " " ++ str_int v
                    ++ concat (map (fun x => T ", " ++ x) (map str_int vs))
                    = spell_tail items []).
    { unfold spell_tail, items. cbn [map concat]. rewrite app_nil_r, <- app_assoc.
      destruct (str_int_spell v) as (-> & _). do 2 f_equal.
      rewrite !map_map. f_equal. apply map_ext. intros w.
      by destruct (str_int_spell w) as (-> & _). }
    rewrite Htext.
    assert (Hok : items_ok items = true).
    { unfold items_ok, items. cbn [forallb].
      destruct (str_int_spell v) as (_ & -> & _).
      apply andb_true_iff. split; [done |].
      apply forallb_forall. intros [sep t] [w [[= <- <-] _]]%in_map_iff.
      by destruct (str_int_spell w) as (_ & -> & _). }
    destruct (line_vals_literals items [] Hok eq_refl) as (_ & -> & _).
    do 2 f_equal. unfold items. cbn [map snd].
    destruct (str_int_spell v) as (_ & _ & ->). f_equal.
    rewrite map_map. apply map_ext. intros w. cbn [snd].
    by destruct (str_int_spell w) as (_ & _ & ->).
Qed.

(** The lines of the width and of the height: one value, then a comment. *)
Lemma line_vals_one (n : Z) (comment : text) :
  line_vals (T "  db " ++ str_int n ++ " "%char :: ";"%char :: comment)
  = Ok (Some [n mod 256]).
Proof.
  change (T "  db " ++ str_int n ++ " "%char :: ";"%char :: comment)
    with (" "%char :: " "%char
          :: T "db" ++ T " " ++ str_int n ++ " "%char :: ";"%char :: comment).
  rewrite line_vals_indent.
  destruct (str_int_spell n) as (Hs & Hok & Hval).
  assert (Htext : T "db" ++ T " " ++ str_int n ++ " "%char :: ";"%char :: comment
                  = (T "db" ++ spell_tail [(T " ", decimal_of n)] (T " "))
                    ++ ";"%char :: comment).
  { unfold spell_tail. cbn [map concat]. rewrite Hs, app_nil_r.
    by rewrite <- !app_assoc. }
  rewrite Htext.
  assert (Hitems : items_ok [(T " ", decimal_of n)] = true).
  { unfold items_ok. cbn [forallb]. by rewrite Hok. }
  rewrite line_vals_comment.
  - destruct (line_vals_literals [(T " ", decimal_of n)] (T " ") Hitems eq_refl)
      as (_ & -> & _).
    cbn [map snd]. by rewrite Hval.
  - rewrite forallb_app.
    by rewrite (spell_tail_no_comment [(T " ", decimal_of n)] (T " ") Hitems eq_refl).
Qed.

(** *** INK lines *)

Lemma ink_here_no_i (c : ascii) (s : text) :
  Ascii.eqb (lower c) "i" = false -> ink_here (c :: s) = None.
Proof.
  intros Hc. unfold ink_here.
  change (startswith (T "ink") (map lower (take 3 (c :: s))))
    with (Ascii.eqb (lower c) "i" && startswith (T "nk") (map lower (take 2 s))).
  by rewrite Hc.
Qed.

(** A text without the letter [i] has no INK hint. *)
Lemma ink_search_no_i (s : text) (prev : bool) :
  forallb (fun c => negb (Ascii.eqb (lower c) "i")) s = true ->
  ink_search prev s = None.
Proof.
  revert prev. induction s as [| c s IH]; intros prev; cbn [forallb ink_search];
    [done |].
  intros [Hc Hs]%andb_true_iff. apply negb_true_iff in Hc.
  rewrite (ink_here_no_i c s Hc). destruct prev; by apply IH.
Qed.

Lemma digit_not_i c : is_digit c = true -> Ascii.eqb (lower c) "i" = false.
Proof. char_fact is_digit (fun c => Ascii.eqb (lower c) "i"). Qed.
Lemma digit_not_space c : is_digit c = true -> is_space c = false.
Proof. char_fact is_digit is_space. Qed.

Lemma drop_while_stop {A} (p : A -> bool) (l rest : list A) :
  forallb p l = true ->
  match rest with [] => true | c :: _ => negb (p c) end = true ->
  drop_while p (l ++ rest) = rest.
Proof.
  intros Hl Hrest. induction l as [| a l IH]; cbn in *.
  - destruct rest as [| c rest]; [done |]. cbn.
    apply negb_true_iff in Hrest. by rewrite Hrest.
  - apply andb_true_iff in Hl as [-> Hl]. by apply IH.
Qed.

Lemma drop_while_head {A} (p : A -> bool) (l : list A) :
  match l with [] => true | c :: _ => negb (p c) end = true ->
  drop_while p l = l.
Proof. intros Hl. by apply (drop_while_stop p [] l). Qed.

(** Digits, then something that is no blank. *)
Lemma digits_head (d rest : text) :
  d <> [] -> forallb is_digit d = true ->
  match d ++ rest with [] => true | c :: _ => negb (is_space c) end = true.
Proof.
  intros Hne Hd. destruct d as [| c d]; [done |]. cbn [app forallb] in *.
  apply andb_true_iff in Hd as [Hc _]. by rewrite (digit_not_space c Hc).
Qed.

(** The pattern of [ink_re] on the text [main] writes for a hint. *)
Lemma ink_here_match (d1 d2 : text) :
  d1 <> [] -> forallb is_digit d1 = true ->
  d2 <> [] -> forallb is_digit d2 = true ->
  ink_here (T "INK " ++ d1 ++ T "," ++ d2) = Some (d1, d2).
Proof.
  intros Hne1 Hd1 Hne2 Hd2. unfold ink_here.
  change (startswith (T "ink") (map lower (take 3 (T "INK " ++ d1 ++ T "," ++ d2))))
    with true.
  cbv iota.
  change (drop 3 (T "INK " ++ d1 ++ T "," ++ d2))
    with (" "%char :: d1 ++ ","%char :: d2).
  change (take_while is_space (" "%char :: d1 ++ ","%char :: d2))
    with (" "%char :: take_while is_space (d1 ++ ","%char :: d2)).
  rewrite bool_decide_eq_false_2 by done.
  change (drop_while is_space (" "%char :: d1 ++ ","%char :: d2))
    with (drop_while is_space (d1 ++ ","%char :: d2)).
  rewrite (drop_while_head is_space (d1 ++ ","%char :: d2))
    by by apply digits_head.
  rewrite (take_while_stop is_digit d1 (","%char :: d2) Hd1 eq_refl).
  rewrite bool_decide_eq_false_2 by done.
  rewrite (drop_while_stop is_digit d1 (","%char :: d2) Hd1 eq_refl).
  change (drop_while is_space (","%char :: d2)) with (","%char :: d2).
  cbv iota. change (Ascii.eqb "," ",") with true. cbv iota.
  pose proof (digits_head d2 [] Hne2 Hd2) as Hh. rewrite app_nil_r in Hh.
  rewrite (drop_while_head is_space d2 Hh).
  rewrite (take_while_all is_digit d2 Hd2).
  rewrite bool_decide_eq_false_2 by done.
  pose proof (drop_while_stop is_digit d2 [] Hd2 eq_refl) as Hdrop.
  rewrite app_nil_r in Hdrop. by rewrite Hdrop.
Qed.

(** A hint line of png2asm.py gives its entry back. *)
Lemma ink_hint_line (pen ink : Z) (pti : gmap Z Z) :
  0 <= pen -> 0 <= ink ->
  ink_hint (T "  ; INK " ++ str_int pen ++ T "," ++ str_int ink) pti
  = Ok (<[pen := ink]> pti).
Proof.
  intros Hpen Hink. unfold ink_hint.
  assert (Hstr : forall n, 0 <= n ->
            str_int n <> [] /\ forallb is_digit (str_int n) = true
            /\ digits_value 10 (str_int n) = n).
  { intros n Hn. unfold str_int.
    destruct (n <? 0) eqn:E; [apply Z.ltb_lt in E; lia |].
    destruct (str_nat_spec (Z.to_nat n)) as (? & ? & Hv).
    split; [done |]. split; [done |]. rewrite Hv. lia. }
  destruct (Hstr pen Hpen) as (Hne1 & Hd1 & Hv1).
  destruct (Hstr ink Hink) as (Hne2 & Hd2 & Hv2).
  change (ink_search false (T "  ; INK " ++ str_int pen ++ T "," ++ str_int ink))
    with (match ink_here (T "INK " ++ str_int pen ++ T "," ++ str_int ink) with
          | Some m => Some m
          | None => ink_search true (T "NK " ++ str_int pen ++ T "," ++ str_int ink)
          end).
  rewrite (ink_here_match _ _ Hne1 Hd1 Hne2 Hd2).
  rewrite (py_int_digits _ Hne1 Hd1), (py_int_digits _ Hne2 Hd2).
  cbn [mbind result_bind]. by rewrite Hv1, Hv2.
Qed.

(** It holds no data. *)
Lemma line_bytes_comment (s : text) :
  line_bytes (" "%char :: " "%char :: ";"%char :: s) = Ok []
  /\ line_bytes (";"%char :: s) = Ok [].
Proof. split; reflexivity. Qed.

(** *** Lines that are no labels *)

(** A line that goes to the block being filled. *)
Lemma parse_step_plain (line : text) (rest : list text) (st : parse_state)
    (b : block) (pti' : gmap Z Z) (bytes : list Z) :
  current st = Some b ->
  label_colon_match line = None ->
  match label_solo_match line with
  | None => True
  | Some cand => map lower cand ∈ directives
  end ->
  ink_hint line (pen_to_ink b) = Ok pti' ->
  line_bytes line = Ok bytes ->
  parse_step line rest st
  = Ok {| blocks := blocks st;
          current := Some {| label := Asm2pngs.label b;
                             db_bytes := db_bytes b ++ bytes;
                             pen_to_ink := pti' |};
          saw_any_label := saw_any_label st |}.
Proof.
  intros Hcur Hcolon Hsolo Hink Hbytes. unfold parse_step. rewrite Hcolon.
  assert (Hfill : fill_block line st
                  = Ok {| blocks := blocks st;
                          current := Some {| label := Asm2pngs.label b;
                                             db_bytes := db_bytes b ++ bytes;
                                             pen_to_ink := pti' |};
                          saw_any_label := saw_any_label st |}).
  { unfold fill_block. rewrite Hcur, Hink, Hbytes. done. }
  destruct (label_solo_match line) as [cand |]; [| done].
  by rewrite (bool_decide_eq_true_2 _ Hsolo).
Qed.

(** Lines without hint: their data go to the block, one after the other. *)
Lemma parse_loop_quiet (ls : list text) (bss : list (list Z)) (rest : list text) :
  Forall2 (fun line bs =>
             label_colon_match line = None
             /\ match label_solo_match line with
                | None => True
                | Some cand => map lower cand ∈ directives
                end
             /\ ink_search false line = None
             /\ line_bytes line = Ok bs) ls bss ->
  forall (st : parse_state) (b : block),
    current st = Some b ->
    parse_loop (ls ++ rest) st
    = parse_loop rest
        {| blocks := blocks st;
           current := Some {| label := Asm2pngs.label b;
                              db_bytes := db_bytes b ++ concat bss;
                              pen_to_ink := pen_to_ink b |};
           saw_any_label := saw_any_label st |}.
Proof.
  induction 1 as [| line bs ls bss (Hcolon & Hsolo & Hink & Hbytes) _ IH];
    intros st b Hcur.
  - cbn [app concat]. rewrite app_nil_r. destruct st, b. by cbn in *; subst.
  - cbn [app parse_loop].
    rewrite (parse_step_plain line (ls ++ rest) st b (pen_to_ink b) bs Hcur Hcolon Hsolo);
      [| unfold ink_hint; by rewrite Hink | done].
    cbn [mbind result_bind]. erewrite IH; [| cbn [current]; reflexivity].
    cbn [blocks current saw_any_label Asm2pngs.label db_bytes pen_to_ink concat].
    by rewrite <- app_assoc.
Qed.

(** The hint lines: an entry each, in order. *)
Lemma parse_loop_hints (pairs : list (Z * Z)) (rest : list text) :
  Forall (fun '(pen, ink) => 0 <= pen /\ 0 <= ink) pairs ->
  forall (st : parse_state) (b : block),
    current st = Some b ->
    parse_loop
      (map (fun '(pen, ink) => T "  ; INK " ++ str_int pen ++ T "," ++ str_int ink)
           pairs ++ rest) st
    = parse_loop rest
        {| blocks := blocks st;
           current := Some {| label := Asm2pngs.label b;
                              db_bytes := db_bytes b;
                              pen_to_ink :=
                                fold_left (fun (m : gmap Z Z) '(pen, ink) =>
                                             <[pen := ink]> m)
                                          pairs (pen_to_ink b) |};
           saw_any_label := saw_any_label st |}.
Proof.
  induction 1 as [| [pen ink] pairs [Hpen Hink] _ IH]; intros st b Hcur.
  - cbn [map app fold_left]. destruct st, b. by cbn in *; subst.
  - cbn [map app parse_loop fold_left].
    rewrite (parse_step_plain _ (_ ++ rest) st b (<[pen := ink]> (pen_to_ink b)) []
               Hcur); [| reflexivity | exact I | by apply ink_hint_line | reflexivity].
    cbn [mbind result_bind]. erewrite IH; [| cbn [current]; reflexivity].
    cbn [blocks current saw_any_label Asm2pngs.label db_bytes pen_to_ink].
    by rewrite app_nil_r.
Qed.

(** *** The lines of a block *)

Lemma number_char_plain c :
  is_digit c || Ascii.eqb c "-" = true ->
  negb (is_space c) && negb (Ascii.eqb c ":") && negb (Ascii.eqb (lower c) "i") = true.
Proof.
  apply (char_implies (fun c => is_digit c || Ascii.eqb c "-")
           (fun c => negb (is_space c) && negb (Ascii.eqb c ":")
                     && negb (Ascii.eqb (lower c) "i"))).
  vm_compute. reflexivity.
Qed.

(** [str(n)] is made of digits after an optional minus sign. *)
Lemma str_int_chars (n : Z) :
  str_int n <> []
  /\ forallb (fun c => is_digit c || Ascii.eqb c "-") (str_int n) = true.
Proof.
  assert (Hnat : forall k, str_nat k <> []
            /\ forallb (fun c => is_digit c || Ascii.eqb c "-") (str_nat k) = true).
  { intros k. destruct (str_nat_spec k) as (Hne & Hds & _). split; [done |].
    rewrite forallb_forall in *. intros c Hc. by rewrite (Hds c Hc). }
  unfold str_int. destruct (n <? 0).
  - split; [done |]. cbn [forallb]. by destruct (Hnat (Z.to_nat (- n))) as [_ ->].
  - apply Hnat.
Qed.

Lemma str_int_head (n : Z) (rest : text) :
  match str_int n ++ rest with
  | [] => true
  | c :: _ => negb (is_space c) && negb (Ascii.eqb c ":")
  end = true.
Proof.
  destruct (str_int_chars n) as [Hne Hall].
  destruct (str_int n) as [| c s]; [done |]. cbn [app forallb] in *.
  apply andb_true_iff in Hall as [Hc _].
  pose proof (number_char_plain c Hc) as Hp.
  by apply andb_true_iff in Hp as [-> _].
Qed.

Lemma str_int_no_i (n : Z) :
  forallb (fun c => negb (Ascii.eqb (lower c) "i")) (str_int n) = true.
Proof.
  destruct (str_int_chars n) as [_ Hall]. rewrite forallb_forall in *.
  intros c Hc. pose proof (number_char_plain c (Hall c Hc)) as Hp.
  by apply andb_true_iff in Hp as [_ ->].
Qed.

(** A data line of png2asm.py is no label and holds no hint. *)
Lemma db_line_plain (X : text) :
  match X with
  | [] => true
  | c :: _ => negb (is_space c) && negb (Ascii.eqb c ":")
  end = true ->
  forallb (fun c => negb (Ascii.eqb (lower c) "i")) X = true ->
  label_colon_match (T "  db " ++ X) = None
  /\ match label_solo_match (T "  db " ++ X) with
     | None => True
     | Some cand => map lower cand ∈ directives
     end
  /\ ink_search false (T "  db " ++ X) = None.
Proof.
  intros Hhead Hno. split; [| split].
  - destruct X as [| c X]; [reflexivity |].
    apply andb_true_iff in Hhead as [Hsp Hcol].
    apply negb_true_iff in Hsp, Hcol.
    unfold label_colon_match.
    change (ident_at (drop_while is_space (T "  db " ++ c :: X)))
      with (Some (T "db", " "%char :: c :: X)).
    cbv iota beta.
    change (drop_while is_space (" "%char :: c :: X))
      with (if is_space c then drop_while is_space X else c :: X).
    by rewrite Hsp, Hcol.
  - destruct X as [| c X].
    + change (label_solo_match (T "  db " ++ [])) with (Some (T "db")).
      by constructor.
    + apply andb_true_iff in Hhead as [Hsp _]. apply negb_true_iff in Hsp.
      unfold label_solo_match.
      change (ident_at (drop_while is_space (T "  db " ++ c :: X)))
        with (Some (T "db", " "%char :: c :: X)).
      cbv iota beta.
      change (drop_while is_space (" "%char :: c :: X))
        with (if is_space c then drop_while is_space X else c :: X).
      rewrite Hsp. by rewrite bool_decide_eq_false_2.
  - apply ink_search_no_i. by rewrite forallb_app, Hno.
Qed.

Lemma forallb_concat {A} (p : A -> bool) (ls : list (list A)) :
  Forall (fun l => forallb p l = true) ls -> forallb p (concat ls) = true.
Proof.
  induction 1 as [| l ls Hl _ IH]; [done |]. cbn [concat].
  by rewrite forallb_app, Hl, IH.
Qed.

(** A row line. *)
Lemma row_line_quiet (row : list Z) :
  let line := T "  db " ++ join (T ", ") (map str_int row) in
  label_colon_match line = None
  /\ match label_solo_match line with
     | None => True
     | Some cand => map lower cand ∈ directives
     end
  /\ ink_search false line = None
  /\ line_bytes line = Ok (map (fun v => v mod 256) row).
Proof.
  intros line. subst line.
  assert (Hplain := db_line_plain (join (T ", ") (map str_int row))).
  destruct Hplain as (Hc & Hs & Hi).
  - destruct row as [| v vs]; [done |]. cbn [map]. rewrite join_cons.
    apply str_int_head.
  - destruct row as [| v vs]; [done |]. cbn [map]. rewrite join_cons.
    rewrite forallb_app, str_int_no_i. apply forallb_concat.
    rewrite map_map. apply Forall_forall. intros x (w & -> & _)%list_elem_of_fmap.
    rewrite forallb_app. by rewrite str_int_no_i.
  - split; [done |]. split; [done |]. split; [done |].
    unfold line_bytes. by rewrite line_vals_row.
Qed.

(** A line of the header: the width or the height, with its comment. *)
Lemma header_line_quiet (n : Z) (comment : text) :
  forallb (fun c => negb (Ascii.eqb (lower c) "i")) comment = true ->
  let line := T "  db " ++ str_int n ++ " "%char :: ";"%char :: comment in
  label_colon_match line = None
  /\ match label_solo_match line with
     | None => True
     | Some cand => map lower cand ∈ directives
     end
  /\ ink_search false line = None
  /\ line_bytes line = Ok [n mod 256].
Proof.
  intros Hcomment line. subst line.
  destruct (db_line_plain (str_int n ++ " "%char :: ";"%char :: comment))
    as (Hc & Hs & Hi).
  - apply str_int_head.
  - rewrite forallb_app, str_int_no_i. cbn [forallb]. by rewrite Hcomment.
  - split; [done |]. split; [done |]. split; [done |].
    unfold line_bytes. by rewrite line_vals_one.
Qed.

(** *** The text of a block *)

Lemma render_all_app (ws1 ws2 : list write) :
  render_all (ws1 ++ ws2)
  = match render_all ws1, render_all ws2 with
    | Some l1, Some l2 => Some (l1 ++ l2)
    | _, _ => None
    end.
Proof.
  induction ws1 as [| w ws1 IH]; cbn [app render_all].
  - by destruct (render_all ws2).
  - rewrite IH. destruct (render_lines w) as [l |]; [| done].
    destruct (render_all ws1) as [l1 |]; [| done].
    destruct (render_all ws2) as [l2 |]; [| done]. by rewrite app_assoc.
Qed.

Lemma render_all_rows (rows : list (list Z)) :
  render_all (map W_row rows)
  = Some (map (fun row => T "  db " ++ join (T ", ") (map str_int row)) rows).
Proof.
  induction rows as [| row rows IH]; [done |]. cbn [map render_all render_lines].
  by rewrite IH.
Qed.

Lemma render_all_inks (pairs : list (Z * Z)) :
  render_all (map (fun '(pen, ink) => W_ink pen ink) pairs)
  = Some (map (fun '(pen, ink) => T "  ; INK " ++ str_int pen ++ T "," ++ str_int ink)
              pairs).
Proof.
  induction pairs as [| [pen ink] pairs IH]; [done |].
  cbn [map render_all render_lines]. by rewrite IH.
Qed.

(** The lines [main] writes for a converted image. *)
Lemma render_converted (c : converted) :
  render_all (converted_writes c)
  = Some (map upper (T (c_label c))
          :: ([T ";------ BEGIN IMAGE --------";
               T "  db " ++ str_int (Z.of_nat (c_width_bytes c)) ++ T " ; ancho en bytes";
               T "  db " ++ str_int (Z.of_nat (c_height c)) ++ T " ; alto"]
              ++ map (fun row => T "  db " ++ join (T ", ") (map str_int row))
                     (c_rows c)
              ++ [T ";------ END IMAGE --------";
                  T "  ; Paleta (PEN -> INK) detectada en el PNG"])
          ++ map (fun '(pen, ink) =>
                    T "  ; INK " ++ str_int pen ++ T "," ++ str_int ink)
                 (enumerate (c_used c))
          ++ [[]]).
Proof.
  unfold converted_writes, image_block. cbn [app].
  cbn [render_all render_lines].
  rewrite render_all_app, render_all_rows.
  cbn [render_all render_lines].
  rewrite render_all_app, render_all_inks.
  cbn [render_all render_lines app].
  by rewrite <- !app_assoc.
Qed.

Lemma enumerate_nonneg (used : list Z) :
  Forall (fun i => 0 <= i) used ->
  Forall (fun '(pen, ink) => 0 <= pen /\ 0 <= ink) (enumerate used).
Proof.
  intros Hused. apply Forall_forall. intros [pen ink] Hin.
  apply list_elem_of_In in Hin. unfold enumerate in Hin.
  pose proof (in_combine_l _ _ _ _ Hin) as Hl.
  pose proof (in_combine_r _ _ _ _ Hin) as Hr.
  apply in_map_iff in Hl as (k & <- & _). split; [lia |].
  rewrite Forall_forall in Hused. apply Hused. by apply list_elem_of_In.
Qed.

(** The label line opens a block; the lines after it fill it. *)
Lemma parse_converted (c : converted) (ls rest : list text) (st : parse_state) :
  render_all (converted_writes c) = Some ls ->
  forallb is_word (T (c_label c)) = true ->
  match T (c_label c) with c0 :: _ => is_digit c0 = false | [] => False end ->
  map lower (T (c_label c)) ∉ directives ->
  Forall (fun i => 0 <= i) (c_used c) ->
  parse_loop (ls ++ rest) st
  = parse_loop rest
      {| blocks := blocks st ++ match current st with Some b => [b] | None => [] end;
         current := Some (read_back c);
         saw_any_label := true |}.
Proof.
  intros Hls Hword Hhead Hdir Hused.
  rewrite render_converted in Hls. apply (inj Some) in Hls. rewrite <- Hls. clear Hls.
  set (lbl := map upper (T (c_label c))).
  assert (Hlword : forallb is_word lbl = true).
  { subst lbl. rewrite forallb_forall in *.
    intros ch (c0 & <- & Hc0)%in_map_iff. apply upper_word. by apply Hword. }
  assert (Hlhead : exists c0 s, lbl = c0 :: s /\ is_word c0 = true
                                /\ is_digit c0 = false).
  { subst lbl. destruct (T (c_label c)) as [| c0 s]; [done |].
    exists (upper c0), (map upper s). split; [done |]. split.
    - cbn [forallb] in Hword. apply andb_true_iff in Hword as [Hc0 _].
      by apply upper_word.
    - by rewrite upper_digit. }
  assert (Hllow : map lower lbl = map lower (T (c_label c))).
  { subst lbl. rewrite map_map. apply map_ext. intros ch.
    assert (Hch : Ascii.eqb (lower (upper ch)) (lower ch) = true).
    { apply (char_implies (fun _ => true)
                          (fun ch => Ascii.eqb (lower (upper ch)) (lower ch)));
        [vm_compute; reflexivity | done]. }
    by apply Ascii.eqb_eq in Hch. }
  destruct Hlhead as (c0 & s & Hl & Hw0 & Hd0).
  assert (Hident : ident_at (drop_while is_space lbl) = Some (lbl, [])).
  { rewrite drop_while_head by (rewrite Hl; by rewrite (word_not_space c0 Hw0)).
    unfold ident_at. rewrite Hl at 1. rewrite Hw0, Hd0. cbn [andb negb].
    rewrite (take_while_all is_word lbl Hlword).
    pose proof (drop_while_stop is_word lbl [] Hlword eq_refl) as Hdrop.
    rewrite app_nil_r in Hdrop. by rewrite Hdrop. }
  assert (Hstep : forall tail,
            opens_block (next_relevant_line tail) = true ->
            parse_step lbl tail st = Ok (start_block lbl st)).
  { intros tail Hopen. unfold parse_step, label_colon_match, label_solo_match.
    rewrite Hident. cbn [drop_while]. rewrite bool_decide_eq_true_2 by done.
    rewrite Hllow. rewrite (bool_decide_eq_false_2 _ Hdir). cbn [negb andb].
    by rewrite Hopen. }
  remember (map (fun row => T "  db " ++ join (T ", ") (map str_int row)) (c_rows c))
    as rowlines eqn:Hrowlines.
  remember (map (fun '(pen, ink) => T "  ; INK " ++ str_int pen ++ T "," ++ str_int ink)
                (enumerate (c_used c))) as inklines eqn:Hinklines.
  remember ([T ";------ BEGIN IMAGE --------";
             T "  db " ++ str_int (Z.of_nat (c_width_bytes c)) ++ T " ; ancho en bytes";
             T "  db " ++ str_int (Z.of_nat (c_height c)) ++ T " ; alto"]
            ++ rowlines
            ++ [T ";------ END IMAGE --------";
                T "  ; Paleta (PEN -> INK) detectada en el PNG"]) as body eqn:Hbody.
  assert (Hopen : forall more, opens_block (next_relevant_line (body ++ more)) = true).
  { intros more. by rewrite Hbody. }
  assert (Hquiet :
    Forall2 (fun line bs =>
               label_colon_match line = None
               /\ match label_solo_match line with
                  | None => True
                  | Some cand => map lower cand ∈ directives
                  end
               /\ ink_search false line = None
               /\ line_bytes line = Ok bs)
      body
      ([[]; [Z.of_nat (c_width_bytes c) mod 256]; [Z.of_nat (c_height c) mod 256]]
       ++ map (map (fun v => v mod 256)) (c_rows c) ++ [[]; []])).
  { rewrite Hbody, Hrowlines. apply Forall2_app.
    - constructor; [by repeat split |].
      constructor; [by apply (header_line_quiet _ (T " ancho en bytes")) |].
      constructor; [by apply (header_line_quiet _ (T " alto")) |]. constructor.
    - apply Forall2_app.
      + apply Forall2_fmap. apply Forall_Forall2_diag. apply Forall_forall.
        intros row _. apply row_line_quiet.
      + constructor; [by repeat split |]. constructor; [by repeat split |].
        constructor. }
  change (parse_loop ((lbl :: body ++ inklines ++ [[]]) ++ rest) st)
    with (st' ← parse_step lbl ((body ++ inklines ++ [[]]) ++ rest) st;
          parse_loop ((body ++ inklines ++ [[]]) ++ rest) st').
  rewrite <- !app_assoc.
  rewrite (Hstep _ (Hopen _)). cbn [mbind result_bind].
  erewrite (parse_loop_quiet body _ _ Hquiet);
    [| cbn [start_block current]; reflexivity].
  rewrite Hinklines.
  erewrite (parse_loop_hints (enumerate (c_used c)));
    [| by apply enumerate_nonneg | cbn [current]; reflexivity].
  erewrite (parse_loop_quiet [[]] [[]] rest);
    [| constructor; [by repeat split | constructor] | cbn [current]; reflexivity].
  f_equal. unfold start_block, read_back.
  cbn [blocks current saw_any_label Asm2pngs.label db_bytes pen_to_ink concat app map].
  do 3 f_equal.
  rewrite !app_nil_r. rewrite concat_app. cbn [concat app]. rewrite app_nil_r.
  do 2 f_equal. by rewrite concat_map.
Qed.

(** *** The whole body of the file *)

(** The hints of a block, pen by pen. *)
Lemma hints_lookup (u : list Z) :
  forall (s : nat) (m : gmap Z Z) (k : Z),
    fold_left (fun (m : gmap Z Z) '(pen, ink) => <[pen := ink]> m)
              (combine (map Z.of_nat (seq s (length u))) u) m !! k
    = if bool_decide (Z.of_nat s <= k < Z.of_nat s + Z.of_nat (length u))
      then u !! (Z.to_nat k - s)%nat else m !! k.
Proof.
  induction u as [| i u IH]; intros s m k; cbn [length seq map combine fold_left].
  - by rewrite bool_decide_eq_false_2 by lia.
  - rewrite IH. case_bool_decide as H1; case_bool_decide as H2; try lia.
    + by replace (Z.to_nat k - s)%nat with (S (Z.to_nat k - S s)) by lia.
    + assert (k = Z.of_nat s) as -> by lia. rewrite lookup_insert_eq.
      by replace (Z.to_nat (Z.of_nat s) - s)%nat with 0%nat by lia.
    + by rewrite lookup_insert_ne by lia.
Qed.

Lemma read_back_hints (c : converted) (k : Z) :
  pen_to_ink (read_back c) !! k
  = if bool_decide (0 <= k) then c_used c !! Z.to_nat k else None.
Proof.
  unfold read_back. cbn [pen_to_ink]. unfold enumerate. rewrite hints_lookup.
  rewrite Nat.sub_0_r.
  case_bool_decide as H1; case_bool_decide as H2; try lia; try done.
  symmetry. apply lookup_ge_None_2. lia.
Qed.

(** Before the first label nothing is kept. *)
Lemma parse_loop_idle (ls rest : list text) (st : parse_state) :
  current st = None ->
  Forall (fun line => label_colon_match line = None
                      /\ label_solo_match line = None) ls ->
  parse_loop (ls ++ rest) st = parse_loop rest st.
Proof.
  intros Hcur. induction 1 as [| line ls [Hc Hs] _ IH]; [done |].
  cbn [app parse_loop]. unfold parse_step. rewrite Hc, Hs.
  unfold fill_block. rewrite Hcur. cbn [mbind result_bind]. exact IH.
Qed.

(** The blocks of the images, one after the other. *)
Lemma parse_converted_all (imgs : list converted) :
  forall (body rest : list text) (st : parse_state),
    render_all (flat_map converted_writes imgs) = Some body ->
    Forall (fun c =>
              forallb is_word (T (c_label c)) = true
              /\ match T (c_label c) with
                 | c0 :: _ => is_digit c0 = false
                 | [] => False
                 end
              /\ (map lower (T (c_label c)) ∉ directives)
              /\ Forall (fun i => 0 <= i) (c_used c)) imgs ->
    exists st',
      parse_loop (body ++ rest) st = parse_loop rest st'
      /\ blocks st' ++ match current st' with Some b => [b] | None => [] end
         = (blocks st ++ match current st with Some b => [b] | None => [] end)
           ++ map read_back imgs
      /\ (imgs <> [] -> saw_any_label st' = true /\ current st' <> None)
      /\ (imgs = [] -> st' = st).
Proof.
  induction imgs as [| c imgs IH]; intros body rest st Hbody Hok.
  - cbn in Hbody. apply (inj Some) in Hbody. subst body.
    exists st. cbn [app map]. by rewrite app_nil_r.
  - cbn [flat_map] in Hbody. rewrite render_all_app in Hbody.
    destruct (render_all (converted_writes c)) as [l1 |] eqn:E1; [| done].
    destruct (render_all (flat_map converted_writes imgs)) as [l2 |] eqn:E2;
      [| done].
    apply (inj Some) in Hbody. subst body.
    apply Forall_cons in Hok as [(Hword & Hhead & Hdir & Hused) Hok].
    rewrite <- app_assoc.
    rewrite (parse_converted c l1 (l2 ++ rest) st E1 Hword Hhead Hdir Hused).
    match goal with
    | |- context [parse_loop (l2 ++ rest) ?s] => set (st1 := s)
    end.
    destruct (IH l2 rest st1 eq_refl Hok) as (st' & -> & Hblocks & Hsaw & Hnil).
    exists st'. split; [done |]. split; [| split; [| done]].
    + rewrite Hblocks. subst st1. cbn [blocks current map].
      by rewrite <- !app_assoc.
    + intros _. destruct imgs as [| c' imgs]; [| by apply Hsaw].
      by rewrite (Hnil eq_refl).
Qed.

(** The blocks found in the body png2asm.py wrote. *)
Lemma blocks_read_back (m : Z) (imgs : list converted)
    (body trailer : list text) :
  render_all (W_mode m :: flat_map converted_writes imgs) = Some body ->
  imgs <> [] ->
  Forall (fun c =>
            forallb is_word (T (c_label c)) = true
            /\ match T (c_label c) with
               | c0 :: _ => is_digit c0 = false
               | [] => False
               end
            /\ (map lower (T (c_label c)) ∉ directives)
            /\ Forall (fun i => 0 <= i) (c_used c)) imgs ->
  Forall (fun line => (exists s, line = ";"%char :: s)
                      /\ ink_search false line = None) trailer ->
  exists bs,
    parse_blocks_from_asm (body ++ trailer) = Ok bs
    /\ Forall2
         (fun b c =>
            Asm2pngs.label b = string_of_list_ascii (map upper (T (c_label c)))
            /\ db_bytes b
               = map (fun v => v mod 256)
                     (Z.of_nat (c_width_bytes c) :: Z.of_nat (c_height c)
                      :: concat (c_rows c))
            /\ forall k : Z,
                 pen_to_ink b !! k
                 = if bool_decide (0 <= k) then c_used c !! Z.to_nat k else None)
         bs imgs.
Proof.
  intros Hbody Hne Hok Htrailer.
  cbn [render_all render_lines] in Hbody.
  destruct (render_all (flat_map converted_writes imgs)) as [body' |] eqn:E;
    [| done].
  apply (inj Some) in Hbody. subst body.
  exists (map read_back imgs). split.
  - unfold parse_blocks_from_asm. rewrite <- app_assoc.
    rewrite parse_loop_idle; [| done | by repeat constructor].
    destruct (parse_converted_all imgs body' trailer
                {| blocks := []; current := None; saw_any_label := false |} E Hok)
      as (st' & -> & Hblocks & Hsaw & _).
    destruct (Hsaw Hne) as [Hsaw' Hcur].
    destruct (current st') as [b |] eqn:Ecur; [| done].
    rewrite <- (app_nil_r trailer).
    erewrite (parse_loop_quiet trailer (map (fun _ => []) trailer) []);
      [| | exact Ecur].
    2:{ apply Forall2_fmap_r. apply Forall_Forall2_diag.
        eapply Forall_impl; [exact Htrailer |].
        intros line [[s ->] Hink]. by repeat split. }
    cbn [parse_loop mbind result_bind saw_any_label blocks current].
    rewrite Hsaw'. cbn [negb].
    assert (Hcat : concat (map (fun _ : text => @nil Z) trailer) = []).
    { clear. induction trailer as [| l t IH]; [done |]. exact IH. }
    rewrite Hcat, app_nil_r. cbn [blocks current app] in Hblocks.
    f_equal. rewrite <- Hblocks. f_equal. by destruct b.
  - apply Forall2_fmap_l. apply Forall_Forall2_diag. apply Forall_forall.
    intros c _. split; [done |]. split; [done |]. apply read_back_hints.
Qed.

(** X18. What png2asm.py writes, asm2pngs.py reads back: from the mode line
    and the blocks of one image or more that converted without the
    fallback note, followed by comment lines that hold no INK pattern (as
    the index of labels), parse_blocks_from_asm gives one block per image,
    in order, with the label in upper case, the width in bytes, the height
    and the rows as its bytes (each modulo 256) and a hint for each pen of
    the palette and no other.  The labels are to be as safe_label makes
    them, not empty and no directive name; the inks are not negative. *)
Theorem written_blocks_read_back (m : Z) (imgs : list converted)
    (body trailer : list text) :
  render_all (W_mode m :: flat_map converted_writes imgs) = Some body ->
  imgs <> [] ->
  Forall (fun c =>
            forallb is_word (T (c_label c)) = true
            /\ match T (c_label c) with
               | c0 :: _ => is_digit c0 = false
               | [] => False
               end
            /\ (map lower (T (c_label c)) ∉ directives)
            /\ Forall (fun i => 0 <= i) (c_used c)) imgs ->
  Forall (fun line => (exists s, line = ";"%char :: s)
                      /\ ink_search false line = None) trailer ->
  exists bs,
    parse_blocks_from_asm (body ++ trailer) = Ok bs
    /\ Forall2
         (fun b c =>
            Asm2pngs.label b = string_of_list_ascii (map upper (T (c_label c)))
            /\ db_bytes b
               = map (fun v => v mod 256)
                     (Z.of_nat (c_width_bytes c) :: Z.of_nat (c_height c)
                      :: concat (c_rows c))
            /\ forall k : Z,
                 pen_to_ink b !! k
                 = if bool_decide (0 <= k) then c_used c !! Z.to_nat k else None)
         bs imgs.
Proof. apply blocks_read_back. Qed.

Lemma written_blocks_read_back_witness :
  exists bs,
    parse_blocks_from_asm
      ([ T "; MODE 0"; T ""; T "SHIP"; T ";------ BEGIN IMAGE --------";
         T "  db 1 ; ancho en bytes"; T "  db 2 ; alto"; T "  db 195"; T "  db 60";
         T ";------ END IMAGE --------";
         T "  ; Paleta (PEN -> INK) detectada en el PNG";
         T "  ; INK 0,9"; T "  ; INK 1,6"; T "" ]
       ++ [ T "; ship = ship.png" ]) = Ok bs
    /\ Forall2
         (fun b c =>
            Asm2pngs.label b = string_of_list_ascii (map upper (T (c_label c)))
            /\ db_bytes b
               = map (fun v => v mod 256)
                     (Z.of_nat (c_width_bytes c) :: Z.of_nat (c_height c)
                      :: concat (c_rows c))
            /\ forall k : Z,
                 pen_to_ink b !! k
                 = if bool_decide (0 <= k) then c_used c !! Z.to_nat k else None)
         bs
         [ {| c_label := "ship"; c_width_bytes := 1; c_height := 2;
              c_rows := [[195]; [60]]; c_used := [9; 6] |} ].
Proof.
  apply (written_blocks_read_back 0
           [ {| c_label := "ship"; c_width_bytes := 1; c_height := 2;
                c_rows := [[195]; [60]]; c_used := [9; 6] |} ]).
  - vm_compute. reflexivity.
  - done.
  - constructor; [| constructor].
    split; [reflexivity |]. split; [reflexivity |]. split.
    + intros Hin. apply list_elem_of_In in Hin. cbn in Hin.
      repeat (destruct Hin as [Hin | Hin]; [discriminate Hin |]). exact Hin.
    + repeat constructor; lia.
  - constructor; [| constructor]. split; [by eexists | reflexivity].
Defined.

(** ** From the PNG to the file and back *)

(** The ink of a pixel is not negative, unless the transparent ink is. *)
Lemma resolved_ink_nonneg (tink : option Z) (p : rgba) :
  match tink with Some t => 0 <= t | None => True end ->
  0 <= resolved_ink tink p.
Proof.
  intros Htink. destruct p as [[[r g] b] a]. unfold resolved_ink.
  destruct (overridden tink (r, g, b, a)).
  - destruct tink as [t |]; cbn [default from_option id]; [done | lia].
  - destruct (nearest_scan_key (r, g, b)) as [c Hc].
    apply dict_find_In, INK_RGB_keys in Hc. lia.
Qed.

(** The inks the conversion lists are inks of pixels. *)
Lemma convert_used_nonneg (m : Z) (spec : ModeSpec) (im : image) (tol : Z)
    (tink : option Z) (wb ht : nat) (rows : list (list Z)) (used : list Z)
    (auto : bool) :
  dict_find MODE_SPECS m = Some spec ->
  convert_png_to_rows im spec tol tink = Ok (wb, ht, rows, used, auto) ->
  match tink with Some t => 0 <= t | None => True end ->
  Forall (fun i => 0 <= i) used.
Proof.
  intros Hspec Hconv Htink.
  destruct (convert_ok_inv m spec im tol tink wb ht rows used auto Hspec Hconv)
    as (_ & Hmod & _).
  destruct (decide (distinct_inks tink im <= colors spec)%nat) as [Hcol | Hcol].
  2:{ rewrite convert_overflow in Hconv by (done || lia). done. }
  destruct (convert_spec m spec im tol tink Hspec Hmod Hcol)
    as (st & rows' & Hst & Hconv' & _).
  rewrite Hconv' in Hconv. injection Hconv as _ _ _ <- _.
  destruct (scan_image_spec im tol tink) as (st' & Hst' & Hu & _).
  assert (st' = st) as -> by congruence.
  rewrite Hu.
  destruct (register_inks_spec (map (resolved_ink tink) (scan_order im)) [])
    as [_ Hel]; [constructor |].
  apply Forall_forall. intros x Hx. apply Hel in Hx as [Hx | Hx].
  - by apply elem_of_nil in Hx.
  - apply list_elem_of_fmap in Hx as (p & -> & _). by apply resolved_ink_nonneg.
Qed.

(** The rows the conversion returns hold bytes. *)
Lemma convert_rows_bytes (m : Z) (spec : ModeSpec) (im : image) (tol : Z)
    (tink : option Z) (wb ht : nat) (rows : list (list Z)) (used : list Z)
    (auto : bool) :
  dict_find MODE_SPECS m = Some spec ->
  convert_png_to_rows im spec tol tink = Ok (wb, ht, rows, used, auto) ->
  Forall (fun v => 0 <= v <= 255) (concat rows).
Proof.
  intros Hspec Hconv.
  destruct (convert_ok_inv m spec im tol tink wb ht rows used auto Hspec Hconv)
    as (_ & _ & _ & _ & _ & Hrows).
  apply Forall_concat. apply Forall_forall. intros row Hrow.
  apply list_elem_of_lookup in Hrow as [y Hrow].
  destruct (Forall2_lookup_r _ _ _ _ _ Hrows Hrow) as (y' & _ & Hpacks).
  apply Forall_forall. intros v Hv.
  apply list_elem_of_lookup in Hv as [k Hv].
  destruct (Forall2_lookup_r _ _ _ _ _ Hpacks Hv) as (x & _ & Hbyte & _).
  exact Hbyte.
Qed.

Lemma map_mod_bytes (l : list Z) :
  Forall (fun v => 0 <= v <= 255) l -> map (fun v => v mod 256) l = l.
Proof.
  induction 1 as [| v l Hv _ IH]; [done |]. cbn [map].
  by rewrite IH, Z.mod_small by lia.
Qed.

(** X19. From the PNG to the file and back: when an image of at most 255
    bytes by 255 lines converts without the fallback, the lines png2asm.py
    writes for it after the mode line (followed by comment lines without
    INK pattern, as the index is) are read by asm2pngs.py as one block,
    and that block decodes, in the same mode, to an image of the same size
    whose every pixel has the palette colour of the ink the pixel of the
    PNG resolved to.  The label is to be as safe_label makes it, not empty
    and no directive name; the transparent ink, if given, not negative. *)
Theorem png_survives_the_file (m : Z) (spec : ModeSpec) (im : image) (tol : Z)
    (tink : option Z) (l : string) (wb ht : nat) (rows : list (list Z))
    (used : list Z) (body trailer : list text) (bg : option Z) :
  dict_find MODE_SPECS m = Some spec ->
  convert_png_to_rows im spec tol tink = Ok (wb, ht, rows, used, false) ->
  render_all (W_mode (mode spec) :: image_block l wb ht rows used false)
  = Some body ->
  (wb <= 255)%nat -> (ht <= 255)%nat ->
  match tink with Some t => 0 <= t | None => True end ->
  forallb is_word (T l) = true ->
  match T l with c0 :: _ => is_digit c0 = false | [] => False end ->
  map lower (T l) ∉ directives ->
  Forall (fun line => (exists s, line = ";"%char :: s)
                      /\ ink_search false line = None) trailer ->
  exists blk pix,
    parse_blocks_from_asm (body ++ trailer) = Ok [blk]
    /\ decode_block_to_png blk m bg
       = Ok (Z.of_nat (img_w im), Z.of_nat (img_h im), pix)
    /\ forall x y, (x < img_w im)%nat -> (y < img_h im)%nat ->
         exists r g b,
           ink_to_rgb (Z.max 0 (Z.min 26 (resolved_ink tink (px im x y))))
           = Ok (r, g, b)
           /\ pixel_at pix x y = Some (r, g, b, 255).
Proof.
  intros Hspec Hconv Hbody Hwb Hht Htink Hword Hhead Hdir Htrailer.
  pose proof (convert_used_nonneg _ _ _ _ _ _ _ _ _ _ Hspec Hconv Htink) as Hused.
  pose proof (convert_rows_bytes _ _ _ _ _ _ _ _ _ _ Hspec Hconv) as Hbytes.
  destruct (blocks_read_back (mode spec)
              [ {| c_label := l; c_width_bytes := wb; c_height := ht;
                   c_rows := rows; c_used := used |} ] body trailer)
    as (bs & Hparse & Hbs).
  - cbn [flat_map converted_writes c_label c_width_bytes c_height c_rows c_used].
    by rewrite app_nil_r.
  - done.
  - constructor; [| constructor]. by repeat split.
  - done.
  - apply Forall2_cons_inv_r in Hbs as (blk & bs' & (Hlbl & Hdb & Hpti) & Hnil & ->).
    apply Forall2_nil_inv_r in Hnil as ->.
    cbn [c_label c_width_bytes c_height c_rows c_used] in Hlbl, Hdb, Hpti.
    cbn [map] in Hdb.
    rewrite (map_mod_bytes _ Hbytes) in Hdb.
    rewrite !Z.mod_small in Hdb by lia.
    destruct (convert_then_decode m spec im tol tink wb ht rows used false
                (Asm2pngs.label blk) (pen_to_ink blk) bg Hspec Hconv)
      as (pix & Hdec & Hpix).
    + intros pen ink Hpen. rewrite Hpti.
      rewrite bool_decide_eq_true_2 by lia. by rewrite Nat2Z.id.
    + exists blk, pix. split; [done |]. split; [| done].
      rewrite <- Hdec. f_equal. destruct blk. cbn in *. by subst.
Qed.

Lemma png_survives_the_file_witness :
  exists blk pix,
    parse_blocks_from_asm
      ([ T "; MODE 2"; T ""; T "TWO"; T ";------ BEGIN IMAGE --------";
         T "  db 1 ; ancho en bytes"; T "  db 1 ; alto"; T "  db 63";
         T ";------ END IMAGE --------";
         T "  ; Paleta (PEN -> INK) detectada en el PNG";
         T "  ; INK 0,0"; T "  ; INK 1,26"; T "" ]
       ++ [ T "; two = two.png" ]) = Ok [blk]
    /\ decode_block_to_png blk 2 None
       = Ok (Z.of_nat (img_w two_inks_8x1), Z.of_nat (img_h two_inks_8x1), pix)
    /\ forall x y, (x < img_w two_inks_8x1)%nat -> (y < img_h two_inks_8x1)%nat ->
         exists r g b,
           ink_to_rgb (Z.max 0 (Z.min 26 (resolved_ink None (px two_inks_8x1 x y))))
           = Ok (r, g, b)
           /\ pixel_at pix x y = Some (r, g, b, 255).
Proof.
  apply (png_survives_the_file 2 (Build_ModeSpec 2 2 8 1) two_inks_8x1 8 None
           "two" 1 1 [[0x3F]] [0; 26]).
  - reflexivity.
  - vm_compute. reflexivity.
  - vm_compute. reflexivity.
  - lia.
  - lia.
  - exact I.
  - reflexivity.
  - reflexivity.
  - intros Hin. apply list_elem_of_In in Hin. cbn in Hin.
    repeat (destruct Hin as [Hin | Hin]; [discriminate Hin |]). exact Hin.
  - constructor; [| constructor]. split; [by eexists | reflexivity].
Defined.

(** ** The batch of asm2pngs.py *)






(** The batch of the witness: the block [SHIP] is saved, the block [void],
    of width 0, is not. *)
Example asm2pngs_batch_sample :
  exists r,
    Asm2pngsMain.main 0 None false
      [ {| Asm2pngsMain.a_rel := "a.asm"; Asm2pngsMain.a_name := T "a";
           Asm2pngsMain.a_lines :=
             [ T "SHIP:"; T "  db 1, 2, 195, 60"; T "void:"; T "  db 0, 5, 1" ] |} ]
    = Ok r
    /\ map Asm2pngsMain.r_status (Asm2pngsMain.summary r)
       = [Asm2pngsMain.B_OK; Asm2pngsMain.B_SAVE_ERROR]
    /\ map fst (Asm2pngsMain.saved r) = [T "SHIP.png"]
    /\ (Asm2pngsMain.ok r, Asm2pngsMain.fail r, Asm2pngsMain.total_blocks r)
       = (1, 1, 2)%nat.
Proof. eexists. vm_compute. repeat split. Qed.
